(** * A shallow embedding of the @dreamer/webrtc signaling server and client

    The development follows the TypeScript sources:
    - [src/server/server.ts]: the room/user registry and the signaling
      router of [SignalingServer];
    - [src/client/client.ts]: the topology coordinator, the quality adapter,
      the duplicate-message filter of [RTCClient] and the
      [RTCPeerConnectionPool];
    - the rest of [src/server/server.ts] ([getNetworkQualitySuggestion],
      [resetStats], [WebRTCManager]) and of [src/client/client.ts] (network
      measurements, batching of ICE candidates, event listeners);
    - [src/client/sfu-adapter.ts]: the [SFUAdapter].

    JavaScript maps are finite maps ([gmap]), sets are [gset], arrays are
    lists.  Handlers are functions from a state to a new state and the list
    of calls they make on the transport (socket emits, broadcasts, timers). *)

From Stdlib Require Import ZArith NArith QArith String Ascii List Lia.
From stdpp Require Import gmap strings list fin_maps fin_sets.

Local Set Warnings "-clear-no-such-hyp".

Local Close Scope Q_scope.
Local Open Scope string_scope.
Local Open Scope Z_scope.
Local Open Scope list_scope.
Local Open Scope stdpp_scope.

(** ** JavaScript truthiness of strings

    [!x], [x || y] and [if (x)] on a string treat the empty string like
    [undefined]. *)

Definition truthy (s : string) : bool :=
  match s with
  | EmptyString => false
  | String _ _ => true
  end.

Definition truthy_opt (o : option string) : bool :=
  match o with
  | Some s => truthy s
  | None => false
  end.

(** ** Shared types (src/types.ts) *)

Inductive ArchitectureMode := mesh | sfu | auto.

#[global] Instance ArchitectureMode_eq_dec : EqDecision ArchitectureMode.
Proof. solve_decision. Defined.

(** A signaling message.  [msg_type] is [None] for a payload that carries no
    string [type] field: the transport hands the handlers whatever object the
    peer sent.  [msg_sdp] is the text [message.sdp.sdp], [msg_candidate] the
    text [message.candidate.candidate]; both are [None] when the field or its
    parent object is absent. *)
Record SignalingMessage := mkMsg {
  msg_type : option string;
  msg_from : option string;
  msg_to : option string;
  msg_roomId : option string;
  msg_sdp : option string;
  msg_candidate : option string;
  msg_error : option string;
  msg_architectureMode : option ArchitectureMode;
}.

Record RoomInfo := mkRoom {
  room_roomId : string;
  room_users : list string;
  room_createdAt : Z;
}.

Record UserInfo := mkUser {
  user_userId : string;
  user_roomId : option string;
  user_connected : bool;
  user_joinedAt : option Z;
}.

(** * The signaling server (src/server/server.ts) *)

Module Server.

(** [this.stats]; the average is the exact quotient of the recorded sum. *)
Record Stats := mkStats {
  messagesReceived : Z;
  messagesSent : Z;
  messagesDelayed : Z;
  averageLatency : Q;
  lastMessageTime : Z;
}.

Record SignalingServer := mkServer {
  rooms : gmap string RoomInfo;
  users : gmap string UserInfo;
  socketToUser : gmap string string;
  userToSocket : gmap string string;
  stats : Stats;
  messageLatencies : list Z;
  messageQueue : gmap string (list SignalingMessage);
  (** rooms that have a flush timer armed *)
  messageQueueTimers : gset string;
}.

Definition initialStats : Stats := mkStats 0 0 0 0%Q 0.

Definition initial : SignalingServer :=
  mkServer ∅ ∅ ∅ ∅ initialStats [] ∅ ∅.

(** What a handler asks of the transport. *)
Inductive Payload :=
  | PUserJoined (userId roomId : string)
  | PUserLeft (userId roomId : string)
  | PRoomJoined (roomId userId : string) (others : list string)
  | PSignaling (m : SignalingMessage)
  | PArchitectureMode (mode : option ArchitectureMode) (roomId : string).

Inductive Effect :=
  (** [socket.emit(event, payload)]: to that socket only *)
  | Emit (socket : string) (event : string) (p : Payload)
  (** [socket.to(room).emit(event, payload)]: to the room, sender excluded *)
  | Broadcast (socket room : string) (event : string) (p : Payload)
  | SocketJoin (socket room : string)
  | SocketLeave (socket room : string)
  | SetTimeout (room : string) (delay : Z).

Definition includes (l : list string) (x : string) : bool :=
  bool_decide (x ∈ l).

(** [userId || socket.id] *)
Definition actualUserId (socket : string) (userId : option string) : string :=
  match userId with
  | Some u => if truthy u then u else socket
  | None => socket
  end.

(** [handleJoinRoom(socket, roomId, userId?)]; [now] is what [Date.now()]
    reads while the handler runs. *)
Definition handleJoinRoom (now : Z) (socket roomId : string)
    (userId : option string) (s : SignalingServer)
    : SignalingServer * list Effect :=
  let uid := actualUserId socket userId in
  let userInfo := mkUser uid (Some roomId) true (Some now) in
  let users1 := <[uid := userInfo]> (users s) in
  let s2u := <[socket := uid]> (socketToUser s) in
  let u2s := <[uid := socket]> (userToSocket s) in
  let room :=
    match rooms s !! roomId with
    | Some room => room
    | None => mkRoom roomId [] now
    end in
  let room1 :=
    if includes (room_users room) uid then room
    else mkRoom (room_roomId room) (room_users room ++ [uid])
                (room_createdAt room) in
  (mkServer (<[roomId := room1]> (rooms s)) users1 s2u u2s (stats s)
     (messageLatencies s) (messageQueue s) (messageQueueTimers s),
   [ SocketJoin socket roomId;
     Broadcast socket roomId "user-joined" (PUserJoined uid roomId);
     Emit socket "room-joined"
       (PRoomJoined roomId uid
          (filter (λ id, id ≠ uid) (room_users room1))) ]).

(** [handleLeaveRoom(socket)] *)
Definition handleLeaveRoom (socket : string) (s : SignalingServer)
    : SignalingServer * list Effect :=
  match socketToUser s !! socket with
  | None => (s, [])
  | Some userId =>
    if negb (truthy userId) then (s, []) else
    match users s !! userId with
    | None => (s, [])
    | Some userInfo =>
      match user_roomId userInfo with
      | None => (s, [])
      | Some roomId =>
        if negb (truthy roomId) then (s, []) else
        let '(rooms1, notify) :=
          match rooms s !! roomId with
          | Some room =>
            let remaining := filter (λ id, id ≠ userId) (room_users room) in
            if Nat.eqb (length remaining) 0
            then (delete roomId (rooms s), [])
            else (<[roomId := mkRoom (room_roomId room) remaining
                                 (room_createdAt room)]> (rooms s),
                  [Broadcast socket roomId "user-left"
                     (PUserLeft userId roomId)])
          | None => (rooms s, [])
          end in
        let userInfo1 :=
          mkUser (user_userId userInfo) None false (user_joinedAt userInfo) in
        (mkServer rooms1 (<[userId := userInfo1]> (users s))
           (socketToUser s) (delete userId (userToSocket s)) (stats s)
           (messageLatencies s) (messageQueue s) (messageQueueTimers s),
         notify ++ [SocketLeave socket roomId])
      end
    end
  end.

(** [handleDisconnect(socket, reason)] *)
Definition handleDisconnect (socket : string) (s : SignalingServer)
    : SignalingServer * list Effect :=
  match socketToUser s !! socket with
  | None => (s, [])
  | Some userId =>
    if negb (truthy userId) then (s, []) else
    let '(s1, effs) := handleLeaveRoom socket s in
    (mkServer (rooms s1) (delete userId (users s1))
       (delete socket (socketToUser s1)) (delete userId (userToSocket s1))
       (stats s1) (messageLatencies s1) (messageQueue s1)
       (messageQueueTimers s1),
     effs)
  end.

(** Inspection surface. *)
Definition getRoom (s : SignalingServer) (roomId : string) : option RoomInfo :=
  rooms s !! roomId.

Definition getUser (s : SignalingServer) (userId : string) : option UserInfo :=
  users s !! userId.

Definition getRoomUsers (s : SignalingServer) (roomId : string) : list string :=
  match rooms s !! roomId with
  | Some room => room_users room
  | None => []
  end.

(** *** Signaling router *)

(** What running a handler comes to: it returns, or an exception escapes to
    the transport. *)
Inductive Outcome :=
  | Returned (s : SignalingServer) (effs : list Effect)
  | Threw.

Definition with_stats (s : SignalingServer) (st : Stats) : SignalingServer :=
  mkServer (rooms s) (users s) (socketToUser s) (userToSocket s) st
    (messageLatencies s) (messageQueue s) (messageQueueTimers s).

(** The message [{ type: "error", error: "用户未加入房间" }]. *)
Definition notInRoomError : SignalingMessage :=
  mkMsg (Some "error") None None None None None (Some "用户未加入房间") None.

(** [findSocketByUserId(userId)]; [live] is the set of socket ids the
    Socket.IO namespace currently holds. *)
Definition findSocketByUserId (live : gset string) (s : SignalingServer)
    (userId : string) : option string :=
  match userToSocket s !! userId with
  | None => None
  | Some socketId =>
    if negb (truthy socketId) then None
    else if decide (socketId ∈ live) then Some socketId else None
  end.

(** [sendMessage(message, socket, roomId)] *)
Definition sendMessage (live : gset string) (message : SignalingMessage)
    (socket roomId : string) (s : SignalingServer)
    : SignalingServer * list Effect :=
  let st := stats s in
  if truthy_opt (msg_to message) then
    match findSocketByUserId live s (default "" (msg_to message)) with
    | Some target =>
      (with_stats s
         (mkStats (messagesReceived st) (messagesSent st + 1)
            (messagesDelayed st) (averageLatency st) (lastMessageTime st)),
       [Emit target "signaling" (PSignaling message)])
    | None => (s, [])
    end
  else
    (match rooms s !! roomId with
     | Some room =>
       with_stats s
         (mkStats (messagesReceived st)
            (messagesSent st + (Z.of_nat (length (room_users room)) - 1))
            (messagesDelayed st) (averageLatency st) (lastMessageTime st))
     | None => s
     end,
     [Broadcast socket roomId "signaling" (PSignaling message)]).

Definition batchDelay : Z := 50.

(** [queueMessage(roomId, message, socket)] *)
Definition queueMessage (roomId : string) (message : SignalingMessage)
    (s : SignalingServer) : SignalingServer * list Effect :=
  let queue := default [] (messageQueue s !! roomId) in
  let mq := <[roomId := queue ++ [message]]> (messageQueue s) in
  if decide (roomId ∈ messageQueueTimers s) then
    (mkServer (rooms s) (users s) (socketToUser s) (userToSocket s) (stats s)
       (messageLatencies s) mq (messageQueueTimers s), [])
  else
    (mkServer (rooms s) (users s) (socketToUser s) (userToSocket s) (stats s)
       (messageLatencies s) mq ({[roomId]} ∪ messageQueueTimers s),
     [SetTimeout roomId batchDelay]).

(** [recordLatency(latency)] *)
Definition recordLatency (latency : Z) (s : SignalingServer) : SignalingServer :=
  let pushed := messageLatencies s ++ [latency] in
  let kept := if (1000 <? Z.of_nat (length pushed)) then tail pushed else pushed in
  let sum := fold_left Z.add kept 0 in
  let st := stats s in
  mkServer (rooms s) (users s) (socketToUser s) (userToSocket s)
    (mkStats (messagesReceived st) (messagesSent st)
       (if 100 <? latency then messagesDelayed st + 1 else messagesDelayed st)
       (inject_Z sum / inject_Z (Z.of_nat (length kept)))%Q
       (lastMessageTime st))
    kept (messageQueue s) (messageQueueTimers s).

(** [message.type.startsWith("sfu-")] *)
Definition startsWith (prefix s : string) : bool := String.prefix prefix s.

(** [handleSignaling(socket, message)]; [startTime] and [endTime] are the two
    readings of [Date.now()]. *)
Definition handleSignaling (startTime endTime : Z) (live : gset string)
    (socket : string) (message : SignalingMessage) (s : SignalingServer)
    : Outcome :=
  match socketToUser s !! socket with
  | None => Returned s [Emit socket "signaling" (PSignaling notInRoomError)]
  | Some userId =>
    if negb (truthy userId)
    then Returned s [Emit socket "signaling" (PSignaling notInRoomError)]
    else
    match users s !! userId with
    | None => Returned s [Emit socket "signaling" (PSignaling notInRoomError)]
    | Some userInfo =>
      match user_roomId userInfo with
      | None => Returned s [Emit socket "signaling" (PSignaling notInRoomError)]
      | Some roomId =>
        if negb (truthy roomId)
        then Returned s [Emit socket "signaling" (PSignaling notInRoomError)]
        else
        let message1 :=
          mkMsg (msg_type message) (Some userId) (msg_to message) (Some roomId)
            (msg_sdp message) (msg_candidate message) (msg_error message)
            (msg_architectureMode message) in
        match msg_type message with
        | None => Threw
        | Some ty =>
          if String.eqb ty "architecture-mode" then
            Returned s
              [Broadcast socket roomId "architecture-mode"
                 (PArchitectureMode (msg_architectureMode message1) roomId)]
          else if startsWith "sfu-" ty then
            Returned s [Broadcast socket roomId "signaling" (PSignaling message1)]
          else
            let st := stats s in
            let s1 :=
              with_stats s
                (mkStats (messagesReceived st + 1) (messagesSent st)
                   (messagesDelayed st) (averageLatency st) startTime) in
            let '(s2, effs) :=
              if String.eqb ty "ice-candidate"
              then queueMessage roomId message1 s1
              else sendMessage live message1 socket roomId s1 in
            Returned (recordLatency (endTime - startTime) s2) effs
        end
      end
    end
  end.

(** [flushMessageQueue(roomId)], run by the timer. *)
Definition clearQueue (roomId : string) (s : SignalingServer) : SignalingServer :=
  mkServer (rooms s) (users s) (socketToUser s) (userToSocket s) (stats s)
    (messageLatencies s) (delete roomId (messageQueue s))
    (messageQueueTimers s ∖ {[roomId]}).

Definition flushOne (live : gset string) (roomId : string)
    (acc : SignalingServer * list Effect) (message : SignalingMessage)
    : SignalingServer * list Effect :=
  let '(s, effs) := acc in
  match userToSocket s !! default "" (msg_from message) with
  | None => acc
  | Some senderSocketId =>
    if negb (truthy senderSocketId) then acc
    else if decide (senderSocketId ∈ live) then
      let '(s1, e1) := sendMessage live message senderSocketId roomId s in
      (s1, effs ++ e1)
    else acc
  end.

Definition flushMessageQueue (live : gset string) (roomId : string)
    (s : SignalingServer) : SignalingServer * list Effect :=
  match messageQueue s !! roomId with
  | None => (clearQueue roomId s, [])
  | Some [] => (clearQueue roomId s, [])
  | Some messages =>
    match rooms s !! roomId with
    | None => (clearQueue roomId s, [])
    | Some _ =>
      let '(s1, effs) := fold_left (flushOne live roomId) messages (s, []) in
      (clearQueue roomId s1, effs)
    end
  end.

(** [getStats()] *)
Record ServerStats := mkServerStats {
  stats_of : Stats;
  activeRooms : nat;
  activeUsers : nat;
}.

Definition getStats (s : SignalingServer) : ServerStats :=
  mkServerStats (stats s) (size (rooms s)) (size (users s)).

(** The room a socket is registered to: the room id recorded for the user
    the socket is mapped to. *)
Definition registeredRoom (s : SignalingServer) (socket : string)
    : option string :=
  match socketToUser s !! socket with
  | None => None
  | Some userId =>
    match users s !! userId with
    | None => None
    | Some userInfo => user_roomId userInfo
    end
  end.

(** The record [recordLatency] keeps: the new sample appended, the oldest
    dropped once more than 1000 are held. *)
Definition withSample (latencies : list Z) (latency : Z) : list Z :=
  let pushed := latencies ++ [latency] in
  if (1000 <? Z.of_nat (length pushed)) then tail pushed else pushed.

(** The message as the router stamps it. *)
Definition stamped (m : SignalingMessage) (u r : string) : SignalingMessage :=
  mkMsg (msg_type m) (Some u) (msg_to m) (Some r) (msg_sdp m)
    (msg_candidate m) (msg_error m) (msg_architectureMode m).

(** *** Registry events

    The three transport events that touch the registry, and the state
    reached from a fresh server by handling a sequence of them. *)
Inductive Event :=
  | JoinRoom (now : Z) (socket roomId : string) (userId : option string)
  | LeaveRoom (socket : string)
  | Disconnect (socket : string).

Definition handle (e : Event) (s : SignalingServer)
    : SignalingServer * list Effect :=
  match e with
  | JoinRoom now socket roomId userId => handleJoinRoom now socket roomId userId s
  | LeaveRoom socket => handleLeaveRoom socket s
  | Disconnect socket => handleDisconnect socket s
  end.

Definition step (s : SignalingServer) (e : Event) : SignalingServer :=
  fst (handle e s).

Definition run_from (s : SignalingServer) (tr : list Event) : SignalingServer :=
  fold_left step tr s.

Definition run (tr : list Event) : SignalingServer := run_from initial tr.

(** *** The membership the specification describes

    Written from the specification's words, independently of the handlers:
    the pairs (room, user) such that the user joined the room and has not
    since left or disconnected.  A leave or disconnect is attributed to the
    user the socket last joined as. *)
Record Expected := mkExpected {
  bound : gmap string string;
  joined : gset (string * string);
}.

Definition depart (u : string) (j : gset (string * string))
    : gset (string * string) :=
  filter (λ p, p.2 ≠ u) j.

Definition expected_step (x : Expected) (e : Event) : Expected :=
  match e with
  | JoinRoom _ socket roomId userId =>
    let u := actualUserId socket userId in
    mkExpected (<[socket := u]> (bound x)) ({[ (roomId, u) ]} ∪ joined x)
  | LeaveRoom socket =>
    match bound x !! socket with
    | Some u => mkExpected (bound x) (depart u (joined x))
    | None => x
    end
  | Disconnect socket =>
    match bound x !! socket with
    | Some u => mkExpected (delete socket (bound x)) (depart u (joined x))
    | None => x
    end
  end.

Definition expected_run (tr : list Event) : Expected :=
  fold_left expected_step tr (mkExpected ∅ ∅).

Definition expected_members (tr : list Event) (roomId : string) : gset string :=
  set_map snd (filter (λ p, p.1 = roomId) (joined (expected_run tr))).

(** Room membership, as the specification words it. *)
Definition membership_as_specified (tr : list Event) : Prop :=
  ∀ roomId,
    list_to_set (getRoomUsers (run tr) roomId) = expected_members tr roomId
    ∧ (getRoom (run tr) roomId = None ↔ expected_members tr roomId = ∅).




(** *** Orderly sessions

    User ids (the socket id, where none is given) and room ids are non-empty
    strings, and nobody joins a room while still a member of a different one
    (judged on the specification's membership, not on the server state). *)
Definition orderly_event (x : Expected) (e : Event) : Prop :=
  match e with
  | JoinRoom _ socket roomId userId =>
    actualUserId socket userId ≠ "" ∧ roomId ≠ "" ∧
    set_Forall (λ p, p.2 = actualUserId socket userId → p.1 = roomId) (joined x)
  | _ => True
  end.

Fixpoint orderly_from (x : Expected) (tr : list Event) : Prop :=
  match tr with
  | [] => True
  | e :: tr' => orderly_event x e ∧ orderly_from (expected_step x e) tr'
  end.

Definition orderly (tr : list Event) : Prop :=
  orderly_from (mkExpected ∅ ∅) tr.

#[global] Instance orderly_event_dec x e : Decision (orderly_event x e).
Proof. destruct e; simpl; apply _. Defined.

#[global] Instance orderly_from_dec tr : ∀ x, Decision (orderly_from x tr).
Proof. induction tr as [|e tr IH]; simpl; intros x; apply _. Defined.

#[global] Instance orderly_dec tr : Decision (orderly tr).
Proof. unfold orderly. apply _. Defined.





(** "Disconnect after leave changes nothing", as the specification words
    it. *)
Definition disconnect_after_leave_as_specified (s : SignalingServer)
    (socket : string) : Prop :=
  let s1 := fst (handleLeaveRoom socket s) in
  fst (handleDisconnect socket s1) = s1.

(** *** Room membership, read off the events alone

    "The users who joined that room and have not since left or
    disconnected": [userId] is a member of [roomId] after [tr] when a socket
    joined [roomId] under that id and no leave-room or disconnect of that
    socket follows that join. *)
Definition departure_of (socket : string) (e : Event) : Prop :=
  e = LeaveRoom socket ∨ e = Disconnect socket.

Definition joined_through (tr : list Event) (roomId userId socket : string)
    : Prop :=
  ∃ before now given after,
    tr = before ++ JoinRoom now socket roomId given :: after
    ∧ actualUserId socket given = userId
    ∧ ∀ e, e ∈ after → ¬ departure_of socket e.

Definition member_as_specified (tr : list Event) (roomId userId : string)
    : Prop :=
  ∃ socket, joined_through tr roomId userId socket.

(** Room lists and the registry, as the specification words them. *)
Definition room_lists_as_specified (tr : list Event) : Prop :=
  ∀ roomId,
    (∀ userId, userId ∈ getRoomUsers (run tr) roomId
               ↔ member_as_specified tr roomId userId)
    ∧ (getRoom (run tr) roomId = None
       ↔ ∀ userId, ¬ member_as_specified tr roomId userId).

(** *** Sessions in which a user is one socket

    What the sockets are doing, read off the events alone: the id a
    connected socket has joined under, and the room it is in.  In a
    one-socket session user and room ids are non-empty, a socket keeps the
    user id it first joined under for as long as it is connected, no other
    connected socket has joined under that id, and a socket joins no room
    while it is in a different one. *)
Record Sockets := mkSockets {
  identity : gmap string string;
  presence : gmap string string;
}.

Definition sockets_step (x : Sockets) (e : Event) : Sockets :=
  match e with
  | JoinRoom _ socket roomId userId =>
    mkSockets (<[socket := actualUserId socket userId]> (identity x))
      (<[socket := roomId]> (presence x))
  | LeaveRoom socket => mkSockets (identity x) (delete socket (presence x))
  | Disconnect socket =>
    mkSockets (delete socket (identity x)) (delete socket (presence x))
  end.


Definition one_socket_event (x : Sockets) (e : Event) : Prop :=
  match e with
  | JoinRoom _ socket roomId userId =>
    let userId := actualUserId socket userId in
    userId ≠ "" ∧ roomId ≠ ""
    ∧ match identity x !! socket with
      | Some held => held = userId
      | None => True
      end
    ∧ map_Forall (λ other held, held = userId → other = socket) (identity x)
    ∧ match presence x !! socket with
      | Some room => room = roomId
      | None => True
      end
  | _ => True
  end.

Fixpoint one_socket_from (x : Sockets) (tr : list Event) : Prop :=
  match tr with
  | [] => True
  | e :: tr' => one_socket_event x e ∧ one_socket_from (sockets_step x e) tr'
  end.

Definition one_socket_per_user (tr : list Event) : Prop :=
  one_socket_from (mkSockets ∅ ∅) tr.

#[global] Instance one_socket_event_dec x e : Decision (one_socket_event x e).
Proof.
  destruct e; simpl; [|apply _|apply _].
  destruct (identity x !! socket), (presence x !! socket); apply _.
Defined.

#[global] Instance one_socket_from_dec tr : ∀ x, Decision (one_socket_from x tr).
Proof. induction tr as [|e tr IH]; simpl; intros x; apply _. Defined.

#[global] Instance one_socket_per_user_dec tr : Decision (one_socket_per_user tr).
Proof. unfold one_socket_per_user. apply _. Defined.


(** A socket that changes its user id: it joins as "a", joins again as "b"
    and disconnects. *)
Definition session_changed_id : list Event :=
  [ JoinRoom 0 "s1" "r1" (Some "a"); JoinRoom 1 "s1" "r1" (Some "b");
    Disconnect "s1" ].

(** Two sockets under one user id: the first leaves while the second
    stays. *)
Definition session_shared_id : list Event :=
  [ JoinRoom 0 "s1" "r1" (Some "u"); JoinRoom 1 "s2" "r1" (Some "u");
    LeaveRoom "s1" ].

(** *** The whole event surface

    [resetStats()], and the state reached from a fresh server by any
    sequence of transport events, flush timers and statistics resets.  An
    exception that escapes [handleSignaling] is raised before the handler
    has written anything, so the state stays as it was. *)
Definition resetStats (s : SignalingServer) : SignalingServer :=
  mkServer (rooms s) (users s) (socketToUser s) (userToSocket s) initialStats
    [] (messageQueue s) (messageQueueTimers s).

Inductive Input :=
  | Registry (e : Event)
  | Signaling (startTime endTime : Z) (live : gset string) (socket : string)
      (message : SignalingMessage)
  | FlushTimer (live : gset string) (roomId : string)
  | ResetStats.

Definition react (s : SignalingServer) (i : Input) : SignalingServer :=
  match i with
  | Registry e => step s e
  | Signaling startTime endTime live socket message =>
    match handleSignaling startTime endTime live socket message s with
    | Returned s' _ => s'
    | Threw => s
    end
  | FlushTimer live roomId => fst (flushMessageQueue live roomId s)
  | ResetStats => resetStats s
  end.

Definition serve (inputs : list Input) : SignalingServer :=
  fold_left react inputs initial.

(** What the registry keeps true whatever the events. *)
Record registry_ok (s : SignalingServer) : Prop := mkRegistryOk {
  rok_room : ∀ r room, rooms s !! r = Some room →
      room_roomId room = r ∧ room_users room ≠ [] ∧ NoDup (room_users room);
  rok_user : ∀ u info, users s !! u = Some info →
      user_userId info = u
      ∧ (∀ r, user_roomId info = Some r → u ∈ getRoomUsers s r)
      ∧ (user_connected info = true ↔ is_Some (user_roomId info));
  rok_index : ∀ u, is_Some (userToSocket s !! u) ↔
      ∃ info, users s !! u = Some info ∧ is_Some (user_roomId info);
}.

(** The mean [recordLatency] stores. *)
Definition mean (samples : list Z) : Q :=
  (inject_Z (fold_left Z.add samples 0%Z)
   / inject_Z (Z.of_nat (length samples)))%Q.

(** What the router keeps true of its statistics and its queues. *)
Record router_ok (s : SignalingServer) : Prop := mkRouterOk {
  rtr_delayed : 0 ≤ messagesDelayed (stats s) ≤ messagesReceived (stats s);
  rtr_samples : Z.of_nat (length (messageLatencies s))
                ≤ Z.min 1000 (messagesReceived (stats s));
  rtr_average : averageLatency (stats s)
                = match messageLatencies s with
                  | [] => 0%Q
                  | _ => mean (messageLatencies s)
                  end;
  rtr_timer : ∀ r, r ∈ messageQueueTimers s ↔ is_Some (messageQueue s !! r);
  rtr_queue : ∀ r q, messageQueue s !! r = Some q → q ≠ [];
}.

(** [s'] differs from [s] in [messagesSent] at most. *)
Definition only_sent_differs (s s' : SignalingServer) : Prop :=
  s' = with_stats s
         (mkStats (messagesReceived (stats s)) (messagesSent (stats s'))
            (messagesDelayed (stats s)) (averageLatency (stats s))
            (lastMessageTime (stats s))).

(** Whether an effect hands a message over: a unicast or a broadcast. *)
Definition delivers (e : Effect) : bool :=
  match e with
  | Emit _ _ _ | Broadcast _ _ _ _ => true
  | _ => false
  end.

End Server.


(** * The connection pool (src/client/client.ts, [RTCPeerConnectionPool])

    A native connection object is identified by a number; every [acquire]
    constructs a new one.  [pendingClose] keeps the handles whose delayed
    close timer is armed. *)

Module Pool.

Record PoolStats := mkPoolStats {
  created : Z;
  released : Z;
  active : Z;
}.

Record RTCPeerConnectionPool := mkPool {
  activeConnections : gset nat;
  (** keys of the insertion-ordered [configCache] *)
  configCache : list string;
  stats : PoolStats;
  pendingClose : gset nat;
  (** the next object [new RTCPeerConnection] yields *)
  nextConnection : nat;
}.

Definition empty : RTCPeerConnectionPool :=
  mkPool ∅ [] (mkPoolStats 0 0 0) ∅ 0%nat.

Definition cacheConfig (configKey : string) (cache : list string) : list string :=
  if bool_decide (configKey ∈ cache) then cache
  else
    let cache1 := cache ++ [configKey] in
    if (10 <? Z.of_nat (length cache1)) then
      match cache1 with
      | firstKey :: rest => if truthy firstKey then rest else cache1
      | [] => cache1
      end
    else cache1.

(** [acquire(config)]: [configKey] is [getConfigKey(config)], [hasRTC] tells
    whether [globalThis.RTCPeerConnection] exists; [None] is the thrown
    error. *)
Definition acquire (hasRTC : bool) (configKey : string)
    (p : RTCPeerConnectionPool) : RTCPeerConnectionPool * option nat :=
  let cache := cacheConfig configKey (configCache p) in
  if negb hasRTC then
    (mkPool (activeConnections p) cache (stats p) (pendingClose p)
       (nextConnection p), None)
  else
    let pc := nextConnection p in
    let act := {[pc]} ∪ activeConnections p in
    (mkPool act cache
       (mkPoolStats (created (stats p) + 1) (released (stats p))
          (Z.of_nat (size act)))
       (pendingClose p) (S pc),
     Some pc).

(** [release(pc)] *)
Definition release (pc : nat) (p : RTCPeerConnectionPool) : RTCPeerConnectionPool :=
  if negb (bool_decide (pc ∈ activeConnections p)) then p
  else
    let act := activeConnections p ∖ {[pc]} in
    mkPool act (configCache p)
      (mkPoolStats (created (stats p)) (released (stats p) + 1)
         (Z.of_nat (size act)))
      ({[pc]} ∪ pendingClose p) (nextConnection p).

(** The delayed close armed by [release] fires: [pc.close()], then the
    handle leaves [pendingClose].  A cleared timer never fires. *)
Definition closeTimerFires (pc : nat) (p : RTCPeerConnectionPool)
    : RTCPeerConnectionPool :=
  mkPool (activeConnections p) (configCache p) (stats p)
    (pendingClose p ∖ {[pc]}) (nextConnection p).

(** [releaseImmediate(pc)] *)
Definition releaseImmediate (pc : nat) (p : RTCPeerConnectionPool)
    : RTCPeerConnectionPool :=
  let act := activeConnections p ∖ {[pc]} in
  mkPool act (configCache p)
    (mkPoolStats (created (stats p)) (released (stats p) + 1)
       (Z.of_nat (size act)))
    (pendingClose p ∖ {[pc]}) (nextConnection p).

(** [clear()] *)
Definition clear (p : RTCPeerConnectionPool) : RTCPeerConnectionPool :=
  mkPool ∅ [] (mkPoolStats 0 0 0) ∅ (nextConnection p).

Record Snapshot := mkSnapshot {
  snap_created : Z;
  snap_released : Z;
  snap_active : Z;
  snap_pendingClose : Z;
  snap_configCacheSize : Z;
}.

(** [getStats()] *)
Definition getStats (p : RTCPeerConnectionPool) : Snapshot :=
  mkSnapshot (created (stats p)) (released (stats p)) (active (stats p))
    (Z.of_nat (size (pendingClose p))) (Z.of_nat (length (configCache p))).

Inductive Call :=
  | Acquire (hasRTC : bool) (configKey : string)
  | Release (pc : nat)
  | ReleaseImmediate (pc : nat)
  | Clear
  | CloseTimerFires (pc : nat).

Definition call (p : RTCPeerConnectionPool) (c : Call) : RTCPeerConnectionPool :=
  match c with
  | Acquire hasRTC configKey => fst (acquire hasRTC configKey p)
  | Release pc => release pc p
  | ReleaseImmediate pc => releaseImmediate pc p
  | Clear => clear p
  | CloseTimerFires pc => closeTimerFires pc p
  end.

Definition run (calls : list Call) : RTCPeerConnectionPool :=
  fold_left call calls empty.

(** The pool invariant as the specification words it. *)
Definition invariant_as_specified (st : Snapshot) : Prop :=
  snap_created st - snap_released st = snap_active st
  ∧ snap_active st + snap_pendingClose st ≤ snap_created st.

(** Calls in which [releaseImmediate] is only handed connections that are
    still active. *)
Fixpoint immediate_on_active (p : RTCPeerConnectionPool) (calls : list Call)
    : Prop :=
  match calls with
  | [] => True
  | c :: rest =>
    match c with
    | ReleaseImmediate pc => pc ∈ activeConnections p
    | _ => True
    end ∧ immediate_on_active (call p c) rest
  end.

(** What every sequence of calls keeps true. *)
Record pool_ok (p : RTCPeerConnectionPool) : Prop := mkPoolOk {
  ok_active : active (stats p) = Z.of_nat (size (activeConnections p));
  ok_disjoint : activeConnections p ## pendingClose p;
  ok_fresh : ∀ pc, pc ∈ activeConnections p ∪ pendingClose p →
      (pc < nextConnection p)%nat;
  ok_created : Z.of_nat (size (activeConnections p))
               + Z.of_nat (size (pendingClose p)) ≤ created (stats p);
}.

(** [getConfigKey(config)].  [iceServers] holds what [JSON.stringify] makes
    of the server list when the configuration has one. *)
Record RTCConfiguration := mkConfiguration {
  iceTransportPolicy : option string;
  bundlePolicy : option string;
  iceServers : option string;
}.

Definition getConfigKey (config : RTCConfiguration) : string :=
  let iceServers :=
    match iceServers config with
    | Some json => json
    | None => ""
    end in
  ((if truthy_opt (iceTransportPolicy config)
    then default "" (iceTransportPolicy config) else "")
   ++ "-"
   ++ (if truthy_opt (bundlePolicy config)
       then default "" (bundlePolicy config) else "")
   ++ "-" ++ iceServers)%string.

(** Calls whose [acquire] is given a non-empty configuration key. *)
Definition keyed (c : Call) : bool :=
  match c with
  | Acquire _ configKey => truthy configKey
  | _ => true
  end.

End Pool.

(** * The client (src/client/client.ts, [RTCClient])

    The fields of [RTCClient] that the topology coordinator, the quality
    adapter and the duplicate filter read or write. *)

Module Client.

Inductive Quality := low | medium | high.

#[global] Instance Quality_eq_dec : EqDecision Quality.
Proof. solve_decision. Defined.

(** [this.networkStats]; the measurements are kept as exact rationals. *)
Record NetworkStats := mkNetworkStats {
  bandwidth : Q;
  packetLoss : Q;
  rtt : Q;
  lastUpdate : Z;
}.

(** The constructor argument: an absent key is [None]; [sfuOptions] records
    whether the object was supplied. *)
Record RTCClientOptions := mkOptions {
  architectureMode : option ArchitectureMode;
  meshToSFUThreshold : option Z;
  sfuOptions : bool;
}.

Record RTCClient := mkClient {
  (** [this.options.architectureMode], [this.options.meshToSFUThreshold] *)
  options_architectureMode : ArchitectureMode;
  options_meshToSFUThreshold : Z;
  (** whether [this.sfuAdapter] was created *)
  sfuAdapter : bool;
  currentArchitectureMode : ArchitectureMode;
  roomUserCount : Z;
  roomId : option string;
  userId : option string;
  multiPeerMode : bool;
  peerConnection : option nat;
  peerConnections : gmap string nat;
  (** whether [this.localStream] is set *)
  localStream : bool;
  (** the next connection object the pool constructs *)
  nextConnection : nat;
  processedSignalingIds : gset string;
  stats_messagesReceived : Z;
  stats_errors : Z;
  currentQuality : Quality;
  networkStats : NetworkStats;
}.

Inductive Effect :=
  | ClosePeerConnection (pc : nat)
  | EmitSignaling (m : SignalingMessage)
  | SfuConnect
  | SfuDisconnect
  | SfuPublish
  | SfuHandleSignaling (m : SignalingMessage)
  | AcquirePeerConnection (pc : nat)
  | CreateOffer
  | CreateOfferForUser (userId : string) (pc : nat)
  | HandleSignalingForPeer (pc : nat) (m : SignalingMessage)
  | EmitError
  | ApplyQualitySettings (q : Quality).

(** Field updates. *)
Definition set_topology (c : RTCClient) (mode : ArchitectureMode)
    (pc : option nat) (pcs : gmap string nat) (next : nat) : RTCClient :=
  mkClient (options_architectureMode c) (options_meshToSFUThreshold c)
    (sfuAdapter c) mode (roomUserCount c) (roomId c) (userId c)
    (multiPeerMode c) pc pcs (localStream c) next (processedSignalingIds c)
    (stats_messagesReceived c) (stats_errors c) (currentQuality c)
    (networkStats c).

Definition set_room (c : RTCClient) (rid uid : option string) (count : Z)
    : RTCClient :=
  mkClient (options_architectureMode c) (options_meshToSFUThreshold c)
    (sfuAdapter c) (currentArchitectureMode c) count rid uid
    (multiPeerMode c) (peerConnection c) (peerConnections c) (localStream c)
    (nextConnection c) (processedSignalingIds c) (stats_messagesReceived c)
    (stats_errors c) (currentQuality c) (networkStats c).

Definition set_dedup (c : RTCClient) (ids : gset string) (received errors : Z)
    : RTCClient :=
  mkClient (options_architectureMode c) (options_meshToSFUThreshold c)
    (sfuAdapter c) (currentArchitectureMode c) (roomUserCount c) (roomId c)
    (userId c) (multiPeerMode c) (peerConnection c) (peerConnections c)
    (localStream c) (nextConnection c) ids received errors (currentQuality c)
    (networkStats c).

Definition set_quality (c : RTCClient) (q : Quality) : RTCClient :=
  mkClient (options_architectureMode c) (options_meshToSFUThreshold c)
    (sfuAdapter c) (currentArchitectureMode c) (roomUserCount c) (roomId c)
    (userId c) (multiPeerMode c) (peerConnection c) (peerConnections c)
    (localStream c) (nextConnection c) (processedSignalingIds c)
    (stats_messagesReceived c) (stats_errors c) q (networkStats c).

(** [x || 10] on a number: zero counts as missing. *)
Definition orDefault (x dflt : Z) : Z := if x =? 0 then dflt else x.

(** The constructor, up to the fields kept here. *)
Definition constructor (o : RTCClientOptions) : RTCClient :=
  let mode := default auto (architectureMode o) in
  let threshold :=
    match meshToSFUThreshold o with
    | Some n => n
    | None => 10
    end in
  mkClient mode threshold
    (match mode with
     | mesh => false
     | _ => sfuOptions o
     end)
    (match mode with
     | auto => mesh
     | m => m
     end)
    0 None None false None ∅ false 0%nat ∅ 0 0 high
    (mkNetworkStats 0%Q 0%Q 0%Q 0).

(** [initializePeerConnection()]: a connection from the pool becomes
    [this.peerConnection]. *)
Definition initializePeerConnection (c : RTCClient) : RTCClient * list Effect :=
  let pc := nextConnection c in
  (set_topology c (currentArchitectureMode c) (Some pc) (peerConnections c)
     (S pc),
   [AcquirePeerConnection pc]).

(** [createPeerConnectionForUser(userId)] *)
Definition createPeerConnectionForUser (acc : RTCClient * list Effect)
    (user : string) : RTCClient * list Effect :=
  let '(c, effs) := acc in
  match peerConnections c !! user with
  | Some _ => acc
  | None =>
    let pc := nextConnection c in
    (set_topology c (currentArchitectureMode c) (peerConnection c)
       (<[user := pc]> (peerConnections c)) (S pc),
     effs ++ [AcquirePeerConnection pc; CreateOfferForUser user pc])
  end.

(** [removePeerConnectionForUser(userId)] *)
Definition removePeerConnectionForUser (user : string) (c : RTCClient)
    : RTCClient * list Effect :=
  match peerConnections c !! user with
  | Some pc =>
    (set_topology c (currentArchitectureMode c) (peerConnection c)
       (delete user (peerConnections c)) (nextConnection c),
     [ClosePeerConnection pc])
  | None => (c, [])
  end.

Definition architectureModeMessage (mode : ArchitectureMode)
    (rid : option string) : SignalingMessage :=
  mkMsg (Some "architecture-mode") None None rid None None None (Some mode).

(** [switchArchitecture(mode)].  The body up to its first [await] runs
    within the calling handler; the SFU calls after it are listed in
    order.  The mesh connections are closed in the order the map yields
    them. *)
Definition switchArchitecture (mode : ArchitectureMode) (c : RTCClient)
    : RTCClient * list Effect :=
  if decide (mode = currentArchitectureMode c) then (c, []) else
  let '(c1, closing) :=
    match currentArchitectureMode c with
    | mesh =>
      (set_topology c mesh None ∅ (nextConnection c),
       (ClosePeerConnection <$> (snd <$> map_to_list (peerConnections c)))
       ++ match peerConnection c with
          | Some pc => [ClosePeerConnection pc]
          | None => []
          end)
    | sfu => (c, if sfuAdapter c then [SfuDisconnect] else [])
    | auto => (c, [])
    end in
  let c2 :=
    set_topology c1 mode (peerConnection c1) (peerConnections c1)
      (nextConnection c1) in
  let notice := [EmitSignaling (architectureModeMessage mode (roomId c2))] in
  let '(c3, opening) :=
    match mode with
    | sfu =>
      if sfuAdapter c2 && truthy_opt (roomId c2)
      then (c2, SfuConnect :: if localStream c2 then [SfuPublish] else [])
      else (c2, [])
    | mesh =>
      if truthy_opt (roomId c2) then initializePeerConnection c2 else (c2, [])
    | auto => (c2, [])
    end in
  (c3, closing ++ notice ++ opening).

(** [checkAndSwitchArchitecture()] *)
Definition checkAndSwitchArchitecture (c : RTCClient) : RTCClient * list Effect :=
  match options_architectureMode c with
  | auto =>
    let threshold := orDefault (options_meshToSFUThreshold c) 10 in
    let shouldUseSFU := threshold <=? roomUserCount c in
    if shouldUseSFU && bool_decide (currentArchitectureMode c = mesh)
    then switchArchitecture sfu c
    else if negb shouldUseSFU && bool_decide (currentArchitectureMode c = sfu)
    then switchArchitecture mesh c
    else (c, [])
  | _ => (c, [])
  end.

Definition checkIfAuto (c : RTCClient) : RTCClient * list Effect :=
  match options_architectureMode c with
  | auto => checkAndSwitchArchitecture c
  | _ => (c, [])
  end.

(** The [room-joined] handler. *)
Definition onRoomJoined (d_roomId d_userId : string) (d_users : list string)
    (c : RTCClient) : RTCClient * list Effect :=
  let c1 := set_room c (Some d_roomId) (Some d_userId)
              (Z.of_nat (length d_users) + 1) in
  let '(c2, e2) := checkIfAuto c1 in
  if multiPeerMode c2 && bool_decide (currentArchitectureMode c2 = mesh)
  then fold_left createPeerConnectionForUser d_users (c2, e2)
  else (c2, e2).

(** The two [user-joined] handlers, in registration order; [stable] tells
    whether [this.peerConnection.signalingState] is "stable". *)
Definition onUserJoined (stable : bool) (c : RTCClient) : RTCClient * list Effect :=
  let e1 :=
    match peerConnection c with
    | Some _ => if stable then [CreateOffer] else []
    | None => []
    end in
  let c1 := set_room c (roomId c) (userId c) (roomUserCount c + 1) in
  let '(c2, e2) := checkIfAuto c1 in
  (c2, e1 ++ e2).

(** The two [user-left] handlers, in registration order. *)
Definition onUserLeft (d_userId : string) (c : RTCClient) : RTCClient * list Effect :=
  let '(c0, e0) :=
    if multiPeerMode c then removePeerConnectionForUser d_userId c else (c, []) in
  let c1 := set_room c0 (roomId c0) (userId c0) (Z.max 0 (roomUserCount c0 - 1)) in
  let '(c2, e2) := checkIfAuto c1 in
  (c2, e0 ++ e2).

(** The [architecture-mode] handler, for a notice that names a mode. *)
Definition onArchitectureMode (mode : ArchitectureMode) (c : RTCClient)
    : RTCClient * list Effect :=
  if decide (mode = currentArchitectureMode c) then (c, [])
  else switchArchitecture mode c.

(** Room-membership updates and what else moves the coordinator.  An
    [ArchitectureModeNotice] names its mode; a notice that carries none is
    not among the updates. *)
Inductive Update :=
  | RoomJoined (d_roomId d_userId : string) (d_users : list string)
  | UserJoined (stable : bool)
  | UserLeft (d_userId : string)
  | ArchitectureModeNotice (mode : ArchitectureMode).

Definition update (u : Update) (c : RTCClient) : RTCClient * list Effect :=
  match u with
  | RoomJoined r i us => onRoomJoined r i us c
  | UserJoined stable => onUserJoined stable c
  | UserLeft i => onUserLeft i c
  | ArchitectureModeNotice mode => onArchitectureMode mode c
  end.

Definition is_membership_update (u : Update) : bool :=
  match u with
  | ArchitectureModeNotice _ => false
  | _ => true
  end.

Definition updates (c : RTCClient) (us : list Update) : RTCClient :=
  fold_left (λ c u, fst (update u c)) us c.

(** The threshold named in the specification, "configured, default 10". *)
Definition configuredThreshold (o : RTCClientOptions) : Z :=
  default 10 (meshToSFUThreshold o).

(** The mode the specification prescribes for a count. *)
Definition mode_as_specified (threshold count : Z) : ArchitectureMode :=
  if threshold <=? count then sfu else mesh.

(** The coordinator follows the count for a given threshold. *)
Definition follows_count (threshold : Z) (c : RTCClient) : Prop :=
  currentArchitectureMode c = mode_as_specified threshold (roomUserCount c).

(** Automatic switching, as the specification words it:
    after a membership update the mode follows the count for the configured
    threshold. *)
Definition topology_as_specified (o : RTCClientOptions) (us : list Update)
    (u : Update) : Prop :=
  follows_count (configuredThreshold o)
    (fst (update u (updates (constructor o) us))).

(** The threshold [checkAndSwitchArchitecture] compares with. *)
Definition effectiveThreshold (o : RTCClientOptions) : Z :=
  orDefault (configuredThreshold o) 10.

(** Every update but a notice that names "auto" as the room's topology. *)
Definition names_topology (u : Update) : bool :=
  match u with
  | ArchitectureModeNotice auto => false
  | _ => true
  end.

(** Whether the effects reach out to the SFU endpoint. *)
Definition attemptsSfu (effs : list Effect) : bool :=
  existsb (λ e, match e with
                | SfuConnect | SfuPublish => true
                | _ => false
                end) effs.

Definition closesPeer (effs : list Effect) : bool :=
  existsb (λ e, match e with
                | ClosePeerConnection _ => true
                | _ => false
                end) effs.

(** "Without an SFU endpoint the room never promotes past mesh", as the
    specification words it. *)
Definition stays_mesh_as_specified (c : RTCClient) (u : Update) : Prop :=
  attemptsSfu (snd (update u c)) = false
  ∧ currentArchitectureMode (fst (update u c)) = mesh
  ∧ closesPeer (snd (update u c)) = false.

(** A client in auto mode with threshold 3 and no [sfuOptions], holding the
    mesh connection [joinRoom] set up; and the update that takes the room to
    three members. *)
Definition client_without_sfu : RTCClient :=
  fst (initializePeerConnection
         (constructor (mkOptions (Some auto) (Some 3) false))).

Definition third_member : Update := RoomJoined "r" "me" ["a"; "b"].

(** *** Duplicate suppression *)

(** [text.substring(0, n)].  A [string] holds the UTF-8 bytes of the
    JavaScript text, whose positions count UTF-16 code units: a character of
    one to three bytes is one unit, a character of four bytes is two, a
    surrogate pair.  [utf8Width] gives, for the byte that begins a
    character, its number of bytes and of units. *)
Definition utf8Width (b : ascii) : nat * nat :=
  let n := N_of_ascii b in
  if (n <? 192)%N then (1, 1)%nat
  else if (n <? 224)%N then (2, 1)%nat
  else if (n <? 240)%N then (3, 1)%nat
  else (4, 2)%nat.

(** The first unit of the pair that the four bytes [b0 b1 b2 _] encode,
    written as the three bytes of that lone surrogate: what is left of the
    character when the cut falls between its two units. *)
Definition highSurrogate (b0 b1 b2 : ascii) : string :=
  let top :=
    (N.land (N_of_ascii b0) 7 * 256 + N.land (N_of_ascii b1) 63 * 4
     + N.land (N_of_ascii b2) 63 / 16)%N in
  let unit := (55296 + top - 64)%N in
  String (ascii_of_N 237)
    (String (ascii_of_N (128 + N.land (unit / 64) 63))
       (String (ascii_of_N (128 + N.land unit 63)) EmptyString)).

(** [pending] counts the bytes still to copy of a character already paid
    for. *)
Fixpoint takeUnits (units pending : nat) (text : string) : string :=
  match text with
  | EmptyString => EmptyString
  | String b rest =>
    match pending with
    | S pending' => String b (takeUnits units pending' rest)
    | O =>
      let '(bytes, cost) := utf8Width b in
      if (cost <=? units)%nat
      then String b (takeUnits (units - cost) (bytes - 1) rest)
      else if (units =? 0)%nat then EmptyString
      else match rest with
           | String b1 (String b2 _) => highSurrogate b b1 b2
           | _ => EmptyString
           end
    end
  end.

Definition substringUnits (n : nat) (text : string) : string :=
  takeUnits n 0 text.

(** [getMessageId(message)]; a missing [type] prints as "undefined". *)
Definition getMessageId (message : SignalingMessage) : string :=
  let sdpHash :=
    if truthy_opt (msg_sdp message)
    then substringUnits 50 (default "" (msg_sdp message)) else "" in
  let candidateHash :=
    if truthy_opt (msg_candidate message)
    then substringUnits 50 (default "" (msg_candidate message)) else "" in
  let from := if truthy_opt (msg_from message)
              then default "" (msg_from message) else "" in
  (default "undefined" (msg_type message) ++ "-" ++ from ++ "-"
   ++ sdpHash ++ candidateHash)%string.

(** The part of [handleSignaling] after the SFU branch: the duplicate
    filter, then the dispatch to a peer connection. *)
Definition filterAndDispatch (message : SignalingMessage) (c : RTCClient)
    : RTCClient * list Effect :=
  let messageId := getMessageId message in
  if bool_decide (messageId ∈ processedSignalingIds c) then (c, [])
  else
    let added := {[messageId]} ∪ processedSignalingIds c in
    let ids := if (1000 <? Z.of_nat (size added)) then ∅ else added in
    let c1 := set_dedup c ids (stats_messagesReceived c + 1) (stats_errors c) in
    if multiPeerMode c1 && truthy_opt (msg_from message) then
      match peerConnections c1 !! default "" (msg_from message) with
      | None => (c1, [])
      | Some pc => (c1, [HandleSignalingForPeer pc message])
      end
    else
      match peerConnection c1 with
      | None => (c1, [])
      | Some pc => (c1, [HandleSignalingForPeer pc message])
      end.

(** [handleSignaling(message)].  Reading [type] off a message that has none
    raises inside the [try] block; the [catch] counts the error. *)
Definition handleSignaling (message : SignalingMessage) (c : RTCClient)
    : RTCClient * list Effect :=
  if bool_decide (currentArchitectureMode c = sfu) && sfuAdapter c then
    match msg_type message with
    | None =>
      (set_dedup c (processedSignalingIds c) (stats_messagesReceived c)
         (stats_errors c + 1),
       [EmitError])
    | Some ty =>
      if Server.startsWith "sfu-" ty || String.eqb ty "answer"
         || String.eqb ty "ice-candidate"
      then (c, [SfuHandleSignaling message])
      else filterAndDispatch message c
    end
  else filterAndDispatch message c.

(** Whether [handleSignaling] is done with the message before the
    duplicate filter: handed to the SFU adapter, or tripped on the missing
    type. *)
Definition bypassesFilter (message : SignalingMessage) (c : RTCClient) : bool :=
  bool_decide (currentArchitectureMode c = sfu) && sfuAdapter c
  && match msg_type message with
     | None => true
     | Some ty =>
       Server.startsWith "sfu-" ty || String.eqb ty "answer"
       || String.eqb ty "ice-candidate"
     end.

(** [cleanup()], as far as the duplicate filter goes. *)
Definition cleanup (c : RTCClient) : RTCClient :=
  set_dedup c ∅ (stats_messagesReceived c) (stats_errors c).

(** Whether [handleSignaling] lets the message through the duplicate
    filter, that is counts it in [messagesReceived]. *)
Definition processed (message : SignalingMessage) (c : RTCClient) : bool :=
  bool_decide (stats_messagesReceived (fst (handleSignaling message c))
               = stats_messagesReceived c + 1).

Definition handleAll (c : RTCClient) (ms : list SignalingMessage) : RTCClient :=
  fold_left (λ c m, fst (handleSignaling m c)) ms c.

(** How many of [ms], handled in order from [c], pass the filter. *)
Fixpoint countProcessed (c : RTCClient) (ms : list SignalingMessage) : nat :=
  match ms with
  | [] => 0%nat
  | m :: rest =>
    ((if processed m c then 1 else 0)
     + countProcessed (fst (handleSignaling m c)) rest)%nat
  end.

(** *** Quality adapter *)

Definition Qltb (x y : Q) : bool := negb (Qle_bool y x).

(** The [targetQuality] that [adjustMediaQuality] computes. *)
Definition targetQuality (n : NetworkStats) : Quality :=
  let q0 :=
    if Qltb (bandwidth n) (inject_Z 500000) then low
    else if Qltb (bandwidth n) (inject_Z 2000000) then medium
    else high in
  let q1 :=
    if Qltb (inject_Z 5) (packetLoss n) then low
    else if Qltb (inject_Z 2) (packetLoss n)
         then (if decide (q0 = high) then medium else low)
    else q0 in
  if Qltb (inject_Z 300) (rtt n) then low
  else if Qltb (inject_Z 150) (rtt n)
       then (if decide (q1 = high) then medium else low)
  else q1.

(** [adjustMediaQuality()] *)
Definition adjustMediaQuality (c : RTCClient) : RTCClient * list Effect :=
  if negb (localStream c) then (c, [])
  else
    let target := targetQuality (networkStats c) in
    if decide (target = currentQuality c) then (c, [])
    else (set_quality c target, [ApplyQualitySettings target]).

(** The tier as the specification words it: the bandwidth gives the
    starting tier, a moderate loss or delay takes one step off, a severe one
    takes the tier to the bottom. *)
Definition rank (q : Quality) : nat :=
  match q with
  | low => 0%nat
  | medium => 1%nat
  | high => 2%nat
  end.

Definition of_rank (r : nat) : Quality :=
  match r with
  | O => low
  | S O => medium
  | _ => high
  end.

Definition penalty (moderate severe : Z) (v : Q) : nat :=
  if Qltb (inject_Z severe) v then 2%nat
  else if Qltb (inject_Z moderate) v then 1%nat
  else 0%nat.

Definition tier_as_specified (bw loss delay : Q) : Quality :=
  let base :=
    if Qltb bw (inject_Z 500000) then 0%nat
    else if Qltb bw (inject_Z 2000000) then 1%nat
    else 2%nat in
  of_rank (base - penalty 150 300 delay - penalty 2 5 loss)%nat.

(** *** Network measurements

    One report of [pc.getStats()]: an absent number is [None]. *)
Inductive Report :=
  | InboundRtp (bytesReceived packetsLost packetsReceived : option Q)
  | CandidatePair (selected : bool) (currentRoundTripTime : option Q)
  | OtherReport.

(** [(x as number) || 0] *)
Definition orZero (x : option Q) : Q := default 0%Q x.

Record Totals := mkTotals {
  totalBytesReceived : Q;
  totalPacketsLost : Q;
  totalPackets : Q;
  measured_rtt : Q;
}.

Definition addReport (t : Totals) (report : Report) : Totals :=
  match report with
  | InboundRtp bytesReceived packetsLost packetsReceived =>
    mkTotals (totalBytesReceived t + orZero bytesReceived)%Q
      (totalPacketsLost t + orZero packetsLost)%Q
      (totalPackets t + orZero packetsReceived)%Q (measured_rtt t)
  | CandidatePair true currentRoundTripTime =>
    mkTotals (totalBytesReceived t) (totalPacketsLost t) (totalPackets t)
      (orZero currentRoundTripTime)
  | _ => t
  end.

Definition set_networkStats (c : RTCClient) (n : NetworkStats) : RTCClient :=
  mkClient (options_architectureMode c) (options_meshToSFUThreshold c)
    (sfuAdapter c) (currentArchitectureMode c) (roomUserCount c) (roomId c)
    (userId c) (multiPeerMode c) (peerConnection c) (peerConnections c)
    (localStream c) (nextConnection c) (processedSignalingIds c)
    (stats_messagesReceived c) (stats_errors c) (currentQuality c) n.

(** Whether [checkNetworkQuality] finds a connection to measure. *)
Definition hasMeasuredConnection (c : RTCClient) : bool :=
  match peerConnection c with
  | Some _ => true
  | None => multiPeerMode c && (0 <? Z.of_nat (size (peerConnections c)))
  end.

(** [checkNetworkQuality()]; [timestamp] is [Date.now()], [stats] the
    reports of [pc.getStats()], [None] when that call fails. *)
Definition checkNetworkQuality (timestamp : Z) (stats : option (list Report))
    (c : RTCClient) : RTCClient * list Effect :=
  if negb (hasMeasuredConnection c) then (c, []) else
  match stats with
  | None => (c, [])
  | Some reports =>
    let t := fold_left addReport reports (mkTotals 0 0 0 0)%Q in
    let old := networkStats c in
    let timeDiff := timestamp - lastUpdate old in
    let bandwidth1 :=
      if (0 <? timeDiff) && (0 <? lastUpdate old) then
        let bytesDiff :=
          (totalBytesReceived t
           - bandwidth old * (inject_Z (lastUpdate old) / inject_Z 1000))%Q in
        (bytesDiff * inject_Z 8 / (inject_Z timeDiff / inject_Z 1000))%Q
      else bandwidth old in
    let packetLoss1 :=
      if Qltb 0%Q (totalPackets t)
      then (totalPacketsLost t / totalPackets t * inject_Z 100)%Q
      else 0%Q in
    adjustMediaQuality
      (set_networkStats c
         (mkNetworkStats bandwidth1 packetLoss1 (measured_rtt t) timestamp))
  end.

End Client.

(** * Batching of local ICE candidates (src/client/client.ts,
      [collectIceCandidate], [scheduleIceCandidateSend], [sendSignaling])

    The fields of [RTCClient] these three methods read or write. *)

Module IceBatch.

Record RTCClient := mkClient {
  iceCandidates : gmap string (list string);
  iceCandidateTimers : gset string;
  roomId : option string;
  userId : option string;
  stats_messagesSent : Z;
}.

Inductive Effect :=
  | SocketEmit (message : SignalingMessage)
  | SetTimeout (userId : string) (delay : Z).

(** [sendSignaling(message)] *)
Definition sendSignaling (acc : RTCClient * list Effect)
    (message : SignalingMessage) : RTCClient * list Effect :=
  let '(c, effs) := acc in
  let message1 :=
    if truthy_opt (roomId c)
    then mkMsg (msg_type message) (msg_from message) (msg_to message)
           (roomId c) (msg_sdp message) (msg_candidate message)
           (msg_error message) (msg_architectureMode message)
    else message in
  let message2 :=
    if truthy_opt (userId c)
    then mkMsg (msg_type message1) (userId c) (msg_to message1)
           (msg_roomId message1) (msg_sdp message1) (msg_candidate message1)
           (msg_error message1) (msg_architectureMode message1)
    else message1 in
  (mkClient (iceCandidates c) (iceCandidateTimers c) (roomId c) (userId c)
     (stats_messagesSent c + 1),
   effs ++ [SocketEmit message2]).

(** [scheduleIceCandidateSend(userId)] *)
Definition scheduleIceCandidateSend (user : string) (c : RTCClient)
    : RTCClient * list Effect :=
  if decide (user ∈ iceCandidateTimers c) then (c, [])
  else
    (mkClient (iceCandidates c) ({[user]} ∪ iceCandidateTimers c) (roomId c)
       (userId c) (stats_messagesSent c),
     [SetTimeout user 100]).

(** [collectIceCandidate(userId, candidate)] *)
Definition collectIceCandidate (user candidate : string) (c : RTCClient)
    : RTCClient * list Effect :=
  let held := default [] (iceCandidates c !! user) in
  scheduleIceCandidateSend user
    (mkClient (<[user := held ++ [candidate]]> (iceCandidates c))
       (iceCandidateTimers c) (roomId c) (userId c) (stats_messagesSent c)).

(** The recipient a batch for [userId] is addressed to. *)
Definition recipient (user : string) : option string :=
  if decide (user = "default") then None else Some user.

Definition candidateMessage (user candidate : string) : SignalingMessage :=
  mkMsg (Some "ice-candidate") None (recipient user) None None
    (Some candidate) None None.

(** The timer armed by [scheduleIceCandidateSend(userId)] fires. *)
Definition sendBatch (user : string) (c : RTCClient) : RTCClient * list Effect :=
  let '(c1, effs) :=
    match iceCandidates c !! user with
    | Some (candidate :: rest) =>
      let '(c0, effs) :=
        fold_left sendSignaling
          (candidateMessage user <$> candidate :: rest) (c, []) in
      (mkClient (delete user (iceCandidates c0)) (iceCandidateTimers c0)
         (roomId c0) (userId c0) (stats_messagesSent c0),
       effs)
    | _ => (c, [])
    end in
  (mkClient (iceCandidates c1) (iceCandidateTimers c1 ∖ {[user]}) (roomId c1)
     (userId c1) (stats_messagesSent c1),
   effs).

Inductive Event :=
  | Candidate (user candidate : string)
  | TimerFires (user : string).

Definition handle (acc : RTCClient * list Effect) (e : Event)
    : RTCClient * list Effect :=
  let '(c, effs) := acc in
  let '(c1, e1) :=
    match e with
    | Candidate user candidate => collectIceCandidate user candidate c
    | TimerFires user => sendBatch user c
    end in
  (c1, effs ++ e1).

(** A client in the room [room] as [user], with nothing collected yet. *)
Definition joined (room user : option string) : RTCClient :=
  mkClient ∅ ∅ room user 0.

Definition run (room user : option string) (events : list Event)
    : RTCClient * list Effect :=
  fold_left handle events (joined room user, []).

(** The candidates gathered for [user], in order. *)
Definition gathered (user : string) (events : list Event) : list string :=
  omap (λ e, match e with
             | Candidate user' candidate =>
               if decide (user' = user) then Some candidate else None
             | TimerFires _ => None
             end) events.

(** The candidates put on the socket for [user], in order. *)
Definition emitted (user : string) (effs : list Effect) : list string :=
  omap (λ e, match e with
             | SocketEmit message =>
               if decide (msg_to message = recipient user)
               then msg_candidate message else None
             | SetTimeout _ _ => None
             end) effs.

(** The messages put on the socket, in order. *)
Definition sentMessages (effs : list Effect) : list SignalingMessage :=
  omap (λ e, match e with
             | SocketEmit message => Some message
             | SetTimeout _ _ => None
             end) effs.

(** What every sequence of collected candidates and fired timers keeps
    true. *)
Record batch_ok (events : list Event) (c : RTCClient) (effs : list Effect)
    : Prop := mkBatchOk {
  bok_conserved : ∀ user,
    emitted user effs ++ default [] (iceCandidates c !! user)
    = gathered user events;
  bok_timer : ∀ user,
    user ∈ iceCandidateTimers c ↔ is_Some (iceCandidates c !! user);
  bok_nonempty : ∀ user, iceCandidates c !! user ≠ Some [];
  bok_sent : stats_messagesSent c = Z.of_nat (length (sentMessages effs));
  bok_stamped : Forall (λ m,
      msg_type m = Some "ice-candidate"
      ∧ (truthy_opt (roomId c) = true → msg_roomId m = roomId c)
      ∧ (truthy_opt (userId c) = true → msg_from m = userId c))
    (sentMessages effs);
}.

End IceBatch.

(** * Event listeners of the client (src/client/client.ts, [on], [off],
      [emit])

    A callback is identified by a number; [emit] yields the callbacks it
    invokes, in order.  An exception of a callback is caught and logged, so
    the later callbacks are still invoked. *)

Module Events.

(** [on(event, callback)] *)
Definition on (event : string) (callback : nat)
    (eventListeners : gmap string (list nat)) : gmap string (list nat) :=
  let listeners := default [] (eventListeners !! event) in
  <[event := listeners ++ [callback]]> eventListeners.

(** [off(event, callback?)] *)
Definition off (event : string) (callback : option nat)
    (eventListeners : gmap string (list nat)) : gmap string (list nat) :=
  match callback with
  | None => delete event eventListeners
  | Some callback =>
    let listeners := default [] (eventListeners !! event) in
    let filtered := filter (λ cb, cb ≠ callback) listeners in
    if (length filtered =? 0)%nat then delete event eventListeners
    else <[event := filtered]> eventListeners
  end.

(** [emit(event, data)] *)
Definition emit (event : string) (eventListeners : gmap string (list nat))
    : list nat :=
  default [] (eventListeners !! event).

Inductive Call :=
  | On (event : string) (callback : nat)
  | Off (event : string) (callback : option nat).

Definition call (eventListeners : gmap string (list nat)) (c : Call)
    : gmap string (list nat) :=
  match c with
  | On event callback => on event callback eventListeners
  | Off event callback => off event callback eventListeners
  end.

Definition run (calls : list Call) : gmap string (list nat) :=
  fold_left call calls ∅.

End Events.

(** * The SFU adapter (src/client/sfu-adapter.ts, [SFUAdapter])

    Connections, streams and callbacks are identified by numbers.  The
    promise returned by [subscribe] is left out: of [subscribe] only the
    check and the request are kept, and [trackArrives] is what the handler
    it installs does with a stream. *)

Module Sfu.

Record SignalingMessage := mkMessage {
  msg_type : option string;
  msg_userId : option string;
  msg_streamId : option string;
  (** the description and the candidate, when the message carries the
      object *)
  msg_sdp : option string;
  msg_candidate : option string;
}.

(** What the adapter hands to its signaling handler. *)
Inductive Request :=
  | SfuConnect (sfuUrl : string)
  | SfuDisconnect
  | SfuPublish (sdp : string)
  | SfuSubscribe (userId : string)
  | SfuUnsubscribe (userId : string).

Inductive Effect :=
  | Signal (request : Request)
  | ClosePeerConnection (pc : nat)
  | StopTracks (stream : nat)
  | AddTracks (pc stream : nat)
  | CreateOffer (pc : nat)
  | SetLocalDescription (pc : nat) (sdp : string)
  | SetRemoteDescription (pc : nat) (sdp : string)
  | AddIceCandidate (pc : nat) (candidate : string)
  | Invoke (callback : nat) (event : string) (userId streamId : option string).

Record SFUAdapter := mkAdapter {
  sfuOptions_url : string;
  peerConnection : option nat;
  localStream : option nat;
  remoteStreams : gmap string nat;
  eventListeners : gmap string (list nat);
  connected : bool;
  (** whether [setSignalingHandler] was called *)
  signalingHandler : bool;
  (** the next object [new RTCPeerConnection] yields *)
  nextConnection : nat;
}.

Inductive Completion := Returned | Threw.

Definition constructor (url : string) : SFUAdapter :=
  mkAdapter url None None ∅ ∅ false false 0%nat.

Definition setSignalingHandler (a : SFUAdapter) : SFUAdapter :=
  mkAdapter (sfuOptions_url a) (peerConnection a) (localStream a)
    (remoteStreams a) (eventListeners a) (connected a) true (nextConnection a).

(** [this.signalingHandler(request)] when a handler is set. *)
Definition signal (a : SFUAdapter) (request : Request) : list Effect :=
  if signalingHandler a then [Signal request] else [].

(** [connect()]; [hasRTC] tells whether [RTCPeerConnection] exists, without
    it [new RTCPeerConnection] throws. *)
Definition connect (hasRTC : bool) (a : SFUAdapter)
    : SFUAdapter * list Effect * Completion :=
  if connected a then (a, [], Returned)
  else if negb hasRTC then (a, [], Threw)
  else
    let pc := nextConnection a in
    (mkAdapter (sfuOptions_url a) (Some pc) (localStream a) (remoteStreams a)
       (eventListeners a) true (signalingHandler a) (S pc),
     signal a (SfuConnect (sfuOptions_url a)),
     Returned).

(** [disconnect()]; the remote streams are stopped in the order the map
    yields them. *)
Definition disconnect (a : SFUAdapter) : SFUAdapter * list Effect :=
  if negb (connected a) then (a, [])
  else
    (mkAdapter (sfuOptions_url a) None None ∅ (eventListeners a) false
       (signalingHandler a) (nextConnection a),
     (StopTracks <$> (snd <$> map_to_list (remoteStreams a)))
     ++ match localStream a with
        | Some stream => [StopTracks stream]
        | None => []
        end
     ++ match peerConnection a with
        | Some pc => [ClosePeerConnection pc]
        | None => []
        end
     ++ signal a SfuDisconnect).

(** How the negotiation inside [publish] goes. *)
Inductive Negotiation :=
  | OfferFails
  | LocalDescriptionFails (sdp : string)
  | Negotiated (sdp : string).

(** [publish(stream)] *)
Definition publish (stream : nat) (negotiation : Negotiation) (a : SFUAdapter)
    : SFUAdapter * list Effect * Completion :=
  match peerConnection a with
  | None => (a, [], Threw)
  | Some pc =>
    if negb (connected a) then (a, [], Threw)
    else
      let a1 :=
        mkAdapter (sfuOptions_url a) (peerConnection a) (Some stream)
          (remoteStreams a) (eventListeners a) (connected a)
          (signalingHandler a) (nextConnection a) in
      match negotiation with
      | OfferFails => (a1, [AddTracks pc stream; CreateOffer pc], Threw)
      | LocalDescriptionFails sdp =>
        (a1, [AddTracks pc stream; CreateOffer pc; SetLocalDescription pc sdp],
         Threw)
      | Negotiated sdp =>
        (a1,
         [AddTracks pc stream; CreateOffer pc; SetLocalDescription pc sdp]
         ++ signal a1 (SfuPublish sdp),
         Returned)
      end
  end.

(** [subscribe(userId)], up to the request. *)
Definition subscribe (userId : string) (a : SFUAdapter)
    : SFUAdapter * list Effect * Completion :=
  match peerConnection a with
  | None => (a, [], Threw)
  | Some _ =>
    if negb (connected a) then (a, [], Threw)
    else (a, signal a (SfuSubscribe userId), Returned)
  end.

(** The handler installed by [subscribe(userId)] receives a stream. *)
Definition trackArrives (userId : string) (stream : nat) (a : SFUAdapter)
    : SFUAdapter :=
  mkAdapter (sfuOptions_url a) (peerConnection a) (localStream a)
    (<[userId := stream]> (remoteStreams a)) (eventListeners a) (connected a)
    (signalingHandler a) (nextConnection a).

(** [unsubscribe(userId)] *)
Definition unsubscribe (userId : string) (a : SFUAdapter)
    : SFUAdapter * list Effect :=
  if negb (connected a) then (a, [])
  else
    let '(streams, stopped) :=
      match remoteStreams a !! userId with
      | Some stream => (delete userId (remoteStreams a), [StopTracks stream])
      | None => (remoteStreams a, [])
      end in
    (mkAdapter (sfuOptions_url a) (peerConnection a) (localStream a) streams
       (eventListeners a) (connected a) (signalingHandler a)
       (nextConnection a),
     stopped ++ signal a (SfuUnsubscribe userId)).

(** [on(event, callback)] *)
Definition on (event : string) (callback : nat) (a : SFUAdapter) : SFUAdapter :=
  let listeners := default [] (eventListeners a !! event) in
  mkAdapter (sfuOptions_url a) (peerConnection a) (localStream a)
    (remoteStreams a) (<[event := listeners ++ [callback]]> (eventListeners a))
    (connected a) (signalingHandler a) (nextConnection a).

(** [listeners.splice(listeners.indexOf(callback), 1)] *)
Fixpoint removeFirst (callback : nat) (listeners : list nat) : list nat :=
  match listeners with
  | [] => []
  | cb :: rest =>
    if decide (cb = callback) then rest else cb :: removeFirst callback rest
  end.

(** [off(event, callback)] *)
Definition off (event : string) (callback : nat) (a : SFUAdapter) : SFUAdapter :=
  match eventListeners a !! event with
  | None => a
  | Some listeners =>
    mkAdapter (sfuOptions_url a) (peerConnection a) (localStream a)
      (remoteStreams a)
      (<[event := removeFirst callback listeners]> (eventListeners a))
      (connected a) (signalingHandler a) (nextConnection a)
  end.

(** [emit(event, data)], for the data [{ userId, streamId }] *)
Definition emit (event : string) (userId streamId : option string)
    (a : SFUAdapter) : list Effect :=
  (λ callback, Invoke callback event userId streamId)
  <$> default [] (eventListeners a !! event).

(** [handleSignaling(message)] *)
Definition handleSignaling (message : SignalingMessage) (a : SFUAdapter)
    : SFUAdapter * list Effect :=
  match peerConnection a with
  | None => (a, [])
  | Some pc =>
    if negb (connected a) then (a, [])
    else
      match msg_type message with
      | None => (a, [])
      | Some ty =>
        if String.eqb ty "sfu-stream-published" then
          (a, emit "stream" (msg_userId message) (msg_streamId message) a)
        else if String.eqb ty "sfu-stream-unpublished" then
          unsubscribe (if truthy_opt (msg_userId message)
                       then default "" (msg_userId message) else "") a
        else if String.eqb ty "answer" then
          (a, match msg_sdp message with
              | Some sdp => [SetRemoteDescription pc sdp]
              | None => []
              end)
        else if String.eqb ty "ice-candidate" then
          (a, match msg_candidate message with
              | Some candidate => [AddIceCandidate pc candidate]
              | None => []
              end)
        else (a, [])
      end
  end.

Inductive Call :=
  | SetSignalingHandler
  | Connect (hasRTC : bool)
  | Disconnect
  | Publish (stream : nat) (negotiation : Negotiation)
  | Subscribe (userId : string)
  | TrackArrives (userId : string) (stream : nat)
  | Unsubscribe (userId : string)
  | HandleSignaling (message : SignalingMessage)
  | On (event : string) (callback : nat)
  | Off (event : string) (callback : nat).

Definition call (a : SFUAdapter) (c : Call) : SFUAdapter * list Effect :=
  match c with
  | SetSignalingHandler => (setSignalingHandler a, [])
  | Connect hasRTC => (fst (fst (connect hasRTC a)), snd (fst (connect hasRTC a)))
  | Disconnect => disconnect a
  | Publish stream negotiation =>
    (fst (fst (publish stream negotiation a)),
     snd (fst (publish stream negotiation a)))
  | Subscribe userId =>
    (fst (fst (subscribe userId a)), snd (fst (subscribe userId a)))
  | TrackArrives userId stream => (trackArrives userId stream a, [])
  | Unsubscribe userId => unsubscribe userId a
  | HandleSignaling message => handleSignaling message a
  | On event callback => (on event callback a, [])
  | Off event callback => (off event callback a, [])
  end.

Definition run (url : string) (calls : list Call) : SFUAdapter :=
  fold_left (λ a c, fst (call a c)) calls (constructor url).

(** What every sequence of calls keeps true. *)
Record adapter_ok (a : SFUAdapter) : Prop := mkAdapterOk {
  aok_connected : connected a = true ↔ is_Some (peerConnection a);
  aok_local : is_Some (localStream a) → connected a = true;
  aok_fresh : ∀ pc, peerConnection a = Some pc → (pc < nextConnection a)%nat;
}.

(** [message.userId || ""] *)
Definition userIdOrEmpty (message : SignalingMessage) : string :=
  if truthy_opt (msg_userId message) then default "" (msg_userId message)
  else "".

End Sfu.

(** * The server's quality monitor (src/server/server.ts,
      [getNetworkQualitySuggestion])

    The average and the rate are kept as exact rationals. *)

Module Monitor.
Import Server.

Inductive NetworkQuality := good | fair | poor.

Record Suggestion := mkSuggestion {
  quality : NetworkQuality;
  suggested_averageLatency : Q;
  messageLossRate : Q;
  recommendation : string;
}.

(** [x > y] on numbers. *)
Definition Qgtb (x y : Q) : bool := negb (Qle_bool x y).

Definition getNetworkQualitySuggestion (s : SignalingServer) : Suggestion :=
  let avgLatency := averageLatency (stats s) in
  let totalMessages := messagesReceived (stats s) in
  let delayedMessages := messagesDelayed (stats s) in
  let messageLossRate :=
    if 0 <? totalMessages
    then (inject_Z delayedMessages / inject_Z totalMessages * inject_Z 100)%Q
    else 0%Q in
  if Qgtb avgLatency (inject_Z 200) || Qgtb messageLossRate (inject_Z 10)
  then mkSuggestion poor avgLatency messageLossRate
         "网络质量较差，建议降低媒体流质量（降低分辨率、帧率）"
  else if Qgtb avgLatency (inject_Z 100) || Qgtb messageLossRate (inject_Z 5)
  then mkSuggestion fair avgLatency messageLossRate
         "网络质量一般，建议适当降低媒体流质量或使用中等质量设置"
  else mkSuggestion good avgLatency messageLossRate
         "网络质量良好，可以保持当前媒体流质量".

(** The latency of every routed message in [inputs] is at most [bound]. *)
Definition latencies_within (bound : Z) (inputs : list Input) : Prop :=
  Forall (λ i, match i with
               | Signaling startTime endTime _ _ _ => endTime - startTime ≤ bound
               | _ => True
               end) inputs.

(** A server that has counted no delayed message and keeps no sample above
    100 ms. *)
Record calm (s : SignalingServer) : Prop := mkCalm {
  calm_delayed : messagesDelayed (stats s) = 0;
  calm_samples : Forall (λ x, x ≤ 100) (messageLatencies s);
}.

End Monitor.

(** * The server manager (src/server/server.ts, [WebRTCManager])

    A [SignalingServer] instance is identified by a number, its position in
    [constructed], the list of the configurations [new SignalingServer] was
    called with. *)

Module Manager.

Record SignalingServerOptions := mkServerOptions {
  port : option Z;
  host : option string;
  path : option string;
}.

Record WebRTCManager := mkManager {
  servers : gmap string nat;
  configs : gmap string SignalingServerOptions;
  defaultConfig : option SignalingServerOptions;
  constructed : list SignalingServerOptions;
}.

(** [new WebRTCManager({ defaultServerConfig })] *)
Definition constructor (defaultServerConfig : option SignalingServerOptions)
    : WebRTCManager :=
  mkManager ∅ ∅ defaultServerConfig [].

(** [registerServer(name, config)] *)
Definition registerServer (name : string) (config : SignalingServerOptions)
    (m : WebRTCManager) : WebRTCManager :=
  mkManager (servers m) (<[name := config]> (configs m)) (defaultConfig m)
    (constructed m).

(** [getServer(name)]; [None] is the thrown error. *)
Definition getServer (name : string) (m : WebRTCManager)
    : WebRTCManager * option nat :=
  match servers m !! name with
  | Some server => (m, Some server)
  | None =>
    let config :=
      match configs m !! name with
      | Some config => Some config
      | None => defaultConfig m
      end in
    match config with
    | None => (m, None)
    | Some config =>
      let server := length (constructed m) in
      (mkManager (<[name := server]> (servers m)) (configs m)
         (defaultConfig m) (constructed m ++ [config]),
       Some server)
    end
  end.

(** [hasServer(name)] *)
Definition hasServer (name : string) (m : WebRTCManager) : bool :=
  bool_decide (is_Some (servers m !! name))
  || bool_decide (is_Some (configs m !! name)).

(** [removeServer(name)]; the second component is the instance whose
    [close()] is called, if any. *)
Definition removeServer (name : string) (m : WebRTCManager)
    : WebRTCManager * option nat :=
  match servers m !! name with
  | Some server =>
    (mkManager (delete name (servers m)) (delete name (configs m))
       (defaultConfig m) (constructed m),
     Some server)
  | None =>
    (mkManager (servers m) (delete name (configs m)) (defaultConfig m)
       (constructed m),
     None)
  end.

(** [close()]; the second component holds the instances whose [close()] is
    called. *)
Definition close (m : WebRTCManager) : WebRTCManager * gset nat :=
  (mkManager ∅ (configs m) (defaultConfig m) (constructed m),
   map_img (servers m)).

Inductive Call :=
  | RegisterServer (name : string) (config : SignalingServerOptions)
  | GetServer (name : string)
  | RemoveServer (name : string)
  | Close.

Definition call (m : WebRTCManager) (c : Call) : WebRTCManager :=
  match c with
  | RegisterServer name config => registerServer name config m
  | GetServer name => fst (getServer name m)
  | RemoveServer name => fst (removeServer name m)
  | Close => fst (close m)
  end.

Definition run (defaultServerConfig : option SignalingServerOptions)
    (calls : list Call) : WebRTCManager :=
  fold_left call calls (constructor defaultServerConfig).

(** What every sequence of calls keeps true: a held instance was
    constructed by this manager, and no two names hold the same one. *)
Record manager_ok (m : WebRTCManager) : Prop := mkManagerOk {
  mok_fresh : ∀ name server, servers m !! name = Some server →
      (server < length (constructed m))%nat;
  mok_own : ∀ name1 name2 server,
      servers m !! name1 = Some server → servers m !! name2 = Some server →
      name1 = name2;
}.

End Manager.

(** * Properties *)

Lemma truthy_true (s : string) : truthy s = true ↔ s ≠ "".
Proof. destruct s; simpl; split; congruence. Qed.

Lemma truthy_false (s : string) : truthy s = false ↔ s = "".
Proof. destruct s; simpl; split; congruence. Qed.

(** ** The room/user registry *)

Section Registry.
Import Server.




Lemma getRoomUsers_in_room s r u :
  u ∈ getRoomUsers s r → ∃ room, rooms s !! r = Some room ∧ u ∈ room_users room.
Proof.
  unfold getRoomUsers. destruct (rooms s !! r) as [room|]; [eauto|].
  intros H. by apply elem_of_nil in H.
Qed.









Lemma elem_of_expected_members tr r u :
  u ∈ expected_members tr r ↔ (r, u) ∈ joined (expected_run tr).
Proof.
  unfold expected_members. rewrite elem_of_map. split.
  - intros ([r' u'] & -> & Hin). apply elem_of_filter in Hin as [Hr Hin].
    simpl in *. by subst.
  - intros Hin. exists (r, u). split; [done|]. by apply elem_of_filter.
Qed.









(** Why a socket must keep its user id: after a socket joined as "a", then
    as "b", and disconnected, "a" is still listed although the only socket
    it joined through is gone. *)
Example changing_id_strands_a_member :
  ¬ one_socket_per_user session_changed_id
  ∧ getRoomUsers (run session_changed_id) "r1" = ["a"]
  ∧ ¬ room_lists_as_specified session_changed_id.
Proof.
  split_and!.
  - apply (bool_decide_eq_false_1 _). vm_compute. reflexivity.
  - vm_compute. reflexivity.
  - intros H. destruct (H "r1") as [Hmem _].
    assert ("a" ∈ getRoomUsers (run session_changed_id) "r1")
      as Hin by (vm_compute; apply list_elem_of_here).
    apply Hmem in Hin as (sk & before & now & given & after & Htr & Hu & Hafter).
    unfold session_changed_id in Htr.
    destruct before as [|e1 [|e2 [|e3 [|? ?]]]]; simplify_eq/=.
    apply (Hafter (Disconnect "s1")).
    + apply list_elem_of_further, list_elem_of_here.
    + by right.
Qed.

(** Why a user id must not be shared: of two sockets that joined as "u",
    one leaves, and "u" is no longer listed although the other socket is
    still in the room. *)
Example shared_id_loses_a_member :
  ¬ one_socket_per_user session_shared_id
  ∧ getRoom (run session_shared_id) "r1" = None
  ∧ ¬ room_lists_as_specified session_shared_id.
Proof.
  split_and!.
  - apply (bool_decide_eq_false_1 _). vm_compute. reflexivity.
  - vm_compute. reflexivity.
  - intros H. destruct (H "r1") as [_ [Hnone _]].
    apply (Hnone eq_refl "u"). exists "s2".
    exists [JoinRoom 0 "s1" "r1" (Some "u")], 1, (Some "u"), [LeaveRoom "s1"].
    split_and!; [done|done|].
    intros e Hin. apply list_elem_of_singleton in Hin as ->.
    intros [[= ?]|?]; done.
Qed.



End Registry.

(** ** Leaving and disconnecting twice *)

Section Idempotence.
Import Server.

Lemma handleLeaveRoom_when_left sk u info rooms1 s :
  socketToUser s !! sk = Some u →
  truthy u = true →
  let s1 :=
    mkServer rooms1
      (<[u := mkUser (user_userId info) None false (user_joinedAt info)]>
         (users s))
      (socketToUser s) (delete u (userToSocket s)) (stats s)
      (messageLatencies s) (messageQueue s) (messageQueueTimers s) in
  handleLeaveRoom sk s1 = (s1, []).
Proof.
  intros Esk Et s1. unfold handleLeaveRoom. simpl.
  rewrite Esk, Et. simpl. by rewrite lookup_insert_eq.
Qed.

Lemma handleLeaveRoom_twice sk s :
  handleLeaveRoom sk (fst (handleLeaveRoom sk s))
  = (fst (handleLeaveRoom sk s), []).
Proof.
  destruct (handleLeaveRoom sk s) as [s1 effs] eqn:Eleave. simpl.
  revert Eleave. unfold handleLeaveRoom at 1.
  destruct (socketToUser s !! sk) as [u|] eqn:Esk; simpl;
    [|intros [= <- <-]; unfold handleLeaveRoom; by rewrite Esk].
  destruct (truthy u) eqn:Et; simpl;
    [|intros [= <- <-]; unfold handleLeaveRoom; by rewrite Esk, Et].
  destruct (users s !! u) as [info|] eqn:Eu;
    [|intros [= <- <-]; unfold handleLeaveRoom; by rewrite Esk, Et, Eu].
  destruct (user_roomId info) as [rid|] eqn:Erid; simpl;
    [|intros [= <- <-]; unfold handleLeaveRoom; rewrite Esk, Et; simpl;
      by rewrite Eu, Erid].
  destruct (truthy rid) eqn:Etr; simpl;
    [|intros [= <- <-]; unfold handleLeaveRoom; rewrite Esk, Et; simpl;
      rewrite Eu, Erid; simpl; by rewrite Etr].
  destruct (rooms s !! rid) as [room|]; [destruct (Nat.eqb _ _)|];
    intros [= <- <-]; by apply handleLeaveRoom_when_left.
Qed.

(** C7, amended.  Calling leave twice in a row produces no error and the
    second call changes nothing and notifies nobody.  Disconnect after leave
    produces no error, notifies nobody and leaves the rooms map as it was; it
    deletes the user's record and the socket-identity mappings, and nothing
    else.  A further disconnect changes nothing. *)
Theorem leave_twice_and_disconnect_after_leave sk s :
  let s1 := fst (handleLeaveRoom sk s) in
  let s2 := fst (handleDisconnect sk s1) in
  handleLeaveRoom sk s1 = (s1, [])
  ∧ snd (handleDisconnect sk s1) = []
  ∧ rooms s2 = rooms s1
  ∧ s2 = match socketToUser s1 !! sk with
         | Some u =>
           if truthy u
           then mkServer (rooms s1) (delete u (users s1))
                  (delete sk (socketToUser s1)) (delete u (userToSocket s1))
                  (stats s1) (messageLatencies s1) (messageQueue s1)
                  (messageQueueTimers s1)
           else s1
         | None => s1
         end
  ∧ handleDisconnect sk s2 = (s2, []).
Proof.
  intros s1 s2. pose proof (handleLeaveRoom_twice sk s) as Htwice.
  fold s1 in Htwice.
  assert (handleDisconnect sk s1
          = (match socketToUser s1 !! sk with
             | Some u =>
               if truthy u
               then mkServer (rooms s1) (delete u (users s1))
                      (delete sk (socketToUser s1)) (delete u (userToSocket s1))
                      (stats s1) (messageLatencies s1) (messageQueue s1)
                      (messageQueueTimers s1)
               else s1
             | None => s1
             end, [])) as Hd.
  { unfold handleDisconnect. rewrite Htwice.
    destruct (socketToUser s1 !! sk) as [u|]; [destruct (truthy u)|]; done. }
  subst s2. rewrite Hd. simpl. split_and!; try done.
  - destruct (socketToUser s1 !! sk) as [u|]; [destruct (truthy u)|]; done.
  - destruct (socketToUser s1 !! sk) as [u|] eqn:Esk;
      [destruct (truthy u) eqn:Et|]; unfold handleDisconnect; simpl.
    + by rewrite lookup_delete_eq.
    + by rewrite Esk, Et.
    + by rewrite Esk.
Qed.

(** C7 as worded fails: after join and leave, a disconnect removes the
    user's record, so the registry is not as it was after the leave. *)
Lemma disconnect_after_leave_counterexample :
  ¬ disconnect_after_leave_as_specified
      (run [JoinRoom 0 "s1" "r1" (Some "u")]) "s1".
Proof.
  unfold disconnect_after_leave_as_specified. intros H.
  apply (f_equal (λ s, users s !! "u")) in H.
  vm_compute in H. discriminate.
Qed.

End Idempotence.

(** ** The signaling router *)

Section Router.
Import Server.

(** C6.  A signaling message whose sender socket is not registered to any
    room is answered with an error-typed signaling message to that sender
    alone; nothing is unicast or broadcast, the server state is unchanged and
    the handler returns normally, whatever the message holds. *)
Theorem unregistered_sender_gets_error startTime endTime live sk message s :
  registeredRoom s sk = None →
  handleSignaling startTime endTime live sk message s
  = Returned s [Emit sk "signaling" (PSignaling notInRoomError)]
  ∧ msg_type notInRoomError = Some "error".
Proof.
  unfold registeredRoom, handleSignaling. intros Hreg. split; [|done].
  destruct (socketToUser s !! sk) as [u|]; [|done].
  destruct (truthy u); simpl; [|done].
  destruct (users s !! u) as [info|]; [|done].
  by rewrite Hreg.
Qed.

Lemma unregistered_sender_gets_error_witness :
  handleSignaling 5 6 ∅ "s9"
    (mkMsg (Some "offer") None (Some "u") None (Some "v=0") None None None)
    (run [JoinRoom 0 "s1" "r1" (Some "u")])
  = Returned (run [JoinRoom 0 "s1" "r1" (Some "u")])
      [Emit "s9" "signaling" (PSignaling notInRoomError)]
  ∧ msg_type notInRoomError = Some "error".
Proof.
  apply unregistered_sender_gets_error. vm_compute. reflexivity.
Defined.

Lemma sendMessage_keeps_counters live m sk r s :
  let s' := fst (sendMessage live m sk r s) in
  messagesReceived (stats s') = messagesReceived (stats s)
  ∧ messagesDelayed (stats s') = messagesDelayed (stats s)
  ∧ lastMessageTime (stats s') = lastMessageTime (stats s)
  ∧ messageLatencies s' = messageLatencies s.
Proof.
  unfold sendMessage. destruct (truthy_opt (msg_to m)).
  - by destruct (findSocketByUserId live s _).
  - simpl. by destruct (rooms s !! r).
Qed.

Lemma queueMessage_keeps_counters m r s :
  let s' := fst (queueMessage r m s) in
  stats s' = stats s ∧ messageLatencies s' = messageLatencies s.
Proof. unfold queueMessage. by case_decide. Qed.

(** C9.  A routed message of kind architecture-mode, or of a kind beginning
    with "sfu-", is broadcast to the sender's room and the handler returns
    with the server state, hence every statistic, untouched; a message of
    any other kind is counted once in [messagesReceived], adds one latency
    sample and is counted in [messagesDelayed] when that sample exceeds
    100. *)
Theorem topology_messages_skip_statistics
    startTime endTime live sk message s u info r ty :
  socketToUser s !! sk = Some u → u ≠ "" →
  users s !! u = Some info →
  user_roomId info = Some r → r ≠ "" →
  msg_type message = Some ty →
  (ty = "architecture-mode" →
     handleSignaling startTime endTime live sk message s
     = Returned s [Broadcast sk r "architecture-mode"
                     (PArchitectureMode (msg_architectureMode message) r)])
  ∧ (ty ≠ "architecture-mode" → startsWith "sfu-" ty = true →
     handleSignaling startTime endTime live sk message s
     = Returned s [Broadcast sk r "signaling"
                     (PSignaling (stamped message u r))])
  ∧ (ty ≠ "architecture-mode" → startsWith "sfu-" ty = false →
     ∃ s' effs,
       handleSignaling startTime endTime live sk message s = Returned s' effs
       ∧ messagesReceived (stats s') = messagesReceived (stats s) + 1
       ∧ messageLatencies s'
         = withSample (messageLatencies s) (endTime - startTime)
       ∧ messagesDelayed (stats s')
         = messagesDelayed (stats s)
           + (if 100 <? endTime - startTime then 1 else 0)).
Proof.
  intros Esk Hu Eu Er Hr Ety.
  apply truthy_true in Hu. apply truthy_true in Hr.
  unfold handleSignaling. rewrite Esk, Hu. simpl. rewrite Eu, Er, Hr, Ety.
  simpl. split_and!.
  - intros ->. done.
  - intros Hne Hsfu. apply String.eqb_neq in Hne. unfold stamped.
    by rewrite Hne, Hsfu, Ety.
  - intros Hne Hsfu. apply String.eqb_neq in Hne. rewrite Hne, Hsfu.
    set (s1 := with_stats s _).
    destruct (String.eqb ty "ice-candidate").
    + match goal with
      | |- context [queueMessage r ?m s1] =>
        pose proof (queueMessage_keeps_counters m r s1) as [Hst Hlat];
        destruct (queueMessage r m s1) as [s2 effs]
      end. simpl in *.
      eexists _, _. split; [done|]. unfold recordLatency. simpl.
      rewrite Hst, Hlat. simpl. split_and!; [done|done|].
      destruct (100 <? endTime - startTime); lia.
    + match goal with
      | |- context [sendMessage live ?m sk r s1] =>
        pose proof (sendMessage_keeps_counters live m sk r s1)
          as (Hrec & Hdel & _ & Hlat);
        destruct (sendMessage live m sk r s1) as [s2 effs]
      end. simpl in *.
      eexists _, _. split; [done|]. unfold recordLatency. simpl.
      rewrite Hrec, Hdel, Hlat. split_and!; [done|done|].
      destruct (100 <? endTime - startTime); lia.
Qed.


Lemma topology_messages_skip_statistics_witness :
  let s := run [JoinRoom 0 "s1" "r1" (Some "u")] in
  let message :=
    mkMsg (Some "sfu-publish") None None None None None None None in
  handleSignaling 5 6 ∅ "s1" message s
  = Returned s [Broadcast "s1" "r1" "signaling"
                  (PSignaling (stamped message "u" "r1"))].
Proof.
  intros s message.
  apply (topology_messages_skip_statistics 5 6 ∅ "s1" message s "u"
           (mkUser "u" (Some "r1") true (Some 0)) "r1" "sfu-publish");
    try (vm_compute; reflexivity); discriminate.
Defined.

End Router.

(** ** The connection pool *)

Section PoolProperties.
Import Pool.

Lemma pool_ok_empty : pool_ok empty.
Proof. split; simpl; first [done | set_solver]. Qed.

Lemma size_remove (X : gset nat) (pc : nat) :
  pc ∈ X → Z.of_nat (size (X ∖ {[pc]})) = Z.of_nat (size X) - 1.
Proof.
  intros Hin. assert (size X = size (X ∖ {[pc]}) + 1)%nat; [|lia].
  rewrite (union_difference_L {[pc]} X) at 1 by set_solver.
  rewrite size_union by set_solver. rewrite size_singleton. lia.
Qed.

Lemma size_add (X : gset nat) (pc : nat) :
  pc ∉ X → Z.of_nat (size ({[pc]} ∪ X)) = Z.of_nat (size X) + 1.
Proof.
  intros Hin. rewrite size_union by set_solver. rewrite size_singleton. lia.
Qed.

Lemma size_remove_le (X : gset nat) (pc : nat) :
  Z.of_nat (size (X ∖ {[pc]})) ≤ Z.of_nat (size X).
Proof. apply inj_le, subseteq_size. set_solver. Qed.

Lemma pool_ok_call p c : pool_ok p → pool_ok (call p c).
Proof.
  intros [Hact Hdis Hfresh Hcr]. destruct c as [hasRTC key|pc|pc| |pc]; simpl.
  - unfold acquire. destruct hasRTC; simpl; [|by split].
    assert (nextConnection p ∉ activeConnections p) as Hna.
    { intros Hin. assert (nextConnection p < nextConnection p)%nat; [|lia].
      apply Hfresh. set_solver. }
    assert (nextConnection p ∉ pendingClose p) as Hnp.
    { intros Hin. assert (nextConnection p < nextConnection p)%nat; [|lia].
      apply Hfresh. set_solver. }
    split; simpl.
    + done.
    + set_solver.
    + intros pc Hpc. destruct (decide (pc = nextConnection p)) as [->|Hne];
        [lia|]. assert (pc < nextConnection p)%nat; [|lia].
      apply Hfresh. set_solver.
    + rewrite size_add by done. lia.
  - unfold release. case_bool_decide as Hin; simpl; [|by split].
    assert (pc ∉ pendingClose p) as Hnp by set_solver.
    split; simpl.
    + done.
    + set_solver.
    + intros pc' Hpc'. apply Hfresh.
      destruct (decide (pc' = pc)) as [->|]; set_solver.
    + rewrite size_remove, size_add by done. lia.
  - unfold releaseImmediate. split; simpl.
    + done.
    + set_solver.
    + intros pc' Hpc'. apply Hfresh. set_solver.
    + pose proof (size_remove_le (activeConnections p) pc).
      pose proof (size_remove_le (pendingClose p) pc). lia.
  - split; simpl; first [done | set_solver].
  - unfold closeTimerFires. split; simpl.
    + done.
    + set_solver.
    + intros pc' Hpc'. apply Hfresh. set_solver.
    + pose proof (size_remove_le (pendingClose p) pc). lia.
Qed.

Lemma pool_ok_calls calls : ∀ p, pool_ok p → pool_ok (fold_left call calls p).
Proof.
  induction calls as [|c calls IH]; intros p Hp; simpl; [done|].
  by apply IH, pool_ok_call.
Qed.

(** Whatever the calls, [active] is the number of active connections,
    pending-close handles are not among them, and
    [active + pendingClose ≤ created]. *)
Lemma pool_active_and_pending_bounded calls :
  let p := run calls in
  snap_active (getStats p) = Z.of_nat (size (activeConnections p))
  ∧ activeConnections p ## pendingClose p
  ∧ snap_active (getStats p) + snap_pendingClose (getStats p)
    ≤ snap_created (getStats p).
Proof.
  intros p. destruct (pool_ok_calls calls empty pool_ok_empty)
    as [Hact Hdis _ Hcr]. fold (run calls) in *. fold p in Hact, Hdis, Hcr.
  unfold getStats. simpl. rewrite Hact. done.
Qed.

Lemma pool_balance_call p c :
  pool_ok p →
  created (stats p) - released (stats p) = active (stats p) →
  match c with
  | ReleaseImmediate pc => pc ∈ activeConnections p
  | _ => True
  end →
  created (stats (call p c)) - released (stats (call p c))
  = active (stats (call p c)).
Proof.
  intros [Hact _ Hfresh _] Hbal Hc.
  destruct c as [hasRTC key|pc|pc| |pc]; simpl; try done.
  - unfold acquire. destruct hasRTC; simpl; [|done].
    rewrite size_add; [lia|].
    intros Hin. assert (nextConnection p < nextConnection p)%nat; [|lia].
    apply Hfresh. set_solver.
  - unfold release. case_bool_decide as Hin; simpl; [|done].
    rewrite size_remove by done. lia.
  - rewrite size_remove by done. lia.
Qed.

(** When [releaseImmediate] is only handed active connections,
    [created − released = active] after every call. *)
Lemma pool_balance_calls calls : ∀ p,
  pool_ok p →
  created (stats p) - released (stats p) = active (stats p) →
  immediate_on_active p calls →
  created (stats (fold_left call calls p))
  - released (stats (fold_left call calls p))
  = active (stats (fold_left call calls p)).
Proof.
  induction calls as [|c calls IH]; intros p Hok Hbal Himm; simpl; [done|].
  destruct Himm as [Hc Himm].
  apply IH; [by apply pool_ok_call| |done]. by apply pool_balance_call.
Qed.

(** C2.  The code at the failing input: a connection released with
    [release] and then handed to [releaseImmediate] is counted twice in
    [released], so [created − released] is -1 while [active] is 0. *)
Theorem releaseImmediate_counts_released_twice :
  getStats (run [Acquire true "k"; Release 0; ReleaseImmediate 0])
  = mkSnapshot 1 2 0 0 1
  ∧ ¬ invariant_as_specified
        (getStats (run [Acquire true "k"; Release 0; ReleaseImmediate 0])).
Proof.
  assert (getStats (run [Acquire true "k"; Release 0; ReleaseImmediate 0])
          = mkSnapshot 1 2 0 0 1) as -> by (vm_compute; reflexivity).
  split; [done|]. unfold invariant_as_specified. simpl. lia.
Qed.

End PoolProperties.

(** ** The topology coordinator *)

Section Topology.
Import Client.

Lemma switchArchitecture_fields mode c :
  let c' := fst (switchArchitecture mode c) in
  currentArchitectureMode c' = mode
  ∧ options_architectureMode c' = options_architectureMode c
  ∧ options_meshToSFUThreshold c' = options_meshToSFUThreshold c
  ∧ roomUserCount c' = roomUserCount c
  ∧ sfuAdapter c' = sfuAdapter c
  ∧ multiPeerMode c' = multiPeerMode c.
Proof.
  unfold switchArchitecture. case_decide as Hm; simpl; [done|].
  destruct (currentArchitectureMode c); simpl;
    destruct mode; simpl; try done;
    repeat match goal with
           | |- context [if ?b then _ else _] => destruct b; simpl
           end; done.
Qed.

(** What [checkAndSwitchArchitecture] leaves: the mode the count calls
    for, unless the current mode is neither mesh nor sfu. *)
Lemma checkAndSwitchArchitecture_fields c :
  options_architectureMode c = auto →
  let c' := fst (checkAndSwitchArchitecture c) in
  currentArchitectureMode c'
  = (if decide (currentArchitectureMode c = auto) then auto
     else mode_as_specified (orDefault (options_meshToSFUThreshold c) 10)
            (roomUserCount c))
  ∧ options_architectureMode c' = options_architectureMode c
  ∧ options_meshToSFUThreshold c' = options_meshToSFUThreshold c
  ∧ roomUserCount c' = roomUserCount c
  ∧ sfuAdapter c' = sfuAdapter c
  ∧ multiPeerMode c' = multiPeerMode c.
Proof.
  intros Hauto. unfold checkAndSwitchArchitecture, mode_as_specified.
  rewrite Hauto.
  destruct (orDefault _ 10 <=? roomUserCount c); simpl;
    destruct (currentArchitectureMode c) eqn:Ecur; simpl;
    try (by rewrite Ecur);
    match goal with
    | |- context [switchArchitecture ?m c] =>
      pose proof (switchArchitecture_fields m c) as H; simpl in H;
      rewrite Hauto in H; exact H
    end.
Qed.

Lemma checkIfAuto_eq c :
  options_architectureMode c = auto →
  checkIfAuto c = checkAndSwitchArchitecture c.
Proof. unfold checkIfAuto. by intros ->. Qed.

Lemma createPeerConnections_fields users : ∀ c effs,
  let c' := fst (fold_left createPeerConnectionForUser users (c, effs)) in
  currentArchitectureMode c' = currentArchitectureMode c
  ∧ options_architectureMode c' = options_architectureMode c
  ∧ options_meshToSFUThreshold c' = options_meshToSFUThreshold c
  ∧ roomUserCount c' = roomUserCount c
  ∧ sfuAdapter c' = sfuAdapter c.
Proof.
  induction users as [|u users IH]; intros c effs; simpl; [done|].
  destruct (peerConnections c !! u); [apply IH|].
  specialize (IH (set_topology c (currentArchitectureMode c) (peerConnection c)
                    (<[u := nextConnection c]> (peerConnections c))
                    (S (nextConnection c)))
                 (effs ++ [AcquirePeerConnection (nextConnection c);
                           CreateOfferForUser u (nextConnection c)])).
  exact IH.
Qed.

(** A membership update under auto mode leaves the mode the new count
    calls for, and keeps the configuration. *)
Lemma membership_update_fields u c :
  is_membership_update u = true →
  options_architectureMode c = auto →
  currentArchitectureMode c ≠ auto →
  let c' := fst (update u c) in
  follows_count (orDefault (options_meshToSFUThreshold c) 10) c'
  ∧ options_architectureMode c' = auto
  ∧ options_meshToSFUThreshold c' = options_meshToSFUThreshold c
  ∧ currentArchitectureMode c' ≠ auto.
Proof.
  intros Hu Hauto Hcur.
  assert (∀ c1, options_architectureMode c1 = auto →
                options_meshToSFUThreshold c1 = options_meshToSFUThreshold c →
                currentArchitectureMode c1 = currentArchitectureMode c →
                let c2 := fst (checkIfAuto c1) in
                follows_count (orDefault (options_meshToSFUThreshold c) 10) c2
                ∧ options_architectureMode c2 = auto
                ∧ options_meshToSFUThreshold c2 = options_meshToSFUThreshold c
                ∧ currentArchitectureMode c2 ≠ auto) as Hcheck.
  { intros c1 H1 H2 H3 c2. subst c2. rewrite checkIfAuto_eq by done.
    destruct (checkAndSwitchArchitecture_fields c1 H1) as (Hm & Ho & Ht & Hc & _).
    rewrite H3 in Hm. rewrite decide_False in Hm by done.
    unfold follows_count. rewrite Hm, Hc, Ho, Ht, H1, H2.
    split_and!; try done. unfold mode_as_specified. by case_match. }
  destruct u as [r i us|stable|i|mode]; simpl in *; try done.
  - unfold onRoomJoined.
    set (c1 := set_room c (Some r) (Some i) (Z.of_nat (length us) + 1)).
    destruct (Hcheck c1) as (Hf & Ho & Ht & Hc); try done.
    destruct (checkIfAuto c1) as [c2 e2]. simpl in *.
    destruct (multiPeerMode c2 && bool_decide (currentArchitectureMode c2 = mesh));
      [|done].
    destruct (createPeerConnections_fields us c2 e2) as (H1 & H2 & H3 & H4 & _).
    unfold follows_count in *. by rewrite H1, H2, H3, H4.
  - unfold onUserJoined.
    set (c1 := set_room c (roomId c) (userId c) (roomUserCount c + 1)).
    destruct (Hcheck c1) as (Hf & Ho & Ht & Hc); try done.
    by destruct (checkIfAuto c1) as [c2 e2].
  - unfold onUserLeft.
    assert (∃ c0 e0, (if multiPeerMode c
                      then removePeerConnectionForUser i c else (c, []))
                     = (c0, e0)
            ∧ options_architectureMode c0 = auto
            ∧ options_meshToSFUThreshold c0 = options_meshToSFUThreshold c
            ∧ currentArchitectureMode c0 = currentArchitectureMode c)
      as (c0 & e0 & -> & Ho0 & Ht0 & Hc0).
    { destruct (multiPeerMode c); [|by eexists _, _].
      unfold removePeerConnectionForUser.
      destruct (peerConnections c !! i); by eexists _, _. }
    set (c1 := set_room c0 (roomId c0) (userId c0)
                 (Z.max 0 (roomUserCount c0 - 1))).
    destruct (Hcheck c1) as (Hf & Ho & Ht & Hc); try done.
    by destruct (checkIfAuto c1) as [c2 e2].
Qed.

Lemma onArchitectureMode_fields mode c :
  mode ≠ auto →
  currentArchitectureMode c ≠ auto →
  let c' := fst (onArchitectureMode mode c) in
  options_architectureMode c' = options_architectureMode c
  ∧ options_meshToSFUThreshold c' = options_meshToSFUThreshold c
  ∧ currentArchitectureMode c' ≠ auto.
Proof.
  intros Hm Hc. unfold onArchitectureMode. case_decide; simpl; [done|].
  destruct (switchArchitecture_fields mode c) as (H1 & H2 & H3 & _).
  by rewrite H1, H2, H3.
Qed.

Lemma updates_keep_coordinating us : ∀ c,
  options_architectureMode c = auto →
  currentArchitectureMode c ≠ auto →
  forallb names_topology us = true →
  options_architectureMode (updates c us) = auto
  ∧ options_meshToSFUThreshold (updates c us) = options_meshToSFUThreshold c
  ∧ currentArchitectureMode (updates c us) ≠ auto.
Proof.
  induction us as [|u us IH]; intros c Ho Hc Hus; simpl; [done|].
  simpl in Hus. apply andb_true_iff in Hus as [Hu Hus].
  destruct (is_membership_update u) eqn:Em.
  - destruct (membership_update_fields u c Em Ho Hc) as (_ & H1 & H2 & H3).
    destruct (IH (fst (update u c)) H1 H3 Hus) as (? & ? & ?).
    split_and!; try done. congruence.
  - destruct u as [| | |mode]; try done. simpl.
    assert (mode ≠ auto) as Hmode by (by destruct mode).
    destruct (onArchitectureMode_fields mode c Hmode Hc) as (H1 & H2 & H3).
    destruct (IH (fst (onArchitectureMode mode c))) as (? & ? & ?);
      [congruence|done|done|].
    split_and!; try done. congruence.
Qed.


Lemma constructor_auto o :
  default auto (architectureMode o) = auto →
  options_architectureMode (constructor o) = auto
  ∧ options_meshToSFUThreshold (constructor o) = configuredThreshold o
  ∧ currentArchitectureMode (constructor o) = mesh.
Proof.
  intros Hauto. unfold constructor, configuredThreshold. simpl.
  rewrite Hauto. split_and!; try done; by destruct (meshToSFUThreshold o).
Qed.

(** What the coordinator does keep.  With the configured mode auto, after
    every room-membership update (room-joined, user-joined, user-left) the
    current mode is sfu if the room user count is at least the threshold in
    force, and mesh otherwise, where the threshold in force is the
    configured meshToSFUThreshold, or 10 when none or 0 is configured; this
    holds as long as every architecture-mode notice received named mesh or
    sfu.  Re-evaluation when the mode already matches the count changes
    nothing and emits nothing. *)
Theorem mode_follows_room_count o us u :
  default auto (architectureMode o) = auto →
  forallb names_topology us = true →
  is_membership_update u = true →
  follows_count (effectiveThreshold o)
    (fst (update u (updates (constructor o) us)))
  ∧ (∀ c, options_architectureMode c = auto →
          follows_count (orDefault (options_meshToSFUThreshold c) 10) c →
          checkAndSwitchArchitecture c = (c, [])).
Proof.
  intros Hauto Hus Hu. split.
  - destruct (constructor_auto o Hauto) as (Ho & Ht & Hc).
    destruct (updates_keep_coordinating us (constructor o)) as (Ho' & Ht' & Hc');
      [done|by rewrite Hc|done|].
    destruct (membership_update_fields u _ Hu Ho' Hc') as (Hf & _).
    unfold effectiveThreshold. by rewrite <- Ht, <- Ht'.
  - intros c Ho Hf. unfold checkAndSwitchArchitecture. rewrite Ho.
    unfold follows_count, mode_as_specified in Hf.
    destruct (orDefault _ 10 <=? roomUserCount c); rewrite Hf; done.
Qed.

(** Scenario D: threshold 3, the count reaches 3 and the mode becomes
    sfu. *)
Lemma mode_follows_room_count_witness :
  currentArchitectureMode
    (fst (update (UserJoined false)
            (updates (constructor (mkOptions (Some auto) (Some 3) true))
               [RoomJoined "r" "me" ["a"]])))
  = sfu.
Proof.
  apply (mode_follows_room_count (mkOptions (Some auto) (Some 3) true)
           [RoomJoined "r" "me" ["a"]] (UserJoined false));
    reflexivity.
Defined.

(** Scenario D, continued: the count drops to 2 and the mode is mesh
    again. *)
Example scenario_D_back_to_mesh :
  currentArchitectureMode
    (updates (constructor (mkOptions (Some auto) (Some 3) true))
       [RoomJoined "r" "me" ["a"]; UserJoined false; UserLeft "a"])
  = mesh.
Proof. vm_compute. reflexivity. Qed.

(** With a configured threshold of 0 the specified mode is not reached,
    with or without an SFU endpoint. *)
Lemma mode_follows_room_count_counterexample :
  ¬ topology_as_specified (mkOptions (Some auto) (Some 0) false) []
      (RoomJoined "r" "me" []).
Proof.
  unfold topology_as_specified, follows_count. vm_compute. discriminate.
Qed.

(** C4.  The code at the failing input: a client configured with mode auto,
    an SFU endpoint and meshToSFUThreshold 0 that learns it is alone in its
    room has a room count of 1, which is at least its configured threshold,
    yet it stays on mesh and announces nothing, where the same update under
    a configured threshold of 1 switches to sfu.  The check replaces a
    configured 0 by 10: with that configuration a client on mesh stays on
    mesh for every count below 10. *)
Theorem configured_zero_threshold_is_replaced_by_ten :
  let o := mkOptions (Some auto) (Some 0) true in
  let joined := RoomJoined "r" "me" [] in
  let c := fst (update joined (constructor o)) in
  options_meshToSFUThreshold (constructor o) = 0
  ∧ configuredThreshold o = 0
  ∧ roomUserCount c = 1
  ∧ mode_as_specified (configuredThreshold o) (roomUserCount c) = sfu
  ∧ currentArchitectureMode c = mesh
  ∧ snd (update joined (constructor o)) = []
  ∧ ¬ topology_as_specified o [] joined
  ∧ currentArchitectureMode
      (fst (update joined (constructor (mkOptions (Some auto) (Some 1) true))))
    = sfu
  ∧ (∀ c', options_architectureMode c' = auto →
           options_meshToSFUThreshold c' = 0 →
           currentArchitectureMode c' = mesh →
           roomUserCount c' < 10 →
           checkAndSwitchArchitecture c' = (c', [])).
Proof.
  split_and!; try (vm_compute; reflexivity).
  - unfold topology_as_specified, follows_count. vm_compute. discriminate.
  - intros c' Ho Ht Hc Hn. unfold checkAndSwitchArchitecture.
    rewrite Ho, Ht, Hc.
    change (orDefault 0 10) with 10.
    assert ((10 <=? roomUserCount c') = false) as -> by (apply Z.leb_gt; lia).
    done.
Qed.

Lemma attemptsSfu_app effs1 effs2 :
  attemptsSfu (effs1 ++ effs2) = attemptsSfu effs1 || attemptsSfu effs2.
Proof. apply existsb_app. Qed.

Lemma attemptsSfu_close pcs :
  attemptsSfu (ClosePeerConnection <$> pcs) = false.
Proof. by induction pcs. Qed.

Lemma switchArchitecture_no_sfu mode c :
  sfuAdapter c = false →
  attemptsSfu (snd (switchArchitecture mode c)) = false
  ∧ sfuAdapter (fst (switchArchitecture mode c)) = false.
Proof.
  intros Hno. unfold switchArchitecture, initializePeerConnection.
  case_decide; simpl; [done|].
  destruct (currentArchitectureMode c), mode; simpl; try done;
    rewrite ?Hno; simpl;
    destruct (truthy_opt (roomId c)); simpl;
    rewrite ?attemptsSfu_app, ?attemptsSfu_close; simpl;
    destruct (peerConnection c); simpl; done.
Qed.

Lemma createPeerConnections_no_sfu users : ∀ c effs,
  attemptsSfu
    (snd (fold_left createPeerConnectionForUser users (c, effs)))
  = attemptsSfu effs.
Proof.
  induction users as [|u users IH]; intros c effs; simpl; [done|].
  destruct (peerConnections c !! u); [apply IH|].
  rewrite IH, attemptsSfu_app. simpl. by rewrite orb_false_r.
Qed.

Lemma checkIfAuto_no_sfu c :
  sfuAdapter c = false →
  attemptsSfu (snd (checkIfAuto c)) = false.
Proof.
  intros Hno. unfold checkIfAuto, checkAndSwitchArchitecture.
  destruct (options_architectureMode c); try done.
  repeat case_match; try done; by apply switchArchitecture_no_sfu.
Qed.

(** Without an SFU adapter no update reaches out to an SFU endpoint. *)
Lemma no_adapter_no_sfu_connection u c :
  sfuAdapter c = false →
  attemptsSfu (snd (update u c)) = false.
Proof.
  intros Hno. destruct u as [r i us|stable|i|mode]; simpl.
  - unfold onRoomJoined.
    pose proof (checkIfAuto_no_sfu
                  (set_room c (Some r) (Some i) (Z.of_nat (length us) + 1)) Hno)
      as Hc.
    destruct (checkIfAuto _) as [c2 e2]. simpl in Hc.
    case_match; [|done]. by rewrite createPeerConnections_no_sfu.
  - unfold onUserJoined.
    pose proof (checkIfAuto_no_sfu
                  (set_room c (roomId c) (userId c) (roomUserCount c + 1)) Hno)
      as Hc.
    destruct (checkIfAuto _) as [c2 e2]. simpl in *.
    rewrite attemptsSfu_app, Hc. by repeat case_match.
  - unfold onUserLeft.
    assert (∃ c0 e0, (if multiPeerMode c
                      then removePeerConnectionForUser i c else (c, []))
                     = (c0, e0)
            ∧ sfuAdapter c0 = false ∧ attemptsSfu e0 = false)
      as (c0 & e0 & -> & Hno0 & He0).
    { destruct (multiPeerMode c); [|by eexists _, _].
      unfold removePeerConnectionForUser.
      destruct (peerConnections c !! i); by eexists _, _. }
    pose proof (checkIfAuto_no_sfu
                  (set_room c0 (roomId c0) (userId c0)
                     (Z.max 0 (roomUserCount c0 - 1))) Hno0) as Hc.
    destruct (checkIfAuto _) as [c2 e2]. simpl in *.
    by rewrite attemptsSfu_app, He0, Hc.
  - unfold onArchitectureMode. case_decide; [done|].
    by apply switchArchitecture_no_sfu.
Qed.

(** C8.  The code at the failing input: in auto mode with threshold 3 and
    no SFU options, the update that brings the room to three members closes
    the mesh connection, announces the sfu mode and leaves the current mode
    at sfu; only the connection attempt to the SFU endpoint is left out. *)
Theorem threshold_crossing_without_sfu_leaves_mesh :
  sfuAdapter client_without_sfu = false
  ∧ peerConnection client_without_sfu = Some 0%nat
  ∧ snd (update third_member client_without_sfu)
    = [ClosePeerConnection 0;
       EmitSignaling (architectureModeMessage sfu (Some "r"))]
  ∧ currentArchitectureMode (fst (update third_member client_without_sfu))
    = sfu
  ∧ peerConnection (fst (update third_member client_without_sfu)) = None
  ∧ ¬ stays_mesh_as_specified client_without_sfu third_member.
Proof.
  split_and!; try (vm_compute; reflexivity).
  intros (_ & Hmode & _). vm_compute in Hmode. discriminate.
Qed.

End Topology.

(** ** The quality adapter *)

Section QualityAdapter.
Import Client.

Lemma Qltb_lt (x y : Q) : Qltb x y = true ↔ (x < y)%Q.
Proof.
  unfold Qltb. rewrite negb_true_iff. split.
  - intros H. apply Qnot_le_lt. intros Hle.
    apply Qle_bool_iff in Hle. congruence.
  - intros H. destruct (Qle_bool y x) eqn:E; [|done].
    apply Qle_bool_iff in E. by apply Qlt_not_le in H.
Qed.

Lemma targetQuality_as_specified n :
  targetQuality n
  = tier_as_specified (bandwidth n) (packetLoss n) (rtt n).
Proof.
  unfold targetQuality, tier_as_specified, penalty.
  destruct (Qltb (bandwidth n) (inject_Z 500000));
    [|destruct (Qltb (bandwidth n) (inject_Z 2000000))];
    (destruct (Qltb (inject_Z 5) (packetLoss n));
       [|destruct (Qltb (inject_Z 2) (packetLoss n))]);
    (destruct (Qltb (inject_Z 300) (rtt n));
       [|destruct (Qltb (inject_Z 150) (rtt n))]);
    reflexivity.
Qed.

(** C5.  The tier [adjustMediaQuality] settles on is a function of the
    latest sample alone: the bandwidth gives high, medium (below 2000000)
    or low (below 500000); a loss above 2 or an rtt above 150 each take one
    step off; a loss above 5 or an rtt above 300 give low.  The client's
    current tier becomes that value whenever a local stream is present
    (without one the adapter does nothing).  For rtt 400, loss 1, bandwidth
    3000000 the tier is low. *)
Theorem quality_tier_is_function_of_sample :
  (∀ n, targetQuality n
        = tier_as_specified (bandwidth n) (packetLoss n) (rtt n)
        ∧ ((inject_Z 300 < rtt n)%Q → targetQuality n = low)
        ∧ ((inject_Z 5 < packetLoss n)%Q → targetQuality n = low)
        ∧ ((bandwidth n < inject_Z 500000)%Q → targetQuality n = low)
        ∧ (¬ (inject_Z 150 < rtt n)%Q → ¬ (inject_Z 2 < packetLoss n)%Q →
           targetQuality n
           = if Qltb (bandwidth n) (inject_Z 500000) then low
             else if Qltb (bandwidth n) (inject_Z 2000000) then medium
             else high))
  ∧ (∀ c, currentQuality (fst (adjustMediaQuality c))
          = if localStream c
            then tier_as_specified (bandwidth (networkStats c))
                   (packetLoss (networkStats c)) (rtt (networkStats c))
            else currentQuality c)
  ∧ (∀ t, targetQuality
            (mkNetworkStats (inject_Z 3000000) (inject_Z 1) (inject_Z 400) t)
          = low).
Proof.
  split_and!.
  - intros n. split; [apply targetQuality_as_specified|]. split_and!.
    + intros H. apply Qltb_lt in H. unfold targetQuality. by rewrite H.
    + intros H. apply Qltb_lt in H. unfold targetQuality. rewrite H.
      by repeat case_match.
    + intros H. apply Qltb_lt in H. unfold targetQuality. rewrite H.
      by repeat case_match.
    + intros Hr Hl. unfold targetQuality.
      destruct (Qltb (inject_Z 150) (rtt n)) eqn:E1;
        [by apply Qltb_lt in E1|].
      destruct (Qltb (inject_Z 2) (packetLoss n)) eqn:E2;
        [by apply Qltb_lt in E2|].
      destruct (Qltb (inject_Z 300) (rtt n)) eqn:E3.
      { apply Qltb_lt in E3. exfalso. apply Hr.
        eapply Qlt_trans; [|exact E3]. reflexivity. }
      destruct (Qltb (inject_Z 5) (packetLoss n)) eqn:E4.
      { apply Qltb_lt in E4. exfalso. apply Hl.
        eapply Qlt_trans; [|exact E4]. reflexivity. }
      done.
  - intros c. unfold adjustMediaQuality.
    destruct (localStream c); simpl; [|done].
    rewrite <- targetQuality_as_specified. by case_decide.
  - intros t. reflexivity.
Qed.

End QualityAdapter.

(** ** The duplicate filter *)

Section DuplicateFilter.
Import Client.

Local Abbreviation ids := processedSignalingIds.

(** The set after a new id went in: emptied once it holds more than 1000. *)
Lemma filterAndDispatch_new m c :
  getMessageId m ∉ ids c →
  let c' := fst (filterAndDispatch m c) in
  ids c' = (if decide (size (ids c) < 1000)%nat
            then {[getMessageId m]} ∪ ids c else ∅)
  ∧ stats_messagesReceived c' = stats_messagesReceived c + 1
  ∧ currentArchitectureMode c' = currentArchitectureMode c
  ∧ sfuAdapter c' = sfuAdapter c.
Proof.
  intros Hnew. unfold filterAndDispatch.
  rewrite bool_decide_eq_false_2 by done.
  rewrite size_union by set_solver. rewrite size_singleton.
  assert ((1000 <? Z.of_nat (1 + size (ids c)))
          = negb (bool_decide (size (ids c) < 1000)%nat)) as ->.
  { case_bool_decide; simpl; [apply Z.ltb_ge|apply Z.ltb_lt]; lia. }
  destruct (decide (size (ids c) < 1000)%nat) as [Hlt|Hge].
  - rewrite bool_decide_eq_true_2 by done. simpl. by repeat case_match.
  - rewrite bool_decide_eq_false_2 by done. simpl. by repeat case_match.
Qed.

Lemma filterAndDispatch_duplicate m c :
  getMessageId m ∈ ids c → filterAndDispatch m c = (c, []).
Proof.
  intros Hdup. unfold filterAndDispatch. by rewrite bool_decide_eq_true_2.
Qed.

Lemma handleSignaling_bypass m c :
  bypassesFilter m c = true →
  let c' := fst (handleSignaling m c) in
  ids c' = ids c
  ∧ stats_messagesReceived c' = stats_messagesReceived c
  ∧ currentArchitectureMode c' = currentArchitectureMode c
  ∧ sfuAdapter c' = sfuAdapter c.
Proof.
  unfold bypassesFilter, handleSignaling.
  destruct (bool_decide (currentArchitectureMode c = sfu) && sfuAdapter c);
    simpl; [|done].
  destruct (msg_type m) as [ty|]; [|done]. by intros ->.
Qed.

Lemma handleSignaling_filter m c :
  bypassesFilter m c = false → handleSignaling m c = filterAndDispatch m c.
Proof.
  unfold bypassesFilter, handleSignaling.
  destruct (bool_decide (currentArchitectureMode c = sfu) && sfuAdapter c);
    simpl; [|done].
  destruct (msg_type m) as [ty|]; [|done]. by intros ->.
Qed.

Lemma bypassesFilter_same m c c' :
  currentArchitectureMode c' = currentArchitectureMode c →
  sfuAdapter c' = sfuAdapter c →
  bypassesFilter m c' = bypassesFilter m c.
Proof. unfold bypassesFilter. by intros -> ->. Qed.

Lemma processed_iff m c :
  processed m c = true
  ↔ bypassesFilter m c = false ∧ getMessageId m ∉ ids c.
Proof.
  unfold processed. destruct (bypassesFilter m c) eqn:Eb.
  - destruct (handleSignaling_bypass m c Eb) as (_ & Hr & _).
    rewrite Hr. rewrite bool_decide_eq_false_2 by lia. naive_solver.
  - rewrite handleSignaling_filter by done.
    destruct (decide (getMessageId m ∈ ids c)) as [Hin|Hnew].
    + rewrite filterAndDispatch_duplicate by done. simpl.
      rewrite bool_decide_eq_false_2 by lia. naive_solver.
    + destruct (filterAndDispatch_new m c Hnew) as (_ & Hr & _).
      rewrite Hr. rewrite bool_decide_eq_true_2 by done. naive_solver.
Qed.

(** One message handled: either the set is untouched and the message is
    not counted, or the message is new, counted, and the set gains its id or
    is emptied. *)
Lemma handleSignaling_ids m c :
  let c' := fst (handleSignaling m c) in
  (processed m c = false ∧ ids c' = ids c)
  ∨ (processed m c = true ∧ (getMessageId m ∉ ids c)
     ∧ ids c' = (if decide (size (ids c) < 1000)%nat
                 then {[getMessageId m]} ∪ ids c else ∅)).
Proof.
  simpl. destruct (processed m c) eqn:Ep.
  - right. apply processed_iff in Ep as [Eb Hnew].
    rewrite handleSignaling_filter by done.
    by destruct (filterAndDispatch_new m c Hnew) as (? & _).
  - left. split; [done|]. destruct (bypassesFilter m c) eqn:Eb.
    + by destruct (handleSignaling_bypass m c Eb) as (? & _).
    + rewrite handleSignaling_filter by done.
      destruct (decide (getMessageId m ∈ ids c)) as [Hin|Hnew].
      * by rewrite filterAndDispatch_duplicate.
      * assert (processed m c = true) as Hp by (by apply processed_iff).
        congruence.
Qed.

Lemma handleSignaling_bounded m c :
  (size (ids c) ≤ 1000)%nat →
  (size (ids (fst (handleSignaling m c))) ≤ 1000)%nat.
Proof.
  intros Hb. destruct (handleSignaling_ids m c) as [[_ ->]|(_ & Hnew & ->)];
    [done|].
  case_decide; [|rewrite size_empty; lia].
  rewrite size_union by set_solver. rewrite size_singleton. lia.
Qed.

Lemma handleAll_bounded ms : ∀ c,
  (size (ids c) ≤ 1000)%nat → (size (ids (handleAll c ms)) ≤ 1000)%nat.
Proof.
  induction ms as [|m ms IH]; intros c Hb; simpl; [done|].
  by apply IH, handleSignaling_bounded.
Qed.

(** An id in the set was there before or belongs to a handled message. *)
Lemma handleAll_origin ms : ∀ c id,
  id ∈ ids (handleAll c ms) →
  id ∈ ids c ∨ Exists (λ m, getMessageId m = id) ms.
Proof.
  induction ms as [|m ms IH]; intros c id Hin; simpl in *; [by left|].
  apply IH in Hin as [Hin|Hex]; [|right; by apply Exists_cons_tl].
  destruct (handleSignaling_ids m c) as [[_ Heq]|(_ & _ & Heq)];
    rewrite Heq in Hin; [by left|].
  case_decide; [|set_solver].
  apply elem_of_union in Hin as [Hin|Hin]; [|by left].
  apply elem_of_singleton in Hin. right. by apply Exists_cons_hd.
Qed.

(** As long as an id stays remembered, the set grows by one with every
    message that passes the filter. *)
Lemma remembered_means_no_clear ms : ∀ c id,
  id ∈ ids c →
  Forall (λ m, getMessageId m ≠ id) ms →
  id ∈ ids (handleAll c ms) →
  size (ids (handleAll c ms)) = (size (ids c) + countProcessed c ms)%nat.
Proof.
  induction ms as [|m ms IH]; intros c id Hin Hall Hend; simpl in *; [lia|].
  apply Forall_cons in Hall as [Hm Hall].
  destruct (handleSignaling_ids m c) as [[Hp Heq]|(Hp & Hnew & Heq)];
    rewrite Hp.
  - rewrite (IH _ id); [by rewrite Heq|by rewrite Heq|done|done].
  - destruct (decide (size (ids c) < 1000)%nat) as [Hlt|Hge].
    + rewrite (IH _ id); [|rewrite Heq; set_solver|done|done].
      rewrite Heq, size_union by set_solver. rewrite size_singleton. lia.
    + exfalso. apply handleAll_origin in Hend as [Hend|Hex].
      * rewrite Heq in Hend. set_solver.
      * apply Exists_exists in Hex as (m' & Hm' & Hid).
        rewrite Forall_forall in Hall. by apply (Hall m').
Qed.

Lemma no_sfu_no_bypass m c :
  bool_decide (currentArchitectureMode c = sfu) && sfuAdapter c = false →
  bypassesFilter m c = false.
Proof. unfold bypassesFilter. by intros ->. Qed.

(** Messages with new, pairwise different ids all go into the set as long
    as it does not hold more than 1000. *)
Lemma handleAll_distinct ms : ∀ c,
  bool_decide (currentArchitectureMode c = sfu) && sfuAdapter c = false →
  NoDup (getMessageId <$> ms) →
  (∀ m, m ∈ ms → getMessageId m ∉ ids c) →
  (size (ids c) + length ms ≤ 1000)%nat →
  ids (handleAll c ms) = list_to_set (getMessageId <$> ms) ∪ ids c
  ∧ size (ids (handleAll c ms)) = (size (ids c) + length ms)%nat
  ∧ countProcessed c ms = length ms
  ∧ bool_decide (currentArchitectureMode (handleAll c ms) = sfu)
    && sfuAdapter (handleAll c ms) = false.
Proof.
  induction ms as [|m ms IH]; intros c Hmode Hnd Hnew Hsize.
  - simpl. split_and!; [by rewrite union_empty_l_L|lia|done|done].
  - rewrite fmap_cons in Hnd. apply NoDup_cons in Hnd as [Hm Hnd].
    cbn [length] in Hsize.
    assert (getMessageId m ∉ ids c) as Hmnew
      by (apply Hnew, list_elem_of_here).
    pose proof (no_sfu_no_bypass m c Hmode) as Hb.
    assert (processed m c = true) as Hp by (by apply processed_iff).
    destruct (filterAndDispatch_new m c Hmnew) as (Hids & _ & Hmo & Had).
    rewrite <- (handleSignaling_filter m c Hb) in Hids, Hmo, Had.
    rewrite decide_True in Hids by lia.
    set (c1 := fst (handleSignaling m c)) in *.
    destruct (IH c1) as (H1 & H2 & H3 & H4).
    + by rewrite Hmo, Had.
    + done.
    + intros m' Hm'. rewrite Hids. intros [Hin|Hin]%elem_of_union.
      * apply elem_of_singleton in Hin. apply Hm.
        apply list_elem_of_fmap. by exists m'.
      * apply (Hnew m'); [by apply list_elem_of_further|done].
    + rewrite Hids, size_union by (by apply disjoint_singleton_l).
      rewrite size_singleton. lia.
    + change (handleAll c (m :: ms)) with (handleAll c1 ms).
      change (countProcessed c (m :: ms))
        with ((if processed m c then 1 else 0) + countProcessed c1 ms)%nat.
      rewrite Hp, H2, H3, H1, Hids.
      rewrite size_union by (by apply disjoint_singleton_l).
      rewrite size_singleton.
      split_and!; [|cbn [length]; lia|cbn [length]; lia|done].
      rewrite fmap_cons, list_to_set_cons. apply set_eq. intros x.
      rewrite !elem_of_union. tauto.
Qed.

(** The run that the claim speaks of: 1001 different messages from an empty
    set leave it empty, and each of them is then processed again. *)
Lemma handleAll_1001_distinct c ms :
  ids c = ∅ →
  bool_decide (currentArchitectureMode c = sfu) && sfuAdapter c = false →
  NoDup (getMessageId <$> ms) →
  length ms = 1001%nat →
  ids (handleAll c ms) = ∅
  ∧ countProcessed c ms = 1001%nat
  ∧ ∀ m, processed m (handleAll c ms) = true.
Proof.
  intros Hempty Hmode Hnd Hlen.
  destruct ms as [|m0 ms0] using rev_ind; [simpl in Hlen; lia|]. clear IHms0.
  rewrite length_app in Hlen. simpl in Hlen.
  rewrite fmap_app in Hnd. apply NoDup_app in Hnd as (Hnd0 & Hdisj & _).
  destruct (handleAll_distinct ms0 c Hmode Hnd0) as (H1 & H2 & H3 & H4).
  { intros m _. rewrite Hempty. apply not_elem_of_empty. }
  { rewrite Hempty, size_empty. lia. }
  set (c1 := handleAll c ms0) in *.
  assert (handleAll c (ms0 ++ [m0]) = fst (handleSignaling m0 c1)) as Hlast.
  { unfold handleAll. by rewrite fold_left_app. }
  assert (getMessageId m0 ∉ ids c1) as Hnew.
  { rewrite H1, Hempty. intros [Hin|Hin]%elem_of_union;
      [|by apply not_elem_of_empty in Hin].
    apply elem_of_list_to_set in Hin. apply (Hdisj _ Hin). simpl.
    apply list_elem_of_here. }
  pose proof (no_sfu_no_bypass m0 c1 H4) as Hb.
  destruct (filterAndDispatch_new m0 c1 Hnew) as (Hids & _ & Hmo & Had).
  rewrite <- (handleSignaling_filter m0 c1 Hb) in Hids, Hmo, Had.
  rewrite decide_False in Hids by (rewrite H2, Hempty, size_empty; lia).
  rewrite Hlast. split_and!.
  - done.
  - assert (∀ l c', countProcessed c' (l ++ [m0])
                    = (countProcessed c' l
                       + (if processed m0 (handleAll c' l) then 1 else 0))%nat)
      as Hsnoc.
    { induction l as [|x l IHl]; intros c'; simpl; [lia|].
      rewrite IHl. unfold handleAll. simpl. lia. }
    rewrite Hsnoc, H3. fold c1.
    assert (processed m0 c1 = true) as -> by (by apply processed_iff). lia.
  - intros m. apply processed_iff. split.
    + apply no_sfu_no_bypass. by rewrite Hmo, Had.
    + rewrite Hids. apply not_elem_of_empty.
Qed.

(** On text of one-byte characters the cut is the library's [substring]. *)
Lemma substringUnits_ascii text : ∀ n,
  (∀ b, In b (list_ascii_of_string text) → (N_of_ascii b < 128)%N) →
  substringUnits n text = substring 0 n text.
Proof.
  unfold substringUnits.
  induction text as [|b rest IH]; intros n Hall; [by destruct n|].
  simpl. unfold utf8Width.
  assert ((N_of_ascii b <? 192)%N = true) as ->.
  { apply N.ltb_lt. specialize (Hall b (or_introl eq_refl)). lia. }
  destruct n as [|n]; simpl; [done|].
  rewrite Nat.sub_0_r. f_equal. apply IH.
  intros b' Hb'. apply Hall. by right.
Qed.

(** Three characters of three bytes each are three units: a cut at two
    keeps two whole characters. *)
Example substringUnits_counts_characters :
  substringUnits 2 "用户未" = "用户"
  ∧ String.length (substringUnits 2 "用户未") = 6%nat
  ∧ substring 0 2 "用户未" ≠ substringUnits 2 "用户未".
Proof. split_and!; [reflexivity|reflexivity|discriminate]. Qed.

(** A character outside the basic plane is two units: a cut through it
    keeps its first unit only. *)
Example substringUnits_cuts_a_pair :
  substringUnits 3 "a😀b" = "a😀"
  ∧ substringUnits 2 "a😀b"
    = String "a" (String (ascii_of_N 237) (String (ascii_of_N 160)
        (String (ascii_of_N 189) EmptyString))).
Proof. split; reflexivity. Qed.

(** What a message that reaches the filter with a new id is handed to. *)
Lemma filterAndDispatch_effects m c :
  getMessageId m ∉ ids c →
  snd (filterAndDispatch m c)
  = match (if multiPeerMode c && truthy_opt (msg_from m)
           then peerConnections c !! default "" (msg_from m)
           else peerConnection c) with
    | Some pc => [HandleSignalingForPeer pc m]
    | None => []
    end.
Proof.
  intros Hnew. unfold filterAndDispatch.
  rewrite bool_decide_eq_false_2 by done. simpl.
  destruct (multiPeerMode c && truthy_opt (msg_from m)).
  - by destruct (peerConnections c !! default "" (msg_from m)).
  - by destruct (peerConnection c).
Qed.

(** C10.  The duplicate filter is bounded.  A message reaches the filter
    unless the SFU adapter takes it; it is processed exactly when its id
    (type, sender, first 50 characters of sdp and candidate) is not
    remembered: a remembered one is dropped with no effect at all, a new one
    is counted, handed to the peer connection and remembered.  Starting from
    a set of at most 1000 ids, the set never holds more than 1000; a new
    message arriving when 1000 ids are held empties the set entirely, so
    that the same message sent again is processed again; a message is still
    remembered only if fewer than 1000 messages have been processed since;
    and 1001 different messages from an empty set leave it empty, each of
    them being processed again afterwards. *)
Theorem duplicate_filter_is_bounded c :
  (size (ids c) ≤ 1000)%nat →
  (∀ m, getMessageId m
        = (default "undefined" (msg_type m) ++ "-"
           ++ default "" (msg_from m) ++ "-"
           ++ substringUnits 50 (default "" (msg_sdp m))
           ++ substringUnits 50 (default "" (msg_candidate m)))%string)
  ∧ (∀ m, (size (ids (fst (handleSignaling m c))) ≤ 1000)%nat)
  ∧ (∀ m, getMessageId m ∈ ids c → processed m c = false)
  ∧ (∀ m, processed m c = true →
          (size (ids c) < 1000)%nat →
          ids (fst (handleSignaling m c)) = {[getMessageId m]} ∪ ids c
          ∧ processed m (fst (handleSignaling m c)) = false)
  ∧ (∀ m, processed m c = true →
          size (ids c) = 1000%nat →
          ids (fst (handleSignaling m c)) = ∅
          ∧ processed m (fst (handleSignaling m c)) = true)
  ∧ (∀ m between,
        getMessageId m ∈ ids c →
        Forall (λ m', getMessageId m' ≠ getMessageId m) between →
        getMessageId m ∈ ids (handleAll c between) →
        (countProcessed c between < 1000)%nat)
  ∧ (∀ m, processed m c = true
          ↔ bypassesFilter m c = false ∧ getMessageId m ∉ ids c)
  ∧ (∀ m, bypassesFilter m c = false → getMessageId m ∈ ids c →
          handleSignaling m c = (c, []))
  ∧ (∀ m, bypassesFilter m c = false → getMessageId m ∉ ids c →
          stats_messagesReceived (fst (handleSignaling m c))
          = stats_messagesReceived c + 1
          ∧ ids (fst (handleSignaling m c))
            = (if decide (size (ids c) < 1000)%nat
               then {[getMessageId m]} ∪ ids c else ∅)
          ∧ snd (handleSignaling m c)
            = match (if multiPeerMode c && truthy_opt (msg_from m)
                     then peerConnections c !! default "" (msg_from m)
                     else peerConnection c) with
              | Some pc => [HandleSignalingForPeer pc m]
              | None => []
              end)
  ∧ (∀ ms,
        ids c = ∅ →
        bool_decide (currentArchitectureMode c = sfu) && sfuAdapter c = false →
        NoDup (getMessageId <$> ms) →
        length ms = 1001%nat →
        ids (handleAll c ms) = ∅
        ∧ countProcessed c ms = 1001%nat
        ∧ ∀ m, processed m (handleAll c ms) = true).
Proof.
  intros Hb. split_and!.
  - intros m. unfold getMessageId.
    destruct (msg_from m) as [[|? ?]|], (msg_sdp m) as [[|? ?]|],
      (msg_candidate m) as [[|? ?]|]; reflexivity.
  - intros m. by apply handleSignaling_bounded.
  - intros m Hin. destruct (processed m c) eqn:Ep; [|done].
    apply processed_iff in Ep as [_ Hnew]. done.
  - intros m Hp Hlt.
    destruct (handleSignaling_ids m c) as [[Hp' _]|(_ & Hnew & Heq)];
      [congruence|].
    rewrite decide_True in Heq by done. split; [done|].
    destruct (processed m (fst (handleSignaling m c))) eqn:Ep; [|done].
    apply processed_iff in Ep as [_ Hnew']. rewrite Heq in Hnew'.
    exfalso. apply Hnew', elem_of_union_l. by apply elem_of_singleton.
  - intros m Hp Hfull.
    destruct (handleSignaling_ids m c) as [[Hp' _]|(_ & Hnew & Heq)];
      [congruence|].
    rewrite decide_False in Heq by lia. split; [done|].
    apply processed_iff in Hp as [Eb _]. apply processed_iff.
    rewrite handleSignaling_filter in * by done.
    destruct (filterAndDispatch_new m c Hnew) as (_ & _ & Hmode & Hsfu).
    split; [by rewrite (bypassesFilter_same m c)|].
    rewrite Heq. set_solver.
  - intros m between Hin Hall Hend.
    pose proof (remembered_means_no_clear between c _ Hin Hall Hend) as Hsize.
    pose proof (handleAll_bounded between c Hb) as Hbound.
    assert (size (ids c) ≠ 0%nat) as Hpos.
    { intros Hz. apply size_empty_inv in Hz. set_solver. }
    lia.
  - intros m. apply processed_iff.
  - intros m Eb Hin. rewrite handleSignaling_filter by done.
    by apply filterAndDispatch_duplicate.
  - intros m Eb Hnew. rewrite handleSignaling_filter by done.
    destruct (filterAndDispatch_new m c Hnew) as (H1 & H2 & _).
    split_and!; [done|done|]. by apply filterAndDispatch_effects.
  - intros ms. apply handleAll_1001_distinct.
Qed.

(** A client that has handled an offer drops the same offer. *)
Lemma duplicate_filter_is_bounded_witness :
  let offer :=
    mkMsg (Some "offer") (Some "u2") None None (Some "v=0") None None None in
  let c := fst (handleSignaling offer
                  (fst (initializePeerConnection
                          (constructor (mkOptions None None false))))) in
  handleSignaling offer c = (c, []).
Proof.
  intros offer c.
  refine (proj1 (proj2 (proj2 (proj2 (proj2 (proj2 (proj2 (proj2
            (duplicate_filter_is_bounded c _)))))))) offer _ _).
  - vm_compute. lia.
  - reflexivity.
  - apply (bool_decide_unpack _). vm_compute. reflexivity.
Defined.

(** Scenario E: the same ice-candidate received twice is processed once. *)
Example scenario_E_duplicate_candidate :
  let m := mkMsg (Some "ice-candidate") (Some "u2") None (Some "r") None
             (Some "candidate:1 1 udp 2122260223 10.0.0.1 54321 typ host")
             None None in
  let c := fst (initializePeerConnection
                  (constructor (mkOptions None None false))) in
  processed m c = true ∧ processed m (fst (handleSignaling m c)) = false.
Proof. split; vm_compute; reflexivity. Qed.

End DuplicateFilter.

(** * Further properties of the signaling server *)

(** ** The registry invariant *)

Section RegistryInvariant.
Import Server.

Lemma handleJoinRoom_members now sk r uid s r' :
  getRoomUsers (fst (handleJoinRoom now sk r uid s)) r'
  = if decide (r' = r)
    then (if bool_decide (actualUserId sk uid ∈ getRoomUsers s r)
          then getRoomUsers s r
          else getRoomUsers s r ++ [actualUserId sk uid])
    else getRoomUsers s r'.
Proof.
  unfold handleJoinRoom, getRoomUsers, includes. simpl.
  destruct (decide (r' = r)) as [->|Hne].
  - rewrite lookup_insert_eq.
    destruct (rooms s !! r) as [room|]; simpl; try case_bool_decide; done.
  - by rewrite lookup_insert_ne.
Qed.

Lemma handleLeaveRoom_cases sk s :
  handleLeaveRoom sk s = (s, [])
  ∨ ∃ u info rid,
      socketToUser s !! sk = Some u ∧ u ≠ ""
      ∧ users s !! u = Some info ∧ user_roomId info = Some rid ∧ rid ≠ ""
      ∧ users (fst (handleLeaveRoom sk s))
        = <[u := mkUser (user_userId info) None false (user_joinedAt info)]>
            (users s)
      ∧ socketToUser (fst (handleLeaveRoom sk s)) = socketToUser s
      ∧ userToSocket (fst (handleLeaveRoom sk s)) = delete u (userToSocket s)
      ∧ (∀ r', getRoomUsers (fst (handleLeaveRoom sk s)) r'
               = if decide (r' = rid)
                 then filter (λ id, id ≠ u) (getRoomUsers s rid)
                 else getRoomUsers s r')
      ∧ (∀ r', r' ≠ rid →
           rooms (fst (handleLeaveRoom sk s)) !! r' = rooms s !! r')
      ∧ (∀ room', rooms (fst (handleLeaveRoom sk s)) !! rid = Some room' →
           ∃ room, rooms s !! rid = Some room
             ∧ room' = mkRoom (room_roomId room)
                         (filter (λ id, id ≠ u) (room_users room))
                         (room_createdAt room)
             ∧ filter (λ id, id ≠ u) (room_users room) ≠ [])
      ∧ snd (handleLeaveRoom sk s)
        = (if decide (getRoomUsers (fst (handleLeaveRoom sk s)) rid = [])
           then []
           else [Broadcast sk rid "user-left" (PUserLeft u rid)])
          ++ [SocketLeave sk rid].
Proof.
  unfold handleLeaveRoom.
  destruct (socketToUser s !! sk) as [u|] eqn:Esk; [|by left].
  destruct (truthy u) eqn:Et; simpl; [|by left].
  destruct (users s !! u) as [info|] eqn:Eu; [|by left].
  destruct (user_roomId info) as [rid|] eqn:Erid; [|by left].
  destruct (truthy rid) eqn:Etr; simpl; [|by left].
  right. exists u, info, rid.
  apply truthy_true in Et. apply truthy_true in Etr.
  split_and!; try done.
  all: unfold getRoomUsers;
    destruct (rooms s !! rid) as [room|] eqn:Eroom; simpl;
      [destruct (Nat.eqb _ 0) eqn:Elen|]; simpl; try done.
  - apply Nat.eqb_eq, nil_length_inv in Elen. intros r'.
    destruct (decide (r' = rid)) as [->|Hne];
      [by rewrite lookup_delete_eq, Elen|by rewrite lookup_delete_ne].
  - intros r'. destruct (decide (r' = rid)) as [->|Hne];
      [by rewrite lookup_insert_eq|by rewrite lookup_insert_ne].
  - intros r'. destruct (decide (r' = rid)) as [->|Hne]; [by rewrite Eroom|done].
  - intros r' Hne. by rewrite lookup_delete_ne.
  - intros r' Hne. by rewrite lookup_insert_ne.
  - intros room'. by rewrite lookup_delete_eq.
  - apply Nat.eqb_neq in Elen. intros room'.
    rewrite lookup_insert_eq. intros [= <-]. exists room.
    split_and!; try done. intros Hnil. by rewrite Hnil in Elen.
  - intros room'. congruence.
  - by rewrite lookup_delete_eq.
  - apply Nat.eqb_neq in Elen. rewrite lookup_insert_eq. simpl.
    case_decide as Hnil; [by rewrite Hnil in Elen|done].
  - by rewrite Eroom.
Qed.

Lemma registry_ok_initial : registry_ok initial.
Proof.
  split; simpl.
  - intros r room H. by rewrite lookup_empty in H.
  - intros u info H. by rewrite lookup_empty in H.
  - intros u. rewrite lookup_empty. split; [by intros [? ?]|].
    intros (info & H & _). by rewrite lookup_empty in H.
Qed.

Lemma registry_ok_join now sk r uid s :
  registry_ok s → registry_ok (fst (handleJoinRoom now sk r uid s)).
Proof.
  intros [Hroom Huser Hindex].
  pose proof (handleJoinRoom_members now sk r uid s) as Hmem.
  set (u := actualUserId sk uid) in *.
  split.
  - intros r' room'. unfold handleJoinRoom. simpl. fold u.
    destruct (decide (r' = r)) as [->|Hne]; [|rewrite lookup_insert_ne by done; apply Hroom].
    rewrite lookup_insert_eq. intros [= <-].
    destruct (rooms s !! r) as [room|] eqn:Er.
    + destruct (Hroom _ _ Er) as (Hid & Hnil & Hnd).
      unfold includes. clear Hmem. case_bool_decide as Hin; simpl; [done|].
      split_and!; [done|by destruct (room_users room)|].
      apply NoDup_app. split_and!; [done| |apply NoDup_singleton].
      intros y Hy Hy'. apply list_elem_of_singleton in Hy'. by subst.
    + simpl. split_and!; [done|done|apply NoDup_singleton].
  - intros u' info'. unfold handleJoinRoom at 1. simpl. fold u.
    destruct (decide (u' = u)) as [->|Hne].
    + rewrite lookup_insert_eq. intros [= <-]. simpl. split_and!; [done| |done].
      intros r' [= <-]. rewrite Hmem. clear Hmem. rewrite decide_True by done.
      case_bool_decide; [done|]. apply elem_of_app. right.
      by apply list_elem_of_singleton.
    + rewrite lookup_insert_ne by done. intros Hinfo.
      destruct (Huser _ _ Hinfo) as (Hid & Hin & Hconn).
      split_and!; [done| |done]. intros r' Hr'. specialize (Hin _ Hr').
      rewrite Hmem. clear Hmem. case_decide as Hrr; [|done]. subst r'.
      case_bool_decide; [done|]. apply elem_of_app. by left.
  - intros u'. unfold handleJoinRoom. simpl. fold u.
    destruct (decide (u' = u)) as [->|Hne].
    + rewrite !lookup_insert_eq. split; [|done]. intros _.
      eexists. split; [done|]. done.
    + rewrite !lookup_insert_ne by done. apply Hindex.
Qed.

Lemma registry_ok_leave sk s :
  registry_ok s → registry_ok (fst (handleLeaveRoom sk s)).
Proof.
  intros Hok. destruct (handleLeaveRoom_cases sk s) as [->|Hfull]; [done|].
  destruct Hfull as (u & info & rid & Esk & Hu & Eu & Erid & Hrid
                     & Husers & Hs2u & Hu2s & Hmem & Hother & Hrooms & _).
  destruct Hok as [Hroom Huser Hindex].
  set (s' := fst (handleLeaveRoom sk s)) in *.
  split.
  - intros r' room' Hr'. destruct (decide (r' = rid)) as [->|Hne];
      [|rewrite Hother in Hr' by done; by apply Hroom].
    destruct (Hrooms _ Hr') as (room & Er & -> & Hnil). simpl.
    destruct (Hroom _ _ Er) as (Hid & _ & Hnd).
    split_and!; [done|done|by apply NoDup_filter].
  - intros u' info'. rewrite Husers.
    destruct (decide (u' = u)) as [->|Hne].
    + rewrite lookup_insert_eq. intros [= <-]. simpl.
      destruct (Huser _ _ Eu) as (Hid & _ & _).
      split_and!; [done|done|]. split; [done|by intros [? ?]].
    + rewrite lookup_insert_ne by done. intros Hinfo.
      destruct (Huser _ _ Hinfo) as (Hid & Hin & Hconn).
      split_and!; [done| |done]. intros r' Hr'. specialize (Hin _ Hr').
      rewrite Hmem. case_decide as Hrr; [|done]. subst r'.
      apply list_elem_of_filter. done.
  - intros u'. rewrite Husers, Hu2s.
    destruct (decide (u' = u)) as [->|Hne].
    + rewrite lookup_delete_eq, lookup_insert_eq. split; [by intros [? ?]|].
      intros (i & [= <-] & [? ?]). done.
    + rewrite lookup_delete_ne, lookup_insert_ne by done. apply Hindex.
Qed.

Lemma registry_ok_disconnect sk s :
  registry_ok s → registry_ok (fst (handleDisconnect sk s)).
Proof.
  intros Hok. pose proof (registry_ok_leave sk s Hok) as Hl.
  unfold handleDisconnect.
  destruct (socketToUser s !! sk) as [u|]; [|done].
  destruct (truthy u); simpl; [|done].
  destruct (handleLeaveRoom sk s) as [s1 effs]. simpl in *.
  destruct Hl as [Hroom Huser Hindex].
  split; simpl.
  - done.
  - intros u' info'. destruct (decide (u' = u)) as [->|Hne].
    + by rewrite lookup_delete_eq.
    + rewrite lookup_delete_ne by done. apply Huser.
  - intros u'. destruct (decide (u' = u)) as [->|Hne].
    + rewrite !lookup_delete_eq. split; [by intros [? ?]|].
      by intros (i & ? & _).
    + rewrite !lookup_delete_ne by done. apply Hindex.
Qed.
End RegistryInvariant.

(** ** Flushing a batch *)

Section BatchFlush.
Import Server.

Lemma only_sent_differs_refl s : only_sent_differs s s.
Proof. unfold only_sent_differs, with_stats. by destruct s as [? ? ? ? [] ? ? ?]. Qed.

Lemma only_sent_differs_trans s1 s2 s3 :
  only_sent_differs s1 s2 → only_sent_differs s2 s3 → only_sent_differs s1 s3.
Proof.
  unfold only_sent_differs, with_stats. intros H12 H23.
  rewrite H23. rewrite H12. simpl. done.
Qed.

Lemma sendMessage_only_sent live m sk r s :
  only_sent_differs s (fst (sendMessage live m sk r s)).
Proof.
  unfold sendMessage. destruct (truthy_opt (msg_to m)).
  - destruct (findSocketByUserId live s _); simpl;
      [done|apply only_sent_differs_refl].
  - simpl. destruct (rooms s !! r); [done|apply only_sent_differs_refl].
Qed.

Lemma flushOne_only_sent live r ms : ∀ s effs,
  only_sent_differs s (fst (fold_left (flushOne live r) ms (s, effs))).
Proof.
  induction ms as [|m ms IH]; intros s effs; simpl;
    [apply only_sent_differs_refl|].
  destruct (userToSocket s !! default "" (msg_from m)) as [sid|]; [|apply IH].
  destruct (truthy sid); simpl; [|apply IH].
  case_decide; [|apply IH].
  pose proof (sendMessage_only_sent live m sid r s) as H1.
  destruct (sendMessage live m sid r s) as [s1 e1]. simpl in H1.
  eapply only_sent_differs_trans; [exact H1|apply IH].
Qed.

(** Every effect of a flush hands over a message of the batch. *)
Lemma flushOne_effects live r ms : ∀ s effs e,
  e ∈ snd (fold_left (flushOne live r) ms (s, effs)) →
  e ∈ effs
  ∨ ∃ m, m ∈ ms
      ∧ ((∃ target, e = Emit target "signaling" (PSignaling m))
         ∨ ∃ sender, e = Broadcast sender r "signaling" (PSignaling m)).
Proof.
  induction ms as [|m ms IH]; intros s effs e He; simpl in *; [by left|].
  assert (∀ s' effs', e ∈ snd (fold_left (flushOne live r) ms (s', effs')) →
            (∀ e', e' ∈ effs' → e' ∈ effs
               ∨ ((∃ target, e' = Emit target "signaling" (PSignaling m))
                  ∨ ∃ sender, e' = Broadcast sender r "signaling" (PSignaling m))) →
            e ∈ effs
            ∨ ∃ m', m' ∈ m :: ms
                ∧ ((∃ target, e = Emit target "signaling" (PSignaling m'))
                   ∨ ∃ sender, e = Broadcast sender r "signaling" (PSignaling m')))
    as Hstep.
  { intros s' effs' He' Heffs. apply IH in He' as [He'|(m' & Hm' & Hcase)].
    - apply Heffs in He' as [?|Hcase]; [by left|].
      right. exists m. split; [apply list_elem_of_here|done].
    - right. exists m'. split; [by apply list_elem_of_further|done]. }
  destruct (userToSocket s !! default "" (msg_from m)) as [sid|];
    [|apply (Hstep _ _ He); by left].
  destruct (truthy sid); simpl in *; [|apply (Hstep _ _ He); by left].
  case_decide; [|apply (Hstep _ _ He); by left].
  unfold sendMessage in He.
  destruct (truthy_opt (msg_to m));
    [destruct (findSocketByUserId live s _)|]; simpl in He;
    apply (Hstep _ _ He); intros e' He'.
  - apply elem_of_app in He' as [?|He']; [by left|].
    apply list_elem_of_singleton in He'. right. left. eauto.
  - apply elem_of_app in He' as [?|He']; [by left|].
    by apply elem_of_nil in He'.
  - apply elem_of_app in He' as [?|He']; [by left|].
    apply list_elem_of_singleton in He'. right. right. eauto.
Qed.

Lemma flushMessageQueue_spec live r s :
  (∃ s1, only_sent_differs s s1
         ∧ fst (flushMessageQueue live r s) = clearQueue r s1)
  ∧ (rooms s !! r = None → flushMessageQueue live r s = (clearQueue r s, []))
  ∧ (∀ e, e ∈ snd (flushMessageQueue live r s) →
       ∃ m, m ∈ default [] (messageQueue s !! r)
         ∧ ((∃ target, e = Emit target "signaling" (PSignaling m))
            ∨ ∃ sender, e = Broadcast sender r "signaling" (PSignaling m))).
Proof.
  unfold flushMessageQueue.
  destruct (messageQueue s !! r) as [[|m ms]|] eqn:Eq.
  1,3: simpl; split_and!; [exists s; split; [apply only_sent_differs_refl|done]
                   |done|intros e He; by apply elem_of_nil in He].
  destruct (rooms s !! r) as [room|] eqn:Er.
  - pose proof (flushOne_only_sent live r (m :: ms) s []) as Hs.
    pose proof (flushOne_effects live r (m :: ms) s []) as He.
    destruct (fold_left (flushOne live r) (m :: ms) (s, [])) as [s1 effs].
    cbn [fst snd default] in *. split_and!; [by exists s1|done|].
    intros e Hin. apply He in Hin as [Hin|?]; [by apply elem_of_nil in Hin|done].
  - split_and!; [exists s; split; [apply only_sent_differs_refl|done]
                |done|intros e He; by apply elem_of_nil in He].
Qed.
End BatchFlush.

(** ** Invariants of the running server *)

Section ServerInvariant.
Import Server.

Lemma registry_ok_same s s' :
  rooms s' = rooms s → users s' = users s → userToSocket s' = userToSocket s →
  registry_ok s → registry_ok s'.
Proof.
  intros Hr Hu Hi [Hroom Huser Hindex]. split.
  - intros r room. rewrite Hr. apply Hroom.
  - intros u info. rewrite Hu. unfold getRoomUsers. rewrite Hr. apply Huser.
  - intros u. rewrite Hu, Hi. apply Hindex.
Qed.

Lemma only_sent_differs_fields s s' :
  only_sent_differs s s' →
  rooms s' = rooms s ∧ users s' = users s
  ∧ socketToUser s' = socketToUser s ∧ userToSocket s' = userToSocket s
  ∧ messageLatencies s' = messageLatencies s
  ∧ messageQueue s' = messageQueue s
  ∧ messageQueueTimers s' = messageQueueTimers s
  ∧ messagesReceived (stats s') = messagesReceived (stats s)
  ∧ messagesDelayed (stats s') = messagesDelayed (stats s)
  ∧ averageLatency (stats s') = averageLatency (stats s).
Proof. unfold only_sent_differs. intros ->. done. Qed.

Lemma handleLeaveRoom_keeps_router sk s :
  stats (fst (handleLeaveRoom sk s)) = stats s
  ∧ messageLatencies (fst (handleLeaveRoom sk s)) = messageLatencies s
  ∧ messageQueue (fst (handleLeaveRoom sk s)) = messageQueue s
  ∧ messageQueueTimers (fst (handleLeaveRoom sk s)) = messageQueueTimers s.
Proof.
  unfold handleLeaveRoom.
  destruct (socketToUser s !! sk) as [u|]; [|done].
  destruct (truthy u); simpl; [|done].
  destruct (users s !! u) as [info|]; [|done].
  destruct (user_roomId info) as [rid|]; simpl; [|done].
  destruct (truthy rid); simpl; [|done].
  destruct (rooms s !! rid) as [room|]; [|done].
  by destruct (Nat.eqb _ _).
Qed.

Lemma step_keeps_router s e :
  stats (step s e) = stats s
  ∧ messageLatencies (step s e) = messageLatencies s
  ∧ messageQueue (step s e) = messageQueue s
  ∧ messageQueueTimers (step s e) = messageQueueTimers s.
Proof.
  destruct e as [now sk r uid|sk|sk]; unfold step, handle.
  - done.
  - apply handleLeaveRoom_keeps_router.
  - unfold handleDisconnect.
    destruct (socketToUser s !! sk) as [u|]; [|done].
    destruct (truthy u); simpl; [|done].
    pose proof (handleLeaveRoom_keeps_router sk s) as H.
    by destruct (handleLeaveRoom sk s) as [s1 effs].
Qed.

Lemma router_ok_same s s' :
  stats s' = stats s → messageLatencies s' = messageLatencies s →
  messageQueue s' = messageQueue s →
  messageQueueTimers s' = messageQueueTimers s →
  router_ok s → router_ok s'.
Proof.
  intros Hs Hl Hq Ht [H1 H2 H3 H4 H5]. split; rewrite ?Hs, ?Hl, ?Hq, ?Ht; done.
Qed.

Lemma registry_ok_step s e : registry_ok s → registry_ok (step s e).
Proof.
  destruct e; unfold step, handle.
  - apply registry_ok_join.
  - apply registry_ok_leave.
  - apply registry_ok_disconnect.
Qed.

Lemma queueMessage_fields r m s :
  let s' := fst (queueMessage r m s) in
  rooms s' = rooms s ∧ users s' = users s
  ∧ socketToUser s' = socketToUser s ∧ userToSocket s' = userToSocket s
  ∧ stats s' = stats s ∧ messageLatencies s' = messageLatencies s
  ∧ messageQueue s' = <[r := default [] (messageQueue s !! r) ++ [m]]> (messageQueue s)
  ∧ messageQueueTimers s' = {[r]} ∪ messageQueueTimers s
  ∧ snd (queueMessage r m s)
    = if decide (r ∈ messageQueueTimers s) then [] else [SetTimeout r batchDelay].
Proof.
  unfold queueMessage. case_decide as Hin; simpl; split_and!; try done.
  apply set_eq. intros x. rewrite elem_of_union, elem_of_singleton.
  split; [by right|]. by intros [->|].
Qed.

(** What a returning [handleSignaling] does to the state: nothing, or one
    counted message that was queued or sent. *)
Lemma handleSignaling_Returned startTime endTime live sk m s s' effs :
  handleSignaling startTime endTime live sk m s = Returned s' effs →
  s' = s
  ∨ ∃ s2, s' = recordLatency (endTime - startTime) s2
      ∧ rooms s2 = rooms s ∧ users s2 = users s
      ∧ socketToUser s2 = socketToUser s ∧ userToSocket s2 = userToSocket s
      ∧ messageLatencies s2 = messageLatencies s
      ∧ messagesReceived (stats s2) = messagesReceived (stats s) + 1
      ∧ messagesDelayed (stats s2) = messagesDelayed (stats s)
      ∧ ((messageQueue s2 = messageQueue s
          ∧ messageQueueTimers s2 = messageQueueTimers s)
         ∨ ∃ r q, q ≠ []
             ∧ messageQueue s2 = <[r := q]> (messageQueue s)
             ∧ messageQueueTimers s2 = {[r]} ∪ messageQueueTimers s).
Proof.
  unfold handleSignaling.
  destruct (socketToUser s !! sk) as [u|]; [|intros [= <- _]; by left].
  destruct (truthy u); simpl; [|intros [= <- _]; by left].
  destruct (users s !! u) as [info|]; [|intros [= <- _]; by left].
  destruct (user_roomId info) as [r|]; [|intros [= <- _]; by left].
  destruct (truthy r); simpl; [|intros [= <- _]; by left].
  destruct (msg_type m) as [ty|]; [|done].
  destruct (String.eqb ty "architecture-mode"); [intros [= <- _]; by left|].
  destruct (startsWith "sfu-" ty); [intros [= <- _]; by left|].
  set (s1 := with_stats s _).
  destruct (String.eqb ty "ice-candidate").
  - match goal with
    | |- context [queueMessage r ?m' s1] =>
      pose proof (queueMessage_fields r m' s1) as Hq;
      destruct (queueMessage r m' s1) as [s2 e2]
    end.
    simpl in Hq. destruct Hq as (H1 & H2 & H3 & H4 & H5 & H6 & H7 & H8 & _).
    intros [= <- _]. right. exists s2. rewrite H1, H2, H3, H4, H5, H6.
    split_and!; try done. right. eexists r, _. split_and!; [|done|done].
    by destruct (default [] _).
  - match goal with
    | |- context [sendMessage live ?m' sk r s1] =>
      pose proof (sendMessage_only_sent live m' sk r s1) as Hs;
      destruct (sendMessage live m' sk r s1) as [s2 e2]
    end.
    simpl in Hs. apply only_sent_differs_fields in Hs
      as (H1 & H2 & H3 & H4 & H5 & H6 & H7 & H8 & H9 & _).
    intros [= <- _]. right. exists s2. rewrite H1, H2, H3, H4, H5, H8, H9.
    split_and!; try done. left. by rewrite H6, H7.
Qed.

Lemma recordLatency_fields latency s :
  rooms (recordLatency latency s) = rooms s
  ∧ users (recordLatency latency s) = users s
  ∧ socketToUser (recordLatency latency s) = socketToUser s
  ∧ userToSocket (recordLatency latency s) = userToSocket s
  ∧ messageQueue (recordLatency latency s) = messageQueue s
  ∧ messageQueueTimers (recordLatency latency s) = messageQueueTimers s.
Proof. done. Qed.

Lemma registry_ok_react s i : registry_ok s → registry_ok (react s i).
Proof.
  intros Hok. destruct i as [e|t0 t1 live sk m|live r|]; simpl.
  - by apply registry_ok_step.
  - destruct (handleSignaling t0 t1 live sk m s) as [s' effs|] eqn:E; [|done].
    apply handleSignaling_Returned in E as [->|(s2 & -> & H1 & H2 & _ & H4 & _)];
      [done|].
    by apply (registry_ok_same s).
  - destruct (flushMessageQueue_spec live r s) as ((s1 & Hs & ->) & _).
    apply only_sent_differs_fields in Hs as (H1 & H2 & _ & H4 & _).
    by apply (registry_ok_same s).
  - by apply (registry_ok_same s).
Qed.

Lemma withSample_length latencies latency :
  (length latencies ≤ 1000)%nat →
  withSample latencies latency ≠ []
  ∧ (length (withSample latencies latency) ≤ 1000)%nat
  ∧ (length (withSample latencies latency) ≤ length latencies + 1)%nat.
Proof.
  intros Hlen. unfold withSample.
  destruct (1000 <? Z.of_nat (length (latencies ++ [latency]))) eqn:E.
  - apply Z.ltb_lt in E. rewrite length_app in E. simpl in E.
    destruct latencies as [|x [|y l]]; simpl in *; try lia.
    split_and!; [done| |].
    + rewrite length_app. simpl. lia.
    + rewrite length_app. simpl. lia.
  - apply Z.ltb_ge in E. rewrite length_app in *. simpl in *.
    split_and!; [by destruct latencies|lia|lia].
Qed.

Lemma router_ok_recordLatency latency s2 s :
  router_ok s →
  messageLatencies s2 = messageLatencies s →
  messagesReceived (stats s2) = messagesReceived (stats s) + 1 →
  messagesDelayed (stats s2) = messagesDelayed (stats s) →
  (∀ r, r ∈ messageQueueTimers s2 ↔ is_Some (messageQueue s2 !! r)) →
  (∀ r q, messageQueue s2 !! r = Some q → q ≠ []) →
  router_ok (recordLatency latency s2).
Proof.
  intros [Hd Hs Ha Ht Hq] Hlat Hrec Hdel Ht2 Hq2.
  assert (length (messageLatencies s) ≤ 1000)%nat as Hlen by lia.
  destruct (withSample_length (messageLatencies s) latency Hlen)
    as (Hne & Hle & Hgrow).
  unfold withSample in *. unfold recordLatency. rewrite Hlat.
  split; simpl.
  - rewrite Hrec, Hdel. destruct (100 <? latency); lia.
  - rewrite Hrec. lia.
  - destruct (if 1000 <? _ then _ else _); done.
  - done.
  - done.
Qed.
End ServerInvariant.

(** ** States the server reaches *)

Section ReachableStates.
Import Server.

Lemma router_ok_initial : router_ok initial.
Proof.
  split; simpl; try done.
  - intros r. rewrite lookup_empty. split; [set_solver|by intros [? ?]].
Qed.

Lemma router_ok_react s i : router_ok s → router_ok (react s i).
Proof.
  intros Hok. destruct i as [e|t0 t1 live sk m|live r|]; simpl.
  - destruct (step_keeps_router s e) as (H1 & H2 & H3 & H4).
    by apply (router_ok_same s).
  - destruct (handleSignaling t0 t1 live sk m s) as [s' effs|] eqn:E; [|done].
    apply handleSignaling_Returned in E
      as [->|(s2 & -> & _ & _ & _ & _ & Hlat & Hrec & Hdel & Hq)]; [done|].
    pose proof Hok as [_ _ _ Ht Hne].
    apply (router_ok_recordLatency _ _ s); try done.
    + destruct Hq as [[-> ->]|(r & q & Hq & -> & ->)]; [done|].
      intros r'. rewrite elem_of_union, elem_of_singleton, Ht.
      destruct (decide (r' = r)) as [->|Hne'].
      * rewrite lookup_insert_eq. split; [done|by left].
      * rewrite lookup_insert_ne by done. split; [by intros [?|?]|by right].
    + destruct Hq as [[-> _]|(r & q & Hq & -> & _)]; [done|].
      intros r' q'. destruct (decide (r' = r)) as [->|Hne'].
      * rewrite lookup_insert_eq. by intros [= <-].
      * rewrite lookup_insert_ne by done. apply Hne.
  - destruct (flushMessageQueue_spec live r s) as ((s1 & Hs & ->) & _).
    apply only_sent_differs_fields in Hs
      as (_ & _ & _ & _ & H5 & H6 & H7 & H8 & H9 & H10).
    destruct Hok as [Hd Hsm Ha Ht Hq]. unfold clearQueue. split; simpl.
    + by rewrite H8, H9.
    + by rewrite H5, H8.
    + by rewrite H5, H10.
    + intros r'. rewrite H6, H7, elem_of_difference, elem_of_singleton, Ht.
      destruct (decide (r' = r)) as [->|Hne'].
      * rewrite lookup_delete_eq. split; [by intros [_ ?]|by intros [? ?]].
      * rewrite lookup_delete_ne by done. split; [by intros [? _]|done].
    + intros r' q'. rewrite H6. destruct (decide (r' = r)) as [->|Hne'].
      * by rewrite lookup_delete_eq.
      * rewrite lookup_delete_ne by done. apply Hq.
  - destruct Hok as [Hd Hsm Ha Ht Hq]. unfold resetStats. by split.
Qed.

Lemma serve_ok inputs : registry_ok (serve inputs) ∧ router_ok (serve inputs).
Proof.
  unfold serve.
  assert (∀ s, registry_ok s → router_ok s →
               registry_ok (fold_left react inputs s)
               ∧ router_ok (fold_left react inputs s)) as H.
  { induction inputs as [|i inputs IH]; intros s H1 H2; simpl; [done|].
    apply IH; [by apply registry_ok_react|by apply router_ok_react]. }
  apply H; [apply registry_ok_initial|apply router_ok_initial].
Qed.

(** X1.  Whatever joins, leaves, disconnects, signaling messages, batch timers and
    statistics resets the server has handled, a room it holds is stored under
    its own id, has at least one member, and lists no member twice. *)
Theorem rooms_never_empty inputs roomId room :
  rooms (serve inputs) !! roomId = Some room →
  room_roomId room = roomId
  ∧ room_users room ≠ []
  ∧ NoDup (room_users room).
Proof.
  destruct (serve_ok inputs) as [[H _ _] _]. apply H.
Qed.

Lemma rooms_never_empty_witness :
  let room := mkRoom "r1" ["v"] 0 in
  room_roomId room = "r1" ∧ room_users room ≠ [] ∧ NoDup (room_users room).
Proof.
  apply (rooms_never_empty
           [Registry (JoinRoom 0 "s1" "r1" (Some "u"));
            Registry (JoinRoom 1 "s2" "r1" (Some "v"));
            Registry (LeaveRoom "s1")] "r1").
  vm_compute. reflexivity.
Defined.

(** X2.  In every state the server reaches, a user record is stored under its own
    id; if it names a room the user is listed in that room; it is marked
    connected exactly when it names a room; and the user has a socket in the
    user-to-socket index exactly when the record names a room. *)
Theorem user_record_tracks_room inputs userId info :
  users (serve inputs) !! userId = Some info →
  user_userId info = userId
  ∧ (∀ roomId, user_roomId info = Some roomId →
        userId ∈ getRoomUsers (serve inputs) roomId)
  ∧ (user_connected info = true ↔ is_Some (user_roomId info))
  ∧ (is_Some (userToSocket (serve inputs) !! userId)
     ↔ is_Some (user_roomId info)).
Proof.
  destruct (serve_ok inputs) as [[_ Hu Hi] _]. intros Hinfo.
  destruct (Hu _ _ Hinfo) as (H1 & H2 & H3). split_and!; try done.
  rewrite Hi. split.
  - intros (info' & Hinfo' & ?). congruence.
  - intros ?. by exists info.
Qed.

Lemma user_record_tracks_room_witness :
  let inputs := [Registry (JoinRoom 0 "s1" "r1" (Some "u"));
                 Registry (JoinRoom 1 "s2" "r1" (Some "v"));
                 Registry (LeaveRoom "s1")] in
  is_Some (userToSocket (serve inputs) !! "u") ↔ is_Some (@None string).
Proof.
  intros inputs.
  refine (proj2 (proj2 (proj2 (user_record_tracks_room inputs "u"
                                 (mkUser "u" None false (Some 0)) _)))).
  vm_compute. reflexivity.
Defined.

(** X3.  In every state the server reaches, the delayed count lies between 0 and
    the received count, at most 1000 latency samples are kept and never more
    than messages were counted, and the published average is the mean of the
    kept samples (0 when there are none). *)
Theorem statistics_stay_coherent inputs :
  let s := serve inputs in
  0 ≤ messagesDelayed (stats s) ≤ messagesReceived (stats s)
  ∧ (length (messageLatencies s) ≤ 1000)%nat
  ∧ Z.of_nat (length (messageLatencies s)) ≤ messagesReceived (stats s)
  ∧ averageLatency (stats s)
    = match messageLatencies s with
      | [] => 0%Q
      | _ => mean (messageLatencies s)
      end.
Proof.
  intros s. destruct (serve_ok inputs) as [_ [H1 H2 H3 _ _]]. fold s in H1, H2, H3.
  split_and!; try done; lia.
Qed.

(** X4.  In every state the server reaches, a room has a batch timer pending
    exactly when it has a queue of candidates, and a queue that exists holds
    at least one message. *)
Theorem timer_armed_iff_candidates_queued inputs roomId :
  let s := serve inputs in
  (roomId ∈ messageQueueTimers s ↔ is_Some (messageQueue s !! roomId))
  ∧ (∀ queue, messageQueue s !! roomId = Some queue → queue ≠ []).
Proof.
  intros s. destruct (serve_ok inputs) as [_ [_ _ _ H4 H5]]. split; [apply H4|apply H5].
Qed.
End ReachableStates.

(** ** What one registry event does *)

Section RegistryHandlers.
Import Server.

Lemma filter_ne_snoc (u : string) (l : list string) :
  filter (λ id, id ≠ u) (l ++ [u]) = filter (λ id, id ≠ u) l.
Proof.
  rewrite filter_app. simpl. rewrite filter_cons_False by naive_solver.
  rewrite filter_nil. apply app_nil_r.
Qed.

Lemma handleJoinRoom_effects now sk r uid s :
  snd (handleJoinRoom now sk r uid s)
  = [ SocketJoin sk r;
      Broadcast sk r "user-joined" (PUserJoined (actualUserId sk uid) r);
      Emit sk "room-joined"
        (PRoomJoined r (actualUserId sk uid)
           (filter (λ id, id ≠ actualUserId sk uid) (getRoomUsers s r))) ].
Proof.
  unfold handleJoinRoom, getRoomUsers, includes. simpl.
  destruct (rooms s !! r) as [room|]; simpl.
  - case_bool_decide; simpl; [done|]. by rewrite filter_ne_snoc.
  - rewrite filter_cons_False by naive_solver. done.
Qed.

Lemma handleJoinRoom_joiner now sk r uid s :
  actualUserId sk uid ∈ getRoomUsers (fst (handleJoinRoom now sk r uid s)) r.
Proof.
  rewrite handleJoinRoom_members. rewrite decide_True by done.
  case_bool_decide; [done|]. apply elem_of_app. right.
  by apply list_elem_of_singleton.
Qed.

(** X5.  A join, from any state: the socket enters the room, the others in the
    room are told who joined, and the joiner is sent the members the room had
    before, itself excluded.  Afterwards the joiner is a member, membership
    of everyone else in that room is as before, and no other room changed. *)
Theorem join_tells_who_was_there now sk r uid s :
  let u := actualUserId sk uid in
  let s' := fst (handleJoinRoom now sk r uid s) in
  snd (handleJoinRoom now sk r uid s)
  = [ SocketJoin sk r;
      Broadcast sk r "user-joined" (PUserJoined u r);
      Emit sk "room-joined"
        (PRoomJoined r u (filter (λ id, id ≠ u) (getRoomUsers s r))) ]
  ∧ u ∈ getRoomUsers s' r
  ∧ (∀ v, v ≠ u → (v ∈ getRoomUsers s' r ↔ v ∈ getRoomUsers s r))
  ∧ (∀ r', r' ≠ r → rooms s' !! r' = rooms s !! r').
Proof.
  intros u s'. split_and!.
  - apply handleJoinRoom_effects.
  - apply handleJoinRoom_joiner.
  - intros v Hv. subst s'. rewrite handleJoinRoom_members.
    rewrite decide_True by done. fold u. case_bool_decide; [done|].
    rewrite elem_of_app, list_elem_of_singleton. naive_solver.
  - intros r' Hne. subst s'. unfold handleJoinRoom. simpl.
    by rewrite lookup_insert_ne.
Qed.

(** X6.  Joining the same room again with the same socket and user id changes no
    room and neither socket index, and produces the same three effects as
    the first join did. *)
Theorem rejoining_changes_no_room now now' sk r uid s :
  let s1 := fst (handleJoinRoom now sk r uid s) in
  let s2 := fst (handleJoinRoom now' sk r uid s1) in
  rooms s2 = rooms s1
  ∧ socketToUser s2 = socketToUser s1
  ∧ userToSocket s2 = userToSocket s1
  ∧ snd (handleJoinRoom now' sk r uid s1) = snd (handleJoinRoom now sk r uid s).
Proof.
  intros s1 s2.
  pose proof (handleJoinRoom_joiner now sk r uid s) as Hin. fold s1 in Hin.
  assert (∃ room, rooms s1 !! r = Some room
                  ∧ actualUserId sk uid ∈ room_users room) as (room & Er & Hr).
  { by apply getRoomUsers_in_room. }
  split_and!.
  - subst s2. unfold handleJoinRoom at 1. cbn [fst rooms]. rewrite Er.
    unfold includes. rewrite bool_decide_eq_true_2 by done.
    by apply insert_id.
  - subst s2 s1. unfold handleJoinRoom. simpl. by rewrite insert_insert_eq.
  - subst s2 s1. unfold handleJoinRoom. simpl. by rewrite insert_insert_eq.
  - rewrite !handleJoinRoom_effects. do 3 f_equal. f_equal.
    subst s1. rewrite handleJoinRoom_members. rewrite decide_True by done.
    case_bool_decide; [done|]. by rewrite filter_ne_snoc.
Qed.

(** X7.  A leave by a socket whose user is recorded in a room removes that user
    from the room's list and from the user-to-socket index, clears the
    record's room and connected flag, deletes the room exactly when nobody
    remains, touches no other room, and tells the room only when somebody
    remains; the socket always leaves the transport room. *)
Theorem leave_notifies_those_who_remain sk s u info rid :
  socketToUser s !! sk = Some u → u ≠ "" →
  users s !! u = Some info →
  user_roomId info = Some rid → rid ≠ "" →
  let s' := fst (handleLeaveRoom sk s) in
  getRoomUsers s' rid = filter (λ id, id ≠ u) (getRoomUsers s rid)
  ∧ (getRoom s' rid = None ↔ getRoomUsers s' rid = [])
  ∧ (∀ r', r' ≠ rid → rooms s' !! r' = rooms s !! r')
  ∧ snd (handleLeaveRoom sk s)
    = (if decide (getRoomUsers s' rid = []) then []
       else [Broadcast sk rid "user-left" (PUserLeft u rid)])
      ++ [SocketLeave sk rid]
  ∧ users s' !! u
    = Some (mkUser (user_userId info) None false (user_joinedAt info))
  ∧ userToSocket s' !! u = None.
Proof.
  intros Esk Hu Eu Erid Hrid s'.
  destruct (handleLeaveRoom_cases sk s) as [Hnoop|Hfull].
  { exfalso. unfold handleLeaveRoom in Hnoop.
    apply truthy_true in Hu. apply truthy_true in Hrid.
    rewrite Esk, Hu in Hnoop. simpl in Hnoop. rewrite Eu, Erid, Hrid in Hnoop.
    simpl in Hnoop.
    destruct (rooms s !! rid) as [room|];
      [destruct (Nat.eqb _ _)|]; simpl in Hnoop;
      injection Hnoop; intros He _; by destruct (app_cons_not_nil _ _ _ (eq_sym He)) || done. }
  destruct Hfull as (u' & info' & rid' & Esk' & _ & Eu' & Erid' & _
                     & Husers & _ & Hu2s & Hmem & Hother & Hrooms & Heffs).
  assert (u' = u) as -> by congruence.
  assert (info' = info) as -> by congruence.
  assert (rid' = rid) as -> by congruence.
  fold s' in Husers, Hu2s, Hmem, Hother, Hrooms, Heffs.
  split_and!.
  - rewrite Hmem. by rewrite decide_True.
  - unfold getRoom. split.
    + intros Hnone. unfold getRoomUsers. by rewrite Hnone.
    + intros Hnil. destruct (rooms s' !! rid) as [room'|] eqn:Er'; [|done].
      exfalso. destruct (Hrooms _ eq_refl) as (room & _ & -> & Hne).
      unfold getRoomUsers in Hnil. rewrite Er' in Hnil. done.
  - done.
  - done.
  - by rewrite Husers, lookup_insert_eq.
  - by rewrite Hu2s, lookup_delete_eq.
Qed.

Lemma leave_notifies_those_who_remain_witness :
  let s := run [JoinRoom 0 "s1" "r1" (Some "u");
                JoinRoom 1 "s2" "r1" (Some "v")] in
  snd (handleLeaveRoom "s1" s)
  = (if decide (getRoomUsers (fst (handleLeaveRoom "s1" s)) "r1" = []) then []
     else [Broadcast "s1" "r1" "user-left" (PUserLeft "u" "r1")])
    ++ [SocketLeave "s1" "r1"].
Proof.
  intros s.
  refine (proj1 (proj2 (proj2 (proj2
            (leave_notifies_those_who_remain "s1" s "u"
               (mkUser "u" (Some "r1") true (Some 0)) "r1" _ _ _ _ _))))).
  - vm_compute. reflexivity.
  - discriminate.
  - vm_compute. reflexivity.
  - reflexivity.
  - discriminate.
Defined.
End RegistryHandlers.

(** ** What one routed message does *)

Section RoutingBehaviour.
Import Server.

(** X8.  A routed ice-candidate is not delivered when it arrives: the stamped
    message is appended to the room's queue, the only effect is a 50 ms timer
    for the room, armed only if none is pending, other rooms' queues are
    untouched and [messagesSent] does not move. *)
Theorem ice_candidates_are_batched
    startTime endTime live sk message s u info r :
  socketToUser s !! sk = Some u → u ≠ "" →
  users s !! u = Some info →
  user_roomId info = Some r → r ≠ "" →
  msg_type message = Some "ice-candidate" →
  ∃ s',
    handleSignaling startTime endTime live sk message s
    = Returned s'
        (if decide (r ∈ messageQueueTimers s) then []
         else [SetTimeout r batchDelay])
    ∧ messageQueue s' !! r
      = Some (default [] (messageQueue s !! r) ++ [stamped message u r])
    ∧ (∀ r', r' ≠ r → messageQueue s' !! r' = messageQueue s !! r')
    ∧ messageQueueTimers s' = {[r]} ∪ messageQueueTimers s
    ∧ messagesSent (stats s') = messagesSent (stats s).
Proof.
  intros Esk Hu Eu Er Hr Ety.
  apply truthy_true in Hu. apply truthy_true in Hr.
  unfold handleSignaling. rewrite Esk, Hu. simpl. rewrite Eu, Er, Hr, Ety.
  simpl. set (s1 := with_stats s _).
  match goal with
  | |- context [queueMessage r ?m' s1] =>
    pose proof (queueMessage_fields r m' s1) as Hq;
    destruct (queueMessage r m' s1) as [s2 e2]
  end.
  simpl in Hq. destruct Hq as (_ & _ & _ & _ & H5 & _ & H7 & H8 & H9).
  eexists. split_and!.
  - by rewrite H9.
  - simpl. rewrite H7, lookup_insert_eq. unfold stamped. by rewrite Ety.
  - intros r' Hne. simpl. rewrite H7. by rewrite lookup_insert_ne.
  - done.
  - simpl. by rewrite H5.
Qed.

Lemma ice_candidates_are_batched_witness :
  let s := run [JoinRoom 0 "s1" "r1" (Some "u")] in
  let message :=
    mkMsg (Some "ice-candidate") None None None None
      (Some "candidate:1 1 udp 2122260223 10.0.0.1 54321 typ host") None None in
  ∃ s',
    handleSignaling 5 6 ∅ "s1" message s
    = Returned s'
        (if decide ("r1" ∈ messageQueueTimers s) then []
         else [SetTimeout "r1" batchDelay])
    ∧ messageQueue s' !! "r1"
      = Some (default [] (messageQueue s !! "r1") ++ [stamped message "u" "r1"])
    ∧ (∀ r', r' ≠ "r1" → messageQueue s' !! r' = messageQueue s !! r')
    ∧ messageQueueTimers s' = {["r1"]} ∪ messageQueueTimers s
    ∧ messagesSent (stats s') = messagesSent (stats s).
Proof.
  intros s message.
  apply (ice_candidates_are_batched 5 6 ∅ "s1" message s "u"
           (mkUser "u" (Some "r1") true (Some 0)) "r1");
    try (vm_compute; reflexivity); discriminate.
Defined.

(** X9.  When a room's batch timer fires, from any state: the room's queue and
    timer are removed, every effect is a signaling delivery (to one socket or
    to the room) of a message that was in that queue, nothing is delivered if
    the room no longer exists, and the registry, the latency samples and the
    received, delayed and average statistics are as before. *)
Theorem flush_delivers_only_the_batch live r s :
  let s' := fst (flushMessageQueue live r s) in
  messageQueue s' = delete r (messageQueue s)
  ∧ messageQueueTimers s' = messageQueueTimers s ∖ {[r]}
  ∧ rooms s' = rooms s ∧ users s' = users s
  ∧ socketToUser s' = socketToUser s ∧ userToSocket s' = userToSocket s
  ∧ messageLatencies s' = messageLatencies s
  ∧ messagesReceived (stats s') = messagesReceived (stats s)
  ∧ messagesDelayed (stats s') = messagesDelayed (stats s)
  ∧ averageLatency (stats s') = averageLatency (stats s)
  ∧ (rooms s !! r = None → snd (flushMessageQueue live r s) = [])
  ∧ (∀ e, e ∈ snd (flushMessageQueue live r s) →
       ∃ m, m ∈ default [] (messageQueue s !! r)
         ∧ ((∃ target, e = Emit target "signaling" (PSignaling m))
            ∨ ∃ sender, e = Broadcast sender r "signaling" (PSignaling m))).
Proof.
  intros s'. destruct (flushMessageQueue_spec live r s)
    as ((s1 & Hs & Hfst) & Hnone & Heffs).
  apply only_sent_differs_fields in Hs
    as (H1 & H2 & H3 & H4 & H5 & H6 & H7 & H8 & H9 & H10).
  subst s'. rewrite Hfst. unfold clearQueue. simpl.
  rewrite H1, H2, H3, H4, H5, H6, H7, H8, H9, H10.
  split_and!; try done. intros Hr. by rewrite Hnone.
Qed.

(** X10.  In a state the server has reached, a routed message that names a
    recipient (and is neither a topology notice, an sfu- message nor an
    ice-candidate) is either dropped with no effect and no change to
    [messagesSent], when the recipient has no live socket, or emitted once,
    stamped with the sender and the sender's room, to the socket indexed for
    the recipient, who is then a user recorded in some room; [messagesSent]
    grows by one. *)
Theorem unicast_goes_to_one_registered_socket
    inputs startTime endTime live sk message u info r ty target :
  let s := serve inputs in
  socketToUser s !! sk = Some u → u ≠ "" →
  users s !! u = Some info →
  user_roomId info = Some r → r ≠ "" →
  msg_type message = Some ty →
  ty ≠ "architecture-mode" → startsWith "sfu-" ty = false →
  ty ≠ "ice-candidate" →
  msg_to message = Some target → target ≠ "" →
  ∃ s',
    (handleSignaling startTime endTime live sk message s = Returned s' []
     ∧ findSocketByUserId live s target = None
     ∧ messagesSent (stats s') = messagesSent (stats s))
    ∨ (∃ targetSocket targetInfo,
         handleSignaling startTime endTime live sk message s
         = Returned s'
             [Emit targetSocket "signaling" (PSignaling (stamped message u r))]
         ∧ userToSocket s !! target = Some targetSocket
         ∧ targetSocket ∈ live
         ∧ users s !! target = Some targetInfo
         ∧ is_Some (user_roomId targetInfo)
         ∧ messagesSent (stats s') = messagesSent (stats s) + 1).
Proof.
  intros s Esk Hu Eu Er Hr Ety Hne Hsfu Hice Eto Htarget.
  apply truthy_true in Hu. apply truthy_true in Hr.
  apply String.eqb_neq in Hne. apply String.eqb_neq in Hice.
  unfold handleSignaling. rewrite Esk, Hu. simpl. rewrite Eu, Er, Hr, Ety.
  simpl. rewrite Hne, Hsfu, Hice.
  unfold sendMessage. cbn [msg_to truthy_opt]. rewrite Eto.
  unfold truthy_opt. apply truthy_true in Htarget. rewrite Htarget.
  cbn [default].
  assert (∀ st, findSocketByUserId live (with_stats s st) target
                = findSocketByUserId live s target) as Hfind by done.
  rewrite Hfind.
  destruct (findSocketByUserId live s target) as [tsk|] eqn:Ef.
  - eexists. right.
    unfold findSocketByUserId in Ef.
    destruct (userToSocket s !! target) as [tsk'|] eqn:Eidx; [|done].
    destruct (truthy tsk'); simpl in Ef; [|done].
    case_decide as Hlive; [|done]. injection Ef as ->.
    destruct (serve_ok inputs) as [[_ _ Hindex] _]. fold s in Hindex.
    destruct (proj1 (Hindex target)) as (tinfo & Etinfo & Hroom);
      [by rewrite Eidx|].
    exists tsk, tinfo. split; [unfold stamped; by rewrite Ety, Eto|].
    split_and!; done.
  - eexists. left. split_and!; done.
Qed.

Lemma unicast_goes_to_one_registered_socket_witness :
  let inputs := [Registry (JoinRoom 0 "s1" "r1" (Some "u"));
                 Registry (JoinRoom 1 "s2" "r2" (Some "v"))] in
  let s := serve inputs in
  let live : gset string := {["s1"; "s2"]} in
  let message :=
    mkMsg (Some "offer") None (Some "v") None (Some "v=0") None None None in
  ∃ s',
    (handleSignaling 5 6 live "s1" message s = Returned s' []
     ∧ findSocketByUserId live s "v" = None
     ∧ messagesSent (stats s') = messagesSent (stats s))
    ∨ (∃ targetSocket targetInfo,
         handleSignaling 5 6 live "s1" message s
         = Returned s'
             [Emit targetSocket "signaling"
                (PSignaling (stamped message "u" "r1"))]
         ∧ userToSocket s !! "v" = Some targetSocket
         ∧ targetSocket ∈ live
         ∧ users s !! "v" = Some targetInfo
         ∧ is_Some (user_roomId targetInfo)
         ∧ messagesSent (stats s') = messagesSent (stats s) + 1).
Proof.
  intros inputs s live message.
  apply (unicast_goes_to_one_registered_socket inputs 5 6 live "s1" message
           "u" (mkUser "u" (Some "r1") true (Some 0)) "r1" "offer" "v");
    try (vm_compute; reflexivity); discriminate.
Defined.

Lemma sendMessage_sent_grows live m sk r s :
  registry_ok s →
  messagesSent (stats s) ≤ messagesSent (stats (fst (sendMessage live m sk r s))).
Proof.
  intros [Hroom _ _]. unfold sendMessage. destruct (truthy_opt (msg_to m)).
  - destruct (findSocketByUserId live s _); simpl; lia.
  - simpl. destruct (rooms s !! r) as [room|] eqn:Er; [|lia].
    destruct (Hroom _ _ Er) as (_ & Hne & _). simpl.
    destruct (room_users room); [done|]. simpl. lia.
Qed.

Lemma flushOne_sent_grows live r ms : ∀ s effs,
  registry_ok s →
  messagesSent (stats s)
  ≤ messagesSent (stats (fst (fold_left (flushOne live r) ms (s, effs)))).
Proof.
  induction ms as [|m ms IH]; intros s effs Hok; simpl; [lia|].
  destruct (userToSocket s !! default "" (msg_from m)) as [sid|]; [|by apply IH].
  destruct (truthy sid); simpl; [|by apply IH].
  case_decide; [|by apply IH].
  pose proof (sendMessage_sent_grows live m sid r s Hok) as H1.
  pose proof (sendMessage_only_sent live m sid r s) as H2.
  destruct (sendMessage live m sid r s) as [s1 e1]. simpl in H1, H2.
  apply only_sent_differs_fields in H2 as (Hr & Hu & _ & Hi & _).
  etransitivity; [exact H1|]. apply IH. by apply (registry_ok_same s).
Qed.

Lemma react_sent_grows s i :
  registry_ok s → i ≠ ResetStats →
  messagesSent (stats s) ≤ messagesSent (stats (react s i)).
Proof.
  intros Hok Hi. destruct i as [e|t0 t1 live sk m|live r|]; simpl; [| | |done].
  - destruct (step_keeps_router s e) as (-> & _). lia.
  - unfold handleSignaling.
    destruct (socketToUser s !! sk) as [u|]; [|lia].
    destruct (truthy u); simpl; [|lia].
    destruct (users s !! u) as [info|]; [|lia].
    destruct (user_roomId info) as [rid|]; [|lia].
    destruct (truthy rid); simpl; [|lia].
    destruct (msg_type m) as [ty|]; [|lia].
    destruct (String.eqb ty "architecture-mode"); [lia|].
    destruct (startsWith "sfu-" ty); [lia|].
    set (s1 := with_stats s _).
    assert (registry_ok s1) as Hok1 by by apply (registry_ok_same s).
    destruct (String.eqb ty "ice-candidate").
    + match goal with
      | |- context [queueMessage rid ?m' s1] =>
        pose proof (queueMessage_fields rid m' s1) as Hq;
        destruct (queueMessage rid m' s1) as [s2 e2]
      end.
      simpl in Hq. destruct Hq as (_ & _ & _ & _ & H5 & _). simpl. by rewrite H5.
    + match goal with
      | |- context [sendMessage live ?m' sk rid s1] =>
        pose proof (sendMessage_sent_grows live m' sk rid s1 Hok1) as Hs;
        destruct (sendMessage live m' sk rid s1) as [s2 e2]
      end.
      simpl in *. done.
  - unfold flushMessageQueue.
    destruct (messageQueue s !! r) as [[|m ms]|]; [simpl; lia| |simpl; lia].
    destruct (rooms s !! r); [|simpl; lia].
    pose proof (flushOne_sent_grows live r (m :: ms) s [] Hok) as H.
    destruct (fold_left (flushOne live r) (m :: ms) (s, [])) as [s1 effs].
    simpl in *. done.
Qed.

(** X11.  [messagesSent] is never negative in a state the server reaches, and no
    join, leave, disconnect, signaling message or batch timer handled next
    lowers it: only [resetStats] does. *)
Theorem sent_counter_only_grows inputs :
  0 ≤ messagesSent (stats (serve inputs))
  ∧ ∀ i, i ≠ ResetStats →
      messagesSent (stats (serve inputs))
      ≤ messagesSent (stats (react (serve inputs) i)).
Proof.
  split.
  - unfold serve.
    assert (∀ s, registry_ok s → 0 ≤ messagesSent (stats s) →
                 0 ≤ messagesSent (stats (fold_left react inputs s))) as H.
    { induction inputs as [|i inputs IH]; intros s Hok Hs; simpl; [done|].
      apply IH; [by apply registry_ok_react|].
      assert (i = ResetStats ∨ i ≠ ResetStats) as [->|Hne]
        by (destruct i; (by left) || (by right)); [done|].
      pose proof (react_sent_grows s i Hok Hne). lia. }
    apply H; [apply registry_ok_initial|done].
  - intros i Hi. apply react_sent_grows; [|done]. apply serve_ok.
Qed.
End RoutingBehaviour.

(** * Further properties of the client, the pool and the manager *)

(** ** The quality monitor *)

Section MonitorProperties.
Import Server Monitor.

Lemma Qgtb_gt (x y : Q) : Qgtb x y = true ↔ (y < x)%Q.
Proof.
  unfold Qgtb. rewrite negb_true_iff. split.
  - intros H. apply Qnot_le_lt. intros Hle. apply Qle_bool_iff in Hle. congruence.
  - intros H. destruct (Qle_bool x y) eqn:E; [|done].
    apply Qle_bool_iff in E. exfalso. by apply (Qlt_not_le y x).
Qed.

Lemma Qgtb_le (x y : Q) : Qgtb x y = false ↔ (x <= y)%Q.
Proof.
  unfold Qgtb. rewrite negb_false_iff. apply Qle_bool_iff.
Qed.

Lemma lossRate_bounds delayed total :
  0 ≤ delayed ≤ total → 0 < total →
  (0 <= inject_Z delayed / inject_Z total * inject_Z 100)%Q
  ∧ (inject_Z delayed / inject_Z total * inject_Z 100 <= inject_Z 100)%Q.
Proof.
  intros [H0 Hle] Hpos.
  assert (0 < inject_Z total)%Q as Hq by (rewrite <- (Zlt_Qlt 0); done).
  assert (0 <= inject_Z delayed)%Q as Hd by (rewrite <- (Zle_Qle 0); done).
  assert (inject_Z delayed <= inject_Z total)%Q as Hdt by (by rewrite <- Zle_Qle).
  assert (0 <= inject_Z delayed / inject_Z total)%Q as Hr0.
  { apply Qle_shift_div_l; [done|]. by rewrite Qmult_0_l. }
  assert (inject_Z delayed / inject_Z total <= 1)%Q as Hr1.
  { apply Qle_shift_div_r; [done|]. by rewrite Qmult_1_l. }
  split.
  - apply Qmult_le_0_compat; [done|]. done.
  - rewrite <- (Qmult_1_l (inject_Z 100)) at 2.
    apply Qmult_le_compat_r; [done|]. done.
Qed.

(** X12.  In every state the server reaches, the reported loss rate lies between
    0 and 100, and it is 0 when no message has been counted. *)
Theorem loss_rate_is_a_percentage inputs :
  let suggestion := getNetworkQualitySuggestion (serve inputs) in
  (0 <= messageLossRate suggestion)%Q
  ∧ (messageLossRate suggestion <= inject_Z 100)%Q
  ∧ (messagesReceived (stats (serve inputs)) = 0 →
     (messageLossRate suggestion == 0)%Q)
  ∧ (suggested_averageLatency suggestion
     == averageLatency (stats (serve inputs)))%Q.
Proof.
  intros suggestion. destruct (serve_ok inputs) as [_ [Hd _ _ _ _]].
  set (s := serve inputs) in *.
  assert (messageLossRate suggestion
          = if 0 <? messagesReceived (stats s)
            then (inject_Z (messagesDelayed (stats s))
                  / inject_Z (messagesReceived (stats s)) * inject_Z 100)%Q
            else 0%Q) as ->.
  { subst suggestion. unfold getNetworkQualitySuggestion. fold s.
    by repeat case_match. }
  assert (suggested_averageLatency suggestion = averageLatency (stats s)) as ->.
  { subst suggestion. unfold getNetworkQualitySuggestion. fold s.
    by repeat case_match. }
  destruct (0 <? messagesReceived (stats s)) eqn:E.
  - apply Z.ltb_lt in E.
    destruct (lossRate_bounds _ _ Hd E). split_and!; try done. lia.
  - split_and!; done.
Qed.
End MonitorProperties.

Section MonitorQuiet.
Import Server Monitor.

Lemma fold_add_bound bound (l : list Z) : ∀ acc,
  Forall (λ x, x ≤ bound) l →
  fold_left Z.add l acc ≤ acc + bound * Z.of_nat (length l).
Proof.
  induction l as [|x l IH]; intros acc Hall; simpl; [lia|].
  inversion Hall as [|? ? Hx Hl]; subst.
  specialize (IH (acc + x) Hl). lia.
Qed.

Lemma mean_bound bound (l : list Z) :
  l ≠ [] → Forall (λ x, x ≤ bound) l → (mean l <= inject_Z bound)%Q.
Proof.
  intros Hne Hall. unfold mean.
  assert (0 < Z.of_nat (length l)) as Hlen by (destruct l; [done|simpl; lia]).
  apply Qle_shift_div_r; [by rewrite <- (Zlt_Qlt 0)|].
  rewrite <- inject_Z_mult, <- Zle_Qle.
  pose proof (fold_add_bound bound l 0 Hall). lia.
Qed.

Lemma withSample_Forall (P : Z → Prop) latencies latency :
  Forall P latencies → P latency → Forall P (withSample latencies latency).
Proof.
  intros Hall Hx. unfold withSample.
  assert (Forall P (latencies ++ [latency])) as Happ.
  { apply Forall_app. split; [done|]. by apply Forall_singleton. }
  destruct (1000 <? _); [|done].
  destruct (latencies ++ [latency]); [done|]. simpl. by inversion Happ.
Qed.

Lemma calm_react s i :
  match i with
  | Signaling startTime endTime _ _ _ => endTime - startTime ≤ 100
  | _ => True
  end →
  calm s → calm (react s i).
Proof.
  intros Hi [Hd Hs]. destruct i as [e|t0 t1 live sk m|live r|]; simpl.
  - destruct (step_keeps_router s e) as (H1 & H2 & _). split; by rewrite ?H1, ?H2.
  - destruct (handleSignaling t0 t1 live sk m s) as [s' effs|] eqn:E; [|done].
    apply handleSignaling_Returned in E
      as [->|(s2 & -> & _ & _ & _ & _ & Hlat & _ & Hdel & _)]; [done|].
    split.
    + unfold recordLatency. simpl. rewrite Hdel, Hd.
      destruct (100 <? t1 - t0) eqn:E; [apply Z.ltb_lt in E; lia|done].
    + change (messageLatencies (recordLatency (t1 - t0) s2))
        with (withSample (messageLatencies s2) (t1 - t0)).
      rewrite Hlat. by apply withSample_Forall.
  - destruct (flushMessageQueue_spec live r s) as ((s1 & Hs1 & ->) & _).
    apply only_sent_differs_fields in Hs1
      as (_ & _ & _ & _ & H5 & _ & _ & _ & H9 & _).
    split; simpl; by rewrite ?H5, ?H9.
  - split; simpl; done.
Qed.

Lemma calm_serve inputs : latencies_within 100 inputs → calm (serve inputs).
Proof.
  unfold serve, latencies_within.
  assert (∀ s, calm s →
            Forall (λ i, match i with
                         | Signaling startTime endTime _ _ _ =>
                           endTime - startTime ≤ 100
                         | _ => True
                         end) inputs →
            calm (fold_left react inputs s)) as H.
  { induction inputs as [|i inputs IH]; intros s Hs Hall; simpl; [done|].
    inversion Hall as [|? ? Hi Hrest]; subst.
    apply IH; [by apply calm_react|done]. }
  apply H. split; simpl; done.
Qed.

(** X13.  A server that has only handled routed messages taking at most 100 ms
    reports good quality with a loss rate of 0, whatever else it handled. *)
Theorem quiet_server_reports_good inputs :
  latencies_within 100 inputs →
  quality (getNetworkQualitySuggestion (serve inputs)) = good
  ∧ (messageLossRate (getNetworkQualitySuggestion (serve inputs)) == 0)%Q.
Proof.
  intros Hin. destruct (calm_serve inputs Hin) as [Hd Hs].
  destruct (serve_ok inputs) as [_ [_ _ Havg _ _]].
  set (s := serve inputs) in *.
  assert (averageLatency (stats s) <= inject_Z 100)%Q as Ha.
  { rewrite Havg. destruct (messageLatencies s) as [|x l] eqn:El; [done|].
    rewrite <- El in *. apply mean_bound; [by rewrite El|done]. }
  unfold getNetworkQualitySuggestion. fold s. rewrite Hd.
  set (rate := if 0 <? messagesReceived (stats s) then _ else _).
  assert (rate == 0)%Q as Hrate.
  { subst rate. destruct (0 <? _); [|done].
    unfold Qdiv. by rewrite !Qmult_0_l. }
  assert (Qgtb (averageLatency (stats s)) (inject_Z 200) = false) as ->.
  { apply Qgtb_le. apply (Qle_trans _ (inject_Z 100)); [exact Ha|].
    by rewrite <- Zle_Qle. }
  assert (Qgtb (averageLatency (stats s)) (inject_Z 100) = false) as ->
    by by apply Qgtb_le.
  assert (Qgtb rate (inject_Z 10) = false) as ->.
  { apply Qgtb_le. rewrite Hrate. by rewrite <- (Zle_Qle 0). }
  assert (Qgtb rate (inject_Z 5) = false) as ->.
  { apply Qgtb_le. rewrite Hrate. by rewrite <- (Zle_Qle 0). }
  simpl. done.
Qed.

Lemma quiet_server_reports_good_witness :
  let inputs :=
    [Registry (JoinRoom 0 "s1" "r1" (Some "u"));
     Signaling 10 60 ∅ "s1"
       (mkMsg (Some "offer") None None None (Some "v=0") None None None)] in
  quality (getNetworkQualitySuggestion (serve inputs)) = good
  ∧ (messageLossRate (getNetworkQualitySuggestion (serve inputs)) == 0)%Q.
Proof.
  intros inputs. apply quiet_server_reports_good.
  repeat constructor. lia.
Defined.
End MonitorQuiet.

(** ** The server manager *)

Section ManagerProperties.
Import Manager.

(** X14.  [getServer] builds a server for a name once: a successful call leaves a
    manager on which the same call returns the same instance and changes
    nothing; a first call constructs the instance from the configuration
    registered under the name, or else from the default; the call throws,
    leaving the manager as it was, exactly when there is neither an instance
    nor a registered configuration nor a default. *)
Theorem getServer_builds_once name m :
  match getServer name m with
  | (m', Some server) =>
    getServer name m' = (m', Some server)
    ∧ hasServer name m' = true
    ∧ match servers m !! name with
      | Some cached => server = cached ∧ m' = m
      | None =>
        server = length (constructed m)
        ∧ ∃ config,
            constructed m' = constructed m ++ [config]
            ∧ match configs m !! name with
              | Some registered => config = registered
              | None => defaultConfig m = Some config
              end
      end
  | (m', None) =>
    m' = m ∧ servers m !! name = None ∧ configs m !! name = None
    ∧ defaultConfig m = None
  end.
Proof.
  unfold getServer, hasServer.
  destruct (servers m !! name) as [cached|] eqn:Es.
  - rewrite Es. split_and!; try done.
    all: try (rewrite bool_decide_eq_true_2; [done|by eexists]).
  - destruct (configs m !! name) as [registered|] eqn:Ec.
    + simpl. rewrite lookup_insert_eq. split_and!; try done.
      all: try (rewrite bool_decide_eq_true_2; [done|by eexists]).
      all: try by exists registered.
    + destruct (defaultConfig m) as [d|] eqn:Ed; [|done].
      simpl. rewrite lookup_insert_eq. split_and!; try done.
      all: try (rewrite bool_decide_eq_true_2; [done|by eexists]).
      all: try by exists d.
Qed.

(** X15.  [removeServer] closes the instance held for the name, if any, and
    forgets both the instance and the registered configuration, leaving
    every other name alone: afterwards [hasServer] is false, and [getServer]
    throws unless a default configuration exists, from which it then builds
    a new instance. *)
Theorem removeServer_forgets_the_name name m :
  let m1 := fst (removeServer name m) in
  snd (removeServer name m) = servers m !! name
  ∧ hasServer name m1 = false
  ∧ (∀ other, other ≠ name →
       servers m1 !! other = servers m !! other
       ∧ configs m1 !! other = configs m !! other)
  ∧ constructed m1 = constructed m
  ∧ match defaultConfig m with
    | None => getServer name m1 = (m1, None)
    | Some config =>
      snd (getServer name m1) = Some (length (constructed m))
      ∧ constructed (fst (getServer name m1)) = constructed m ++ [config]
    end.
Proof.
  intros m1. subst m1. unfold removeServer, hasServer, getServer.
  destruct (servers m !! name) as [server|] eqn:Es; simpl;
    rewrite ?lookup_delete_eq, ?Es; simpl.
  all: split_and!; try done.
  all: try (intros other Hne; by rewrite ?lookup_delete_ne).
  all: try (by destruct (defaultConfig m)).
  all: apply orb_false_iff; split; apply bool_decide_eq_false_2;
    rewrite ?Es; by intros [? ?].
Qed.

(** X16.  Registering a configuration under a name whose server already exists
    does not replace the server: [getServer] still returns the old instance
    and constructs nothing. *)
Theorem registering_again_keeps_the_running_server name config m server :
  servers m !! name = Some server →
  getServer name (registerServer name config m)
  = (registerServer name config m, Some server)
  ∧ constructed (registerServer name config m) = constructed m
  ∧ configs (registerServer name config m) !! name = Some config.
Proof.
  intros Hs. unfold getServer, registerServer. simpl. rewrite Hs.
  split_and!; try done. by rewrite lookup_insert_eq.
Qed.

Lemma registering_again_keeps_the_running_server_witness :
  let old := mkServerOptions (Some 3000) None None in
  let new := mkServerOptions (Some 4000) None None in
  let m := run None [RegisterServer "main" old; GetServer "main"] in
  getServer "main" (registerServer "main" new m)
  = (registerServer "main" new m, Some 0%nat)
  ∧ constructed (registerServer "main" new m) = constructed m
  ∧ configs (registerServer "main" new m) !! "main" = Some new.
Proof.
  intros old new m.
  apply (registering_again_keeps_the_running_server "main" new m 0%nat).
  vm_compute. reflexivity.
Defined.

Lemma manager_ok_call m c : manager_ok m → manager_ok (call m c).
Proof.
  intros [Hfresh Hown]. destruct c as [name config|name|name|]; simpl.
  - by split.
  - unfold getServer. destruct (servers m !! name) as [server|] eqn:Es;
      [by split|].
    destruct (match configs m !! name with
              | Some config => Some config
              | None => defaultConfig m
              end) as [config|]; [|by split].
    simpl. split; simpl.
    + intros n sv. rewrite length_app. simpl.
      destruct (decide (n = name)) as [->|Hne].
      * rewrite lookup_insert_eq. intros [= <-]. lia.
      * rewrite lookup_insert_ne by done. intros H%Hfresh. lia.
    + intros n1 n2 sv.
      destruct (decide (n1 = name)) as [->|Hne1];
        destruct (decide (n2 = name)) as [->|Hne2];
        rewrite ?lookup_insert_eq, ?lookup_insert_ne by done.
      * done.
      * intros [= <-] H%Hfresh. lia.
      * intros H%Hfresh [= <-]. lia.
      * apply Hown.
  - unfold removeServer. destruct (servers m !! name) as [server|] eqn:Es;
      simpl; [|by split].
    split; simpl.
    + intros n sv H%lookup_delete_Some. destruct H as [_ H]. by apply Hfresh in H.
    + intros n1 n2 sv [_ H1]%lookup_delete_Some [_ H2]%lookup_delete_Some.
      by apply (Hown _ _ sv).
  - split; simpl; intros *; by rewrite ?lookup_empty.
Qed.

Lemma manager_ok_run d calls : manager_ok (run d calls).
Proof.
  unfold run.
  assert (∀ m, manager_ok m → manager_ok (fold_left call calls m)) as H.
  { induction calls as [|c calls IH]; intros m Hm; simpl; [done|].
    by apply IH, manager_ok_call. }
  apply H. split; simpl; intros *; by rewrite ?lookup_empty.
Qed.

(** X17.  After any sequence of manager calls, no two names share a server, and
    [close] closes exactly the servers held, forgets them and keeps the
    registered configurations, so that [hasServer] answers by registration
    alone and a later [getServer] returns a server that was not among the
    closed ones. *)
Theorem close_keeps_registrations d calls :
  let m := run d calls in
  let m1 := fst (close m) in
  (∀ name1 name2 server,
     servers m !! name1 = Some server → servers m !! name2 = Some server →
     name1 = name2)
  ∧ (∀ server, server ∈ snd (close m) ↔ ∃ name, servers m !! name = Some server)
  ∧ servers m1 = ∅ ∧ configs m1 = configs m
  ∧ (∀ name, hasServer name m1 = bool_decide (is_Some (configs m !! name)))
  ∧ (∀ name server, snd (getServer name m1) = Some server →
       server ∉ snd (close m)).
Proof.
  intros m m1. destruct (manager_ok_run d calls) as [Hfresh Hown]. fold m in Hfresh, Hown.
  assert (∀ server, server ∈ snd (close m)
                    ↔ ∃ name, servers m !! name = Some server) as Hclosed.
  { intros server. unfold close. simpl. apply elem_of_map_img. }
  split_and!; try done.
  intros name server Hget Hin. apply Hclosed in Hin as (n & Hn).
  apply Hfresh in Hn. subst m1. unfold getServer, close in Hget.
  cbn [fst servers configs defaultConfig constructed] in Hget.
  rewrite lookup_empty in Hget.
  destruct (match configs m !! name with
            | Some config => Some config
            | None => defaultConfig m
            end); simpl in Hget; [|done].
  injection Hget as <-. lia.
Qed.
End ManagerProperties.

(** ** The configuration cache of the pool *)

Section PoolCache.
Import Pool.

Lemma getConfigKey_truthy config : truthy (getConfigKey config) = true.
Proof.
  unfold getConfigKey.
  destruct (if truthy_opt (iceTransportPolicy config)
            then default "" (iceTransportPolicy config) else ""); done.
Qed.

Lemma cacheConfig_ok key cache :
  truthy key = true →
  (length cache ≤ 10)%nat → NoDup cache → Forall (λ k, truthy k = true) cache →
  (length (cacheConfig key cache) ≤ 10)%nat
  ∧ NoDup (cacheConfig key cache)
  ∧ Forall (λ k, truthy k = true) (cacheConfig key cache)
  ∧ key ∈ cacheConfig key cache.
Proof.
  intros Hkey Hlen Hnd Hall. unfold cacheConfig.
  case_bool_decide as Hin; [done|].
  assert (NoDup (cache ++ [key])) as Hnd1.
  { apply NoDup_app. split_and!; [done| |apply NoDup_singleton].
    intros x Hx ->%list_elem_of_singleton. done. }
  assert (Forall (λ k, truthy k = true) (cache ++ [key])) as Hall1.
  { apply Forall_app. split; [done|]. by apply Forall_singleton. }
  assert (key ∈ cache ++ [key]) as Hin1.
  { apply elem_of_app. right. by apply list_elem_of_singleton. }
  destruct (10 <? Z.of_nat (length (cache ++ [key]))) eqn:E.
  - apply Z.ltb_lt in E. rewrite length_app in E. simpl in E.
    destruct cache as [|firstKey rest]; [simpl in E; lia|].
    simpl in *. inversion Hall as [|? ? Hfirst Hrest]; subst. rewrite Hfirst.
    inversion Hnd1; subst. inversion Hall1; subst.
    split_and!; try done.
    + rewrite length_app. simpl. lia.
    + apply elem_of_app. right. by apply list_elem_of_singleton.
  - apply Z.ltb_ge in E. split_and!; try done. lia.
Qed.

Lemma cache_ok_calls calls : ∀ p,
  forallb keyed calls = true →
  (length (configCache p) ≤ 10)%nat → NoDup (configCache p) →
  Forall (λ k, truthy k = true) (configCache p) →
  (length (configCache (fold_left call calls p)) ≤ 10)%nat
  ∧ NoDup (configCache (fold_left call calls p))
  ∧ Forall (λ k, truthy k = true) (configCache (fold_left call calls p)).
Proof.
  induction calls as [|c calls IH]; intros p Hk Hlen Hnd Hall; simpl; [done|].
  simpl in Hk. apply andb_true_iff in Hk as [Hc Hk].
  assert ((length (configCache (call p c)) ≤ 10)%nat
          ∧ NoDup (configCache (call p c))
          ∧ Forall (λ k, truthy k = true) (configCache (call p c)))
    as (H1 & H2 & H3); [|by apply IH].
  destruct c as [hasRTC key|pc|pc| |pc]; simpl in *.
  - destruct (cacheConfig_ok key (configCache p) Hc Hlen Hnd Hall)
      as (H1 & H2 & H3 & _).
    unfold acquire. by destruct hasRTC.
  - unfold release. by case_bool_decide.
  - done.
  - split_and!; [lia|apply NoDup_nil_2|done].
  - done.
Qed.

(** X18.  When every [acquire] is given a non-empty configuration key, as
    [getConfigKey] always produces, the configuration cache never holds more
    than 10 keys and holds none twice, whatever the calls; and an [acquire]
    leaves its key in the cache even when it throws for want of
    [RTCPeerConnection]. *)
Theorem config_cache_stays_small calls :
  forallb keyed calls = true →
  let p := run calls in
  (snap_configCacheSize (getStats p) ≤ 10)
  ∧ NoDup (configCache p)
  ∧ (∀ hasRTC config,
       getConfigKey config
       ∈ configCache (fst (acquire hasRTC (getConfigKey config) p)))
  ∧ (∀ config, keyed (Acquire true (getConfigKey config)) = true).
Proof.
  intros Hk p.
  destruct (cache_ok_calls calls empty Hk) as (Hlen & Hnd & Hall);
    [simpl; lia|apply NoDup_nil_2|done|].
  fold (run calls) in Hlen, Hnd, Hall. fold p in Hlen, Hnd, Hall.
  split_and!.
  - unfold getStats. simpl. lia.
  - done.
  - intros hasRTC config.
    destruct (cacheConfig_ok (getConfigKey config) (configCache p)
                (getConfigKey_truthy config) Hlen Hnd Hall) as (_ & _ & _ & Hin).
    unfold acquire. by destruct hasRTC.
  - intros config. apply getConfigKey_truthy.
Qed.

Lemma config_cache_stays_small_witness :
  let calls := [Acquire true "--"; Acquire false "relay--"; Clear;
                Acquire true "--"] in
  snap_configCacheSize (getStats (run calls)) ≤ 10.
Proof.
  intros calls.
  refine (proj1 (config_cache_stays_small calls _)).
  vm_compute. reflexivity.
Defined.

(** [release] counts a connection once: releasing again, or releasing a
    connection the pool does not hold as active, changes nothing; releasing
    an active connection moves it to the pending closes and adds one to
    [released]. *)
Theorem release_counts_a_connection_once pc p :
  release pc (release pc p) = release pc p
  ∧ (pc ∉ activeConnections p → release pc p = p)
  ∧ (pc ∈ activeConnections p →
     released (stats (release pc p)) = released (stats p) + 1
     ∧ created (stats (release pc p)) = created (stats p)
     ∧ activeConnections (release pc p) = activeConnections p ∖ {[pc]}
     ∧ pendingClose (release pc p) = {[pc]} ∪ pendingClose p).
Proof.
  split_and!.
  - unfold release at 2 3. case_bool_decide as Hin; simpl.
    + unfold release. simpl. rewrite bool_decide_eq_false_2; [done|set_solver].
    + unfold release. by rewrite bool_decide_eq_false_2.
  - intros Hin. unfold release. by rewrite bool_decide_eq_false_2.
  - intros Hin. unfold release. by rewrite bool_decide_eq_true_2.
Qed.
End PoolCache.

(** ** Forced modes and room notices *)

Section TopologyMore.
Import Client.

Lemma checkIfAuto_forced c :
  options_architectureMode c ≠ auto → checkIfAuto c = (c, []).
Proof. unfold checkIfAuto. by destruct (options_architectureMode c). Qed.

Lemma createPeerConnections_effects users : ∀ c effs e,
  e ∈ snd (fold_left createPeerConnectionForUser users (c, effs)) →
  e ∈ effs ∨ (∃ pc, e = AcquirePeerConnection pc)
  ∨ ∃ user pc, e = CreateOfferForUser user pc.
Proof.
  induction users as [|u users IH]; intros c effs e He; simpl in *; [by left|].
  destruct (peerConnections c !! u); [by apply IH in He|].
  apply IH in He as [He|He]; [|by right].
  apply elem_of_app in He as [He|He]; [by left|]. right.
  apply elem_of_cons in He as [->|He]; [left; by eexists|].
  apply list_elem_of_singleton in He as ->. right. by eexists _, _.
Qed.

(** X19.  Under a forced mode (mesh or sfu configured) no membership update
    changes the current mode or announces one, whatever the count becomes. *)
Theorem forced_mode_ignores_the_count u c :
  options_architectureMode c ≠ auto →
  is_membership_update u = true →
  currentArchitectureMode (fst (update u c)) = currentArchitectureMode c
  ∧ options_architectureMode (fst (update u c)) = options_architectureMode c
  ∧ (∀ m, EmitSignaling m ∉ snd (update u c))
  ∧ attemptsSfu (snd (update u c)) = false.
Proof.
  intros Hforced Hu. destruct u as [r i us|stable|i|mode]; simpl in *; [| | |done].
  - unfold onRoomJoined.
    rewrite checkIfAuto_forced by done.
    destruct (multiPeerMode _ && bool_decide _); simpl.
    + destruct (createPeerConnections_fields us
                  (set_room c (Some r) (Some i) (Z.of_nat (length us) + 1)) [])
        as (H1 & H2 & _).
      split_and!; [done|done| |by rewrite createPeerConnections_no_sfu].
      intros m Hin. apply createPeerConnections_effects in Hin
        as [Hin|[(pc & ?)|(user & pc & ?)]]; [by apply elem_of_nil in Hin|done|done].
    + split_and!; try done. intros m Hin. by apply elem_of_nil in Hin.
  - unfold onUserJoined. rewrite checkIfAuto_forced by done. simpl.
    split_and!; try done.
    + intros m Hin. rewrite app_nil_r in Hin.
      destruct (peerConnection c); [destruct stable|];
        [apply list_elem_of_singleton in Hin; done|by apply elem_of_nil in Hin
        |by apply elem_of_nil in Hin].
    + by repeat case_match.
  - unfold onUserLeft. destruct (multiPeerMode c).
    + unfold removePeerConnectionForUser.
      destruct (peerConnections c !! i) as [pc|];
        rewrite checkIfAuto_forced by done; simpl; split_and!; try done.
      * intros m Hin. apply list_elem_of_singleton in Hin. done.
      * intros m Hin. by apply elem_of_nil in Hin.
    + rewrite checkIfAuto_forced by done. simpl. split_and!; try done.
      intros m Hin. by apply elem_of_nil in Hin.
Qed.

Lemma forced_mode_ignores_the_count_witness :
  let c := constructor (mkOptions (Some mesh) (Some 2) true) in
  let u := RoomJoined "r" "me" ["a"; "b"; "c"] in
  currentArchitectureMode (fst (update u c)) = currentArchitectureMode c
  ∧ options_architectureMode (fst (update u c)) = options_architectureMode c
  ∧ (∀ m, EmitSignaling m ∉ snd (update u c))
  ∧ attemptsSfu (snd (update u c)) = false.
Proof.
  intros c u. apply forced_mode_ignores_the_count; [discriminate|reflexivity].
Defined.
End TopologyMore.

Section TopologyNotice.
Import Client.

Lemma elem_of_close_fmap (e : Effect) (pcs : list nat) :
  e ∈ ClosePeerConnection <$> pcs ↔ ∃ pc, e = ClosePeerConnection pc ∧ pc ∈ pcs.
Proof. apply list_elem_of_fmap. Qed.

(** X20.  Leaving mesh, for whatever other mode, closes exactly the connections
    the client holds (the single one and the per-user ones), drops them
    all, acquires none, and announces the new mode. *)
Theorem leaving_mesh_closes_every_connection mode c :
  currentArchitectureMode c = mesh → mode ≠ mesh →
  let c' := fst (switchArchitecture mode c) in
  let effs := snd (switchArchitecture mode c) in
  currentArchitectureMode c' = mode
  ∧ peerConnection c' = None ∧ peerConnections c' = ∅
  ∧ (∀ pc, ClosePeerConnection pc ∈ effs
           ↔ peerConnection c = Some pc
             ∨ ∃ user, peerConnections c !! user = Some pc)
  ∧ (∀ pc, AcquirePeerConnection pc ∉ effs)
  ∧ EmitSignaling (architectureModeMessage mode (roomId c)) ∈ effs.
Proof.
  intros Hmesh Hmode c' effs. subst c' effs. unfold switchArchitecture.
  rewrite Hmesh. rewrite decide_False by done.
  set (closing := (ClosePeerConnection <$> (map_to_list (peerConnections c)).*2)
                  ++ match peerConnection c with
                     | Some pc => [ClosePeerConnection pc]
                     | None => []
                     end).
  assert (∀ pc, ClosePeerConnection pc ∈ closing
                ↔ peerConnection c = Some pc
                  ∨ ∃ user, peerConnections c !! user = Some pc) as Hclosing.
  { intros pc. subst closing. rewrite elem_of_app, elem_of_close_fmap. split.
    - intros [(pc' & [= <-] & Hin)|Hin].
      + right. apply list_elem_of_fmap in Hin as ([user pc''] & -> & Hin).
        exists user. by apply elem_of_map_to_list.
      + left. destruct (peerConnection c) as [pc'|];
          [|by apply elem_of_nil in Hin].
        apply list_elem_of_singleton in Hin. congruence.
    - intros [Hpc|(user & Hu)].
      + right. rewrite Hpc. by apply list_elem_of_singleton.
      + left. exists pc. split; [done|]. apply list_elem_of_fmap.
        exists (user, pc). split; [done|]. by apply elem_of_map_to_list. }
  assert (∀ pc, AcquirePeerConnection pc ∉ closing) as Hnoacq.
  { intros pc Hin. apply Hclosing || idtac. subst closing.
    apply elem_of_app in Hin as [Hin|Hin].
    - apply elem_of_close_fmap in Hin as (? & ? & _). done.
    - destruct (peerConnection c); [apply list_elem_of_singleton in Hin; done|].
      by apply elem_of_nil in Hin. }
  destruct mode; [done| |]; simpl.
  - destruct (sfuAdapter c && truthy_opt (roomId c)); simpl.
    + split_and!; try done.
      * intros pc. rewrite elem_of_app, Hclosing. split; [|by left].
        intros [?|Hin]; [done|]. exfalso.
        apply elem_of_cons in Hin as [?|Hin]; [done|].
        apply elem_of_cons in Hin as [?|Hin]; [done|].
        destruct (localStream c); [apply list_elem_of_singleton in Hin; done|].
        by apply elem_of_nil in Hin.
      * intros pc Hin. apply elem_of_app in Hin as [Hin|Hin]; [by apply Hnoacq in Hin|].
        apply elem_of_cons in Hin as [?|Hin]; [done|].
        apply elem_of_cons in Hin as [?|Hin]; [done|].
        destruct (localStream c); [apply list_elem_of_singleton in Hin; done|].
        by apply elem_of_nil in Hin.
      * apply elem_of_app. right. apply list_elem_of_here.
    + split_and!; try done.
      * intros pc. rewrite elem_of_app, Hclosing. split; [|by left].
        intros [?|Hin]; [done|]. exfalso.
        apply elem_of_cons in Hin as [?|Hin]; [done|].
        by apply elem_of_nil in Hin.
      * intros pc Hin. apply elem_of_app in Hin as [Hin|Hin]; [by apply Hnoacq in Hin|].
        apply elem_of_cons in Hin as [?|Hin]; [done|].
        by apply elem_of_nil in Hin.
      * apply elem_of_app. right. apply list_elem_of_here.
  - split_and!; try done.
    + intros pc. rewrite elem_of_app, Hclosing. split; [|by left].
      intros [?|Hin]; [done|]. exfalso.
      apply elem_of_cons in Hin as [?|Hin]; [done|].
      by apply elem_of_nil in Hin.
    + intros pc Hin. apply elem_of_app in Hin as [Hin|Hin]; [by apply Hnoacq in Hin|].
      apply elem_of_cons in Hin as [?|Hin]; [done|].
      by apply elem_of_nil in Hin.
    + apply elem_of_app. right. apply list_elem_of_here.
Qed.

Lemma leaving_mesh_closes_every_connection_witness :
  let c := fst (initializePeerConnection
                  (constructor (mkOptions None None true))) in
  ClosePeerConnection 0 ∈ snd (switchArchitecture sfu c)
  ↔ peerConnection c = Some 0%nat
    ∨ ∃ user, peerConnections c !! user = Some 0%nat.
Proof.
  intros c.
  refine (proj1 (proj2 (proj2 (proj2
            (leaving_mesh_closes_every_connection sfu c _ _)))) 0%nat).
  - reflexivity.
  - discriminate.
Defined.

(** X21.  A room notice is obeyed whatever the configured mode: one that names the
    current mode does nothing; any other leaves the client in the named
    mode, and the client announces that mode itself. *)
Theorem room_notice_is_obeyed_and_echoed mode c :
  currentArchitectureMode (fst (update (ArchitectureModeNotice mode) c)) = mode
  ∧ (mode = currentArchitectureMode c →
     update (ArchitectureModeNotice mode) c = (c, []))
  ∧ (mode ≠ currentArchitectureMode c →
     EmitSignaling (architectureModeMessage mode (roomId c))
     ∈ snd (update (ArchitectureModeNotice mode) c)).
Proof.
  simpl. unfold onArchitectureMode. split_and!.
  - case_decide; [done|]. apply switchArchitecture_fields.
  - intros ->. by rewrite decide_True.
  - intros Hne. rewrite decide_False by done.
    unfold switchArchitecture. rewrite decide_False by done.
    destruct (currentArchitectureMode c); simpl.
    all: match goal with
         | |- context [let '(_, _) := ?x in _] => destruct x as [c3 opening] eqn:E
         end.
    all: simpl; rewrite ?elem_of_app; try (right; left; apply list_elem_of_here).
    all: try (left; apply list_elem_of_here).
Qed.

Lemma update_keeps_count_nonnegative u c :
  0 ≤ roomUserCount c → 0 ≤ roomUserCount (fst (update u c)).
Proof.
  intros Hc.
  assert (∀ c1, roomUserCount (fst (checkIfAuto c1)) = roomUserCount c1) as Hchk.
  { intros c1. unfold checkIfAuto, checkAndSwitchArchitecture.
    destruct (options_architectureMode c1); try done.
    repeat case_match; try done; apply switchArchitecture_fields. }
  destruct u as [r i us|stable|i|mode]; simpl.
  - unfold onRoomJoined.
    pose proof (Hchk (set_room c (Some r) (Some i) (Z.of_nat (length us) + 1)))
      as H. destruct (checkIfAuto _) as [c2 e2]. simpl in H.
    destruct (multiPeerMode c2 && _).
    + destruct (createPeerConnections_fields us c2 e2) as (_ & _ & _ & -> & _).
      rewrite H. lia.
    + simpl. rewrite H. lia.
  - unfold onUserJoined.
    pose proof (Hchk (set_room c (roomId c) (userId c) (roomUserCount c + 1)))
      as H. destruct (checkIfAuto _) as [c2 e2]. simpl in *. lia.
  - unfold onUserLeft.
    destruct (if multiPeerMode c then removePeerConnectionForUser i c
              else (c, [])) as [c0 e0].
    pose proof (Hchk (set_room c0 (roomId c0) (userId c0)
                        (Z.max 0 (roomUserCount c0 - 1)))) as H.
    destruct (checkIfAuto _) as [c2 e2]. simpl in *. lia.
  - unfold onArchitectureMode. case_decide; [done|].
    destruct (switchArchitecture_fields mode c) as (_ & _ & _ & -> & _). done.
Qed.

(** X22.  The room count the client keeps is never negative, whatever updates
    arrive and in whatever order, and right after [room-joined] it is the
    number of listed users plus one. *)
Theorem room_count_never_negative o us :
  0 ≤ roomUserCount (updates (constructor o) us)
  ∧ ∀ r i users,
      roomUserCount
        (fst (update (RoomJoined r i users) (updates (constructor o) us)))
      = Z.of_nat (length users) + 1.
Proof.
  split.
  - unfold updates.
    assert (∀ c, 0 ≤ roomUserCount c →
                 0 ≤ roomUserCount (fold_left (λ c u, fst (update u c)) us c))
      as H.
    { induction us as [|u us IH]; intros c Hc; simpl; [done|].
      by apply IH, update_keeps_count_nonnegative. }
    apply H. by destruct o as [[[]|] [] []].
  - intros r i users. set (c := updates (constructor o) us). simpl.
    unfold onRoomJoined.
    assert (∀ c1, roomUserCount (fst (checkIfAuto c1)) = roomUserCount c1) as Hchk.
    { intros c1. unfold checkIfAuto, checkAndSwitchArchitecture.
      destruct (options_architectureMode c1); try done.
      repeat case_match; try done; apply switchArchitecture_fields. }
    pose proof (Hchk (set_room c (Some r) (Some i) (Z.of_nat (length users) + 1)))
      as H. destruct (checkIfAuto _) as [c2 e2]. simpl in H.
    destruct (multiPeerMode c2 && _); [|done].
    by destruct (createPeerConnections_fields users c2 e2) as (_ & _ & _ & -> & _).
Qed.
End TopologyNotice.

(** ** Batching of ICE candidates *)

Section IceBatching.
Import IceBatch.

Lemma sendSignaling_fold ms : ∀ c effs,
  let r := fold_left sendSignaling ms (c, effs) in
  iceCandidates (fst r) = iceCandidates c
  ∧ iceCandidateTimers (fst r) = iceCandidateTimers c
  ∧ roomId (fst r) = roomId c ∧ userId (fst r) = userId c
  ∧ stats_messagesSent (fst r) = stats_messagesSent c + Z.of_nat (length ms)
  ∧ ∃ sent, snd r = effs ++ (SocketEmit <$> sent)
      ∧ msg_to <$> sent = msg_to <$> ms
      ∧ msg_candidate <$> sent = msg_candidate <$> ms
      ∧ msg_type <$> sent = msg_type <$> ms
      ∧ Forall (λ m,
          (truthy_opt (roomId c) = true → msg_roomId m = roomId c)
          ∧ (truthy_opt (userId c) = true → msg_from m = userId c)) sent.
Proof.
  induction ms as [|m ms IH]; intros c effs; simpl.
  - split_and!; try done; [lia|]. exists []. by rewrite app_nil_r.
  - match goal with
    | |- context [fold_left sendSignaling ms (?c1, ?e1)] =>
      destruct (IH c1 e1)
        as (H1 & H2 & H3 & H4 & H5 & sent & H6 & H7 & H8 & H9 & H10)
    end.
    simpl in *. rewrite H1, H2, H3, H4, H5. split_and!; try done; [lia|].
    eexists (_ :: sent). rewrite H6, <- app_assoc. split; [done|].
    rewrite !fmap_cons, H7, H8, H9. split_and!.
    + by destruct (truthy_opt (roomId c)), (truthy_opt (userId c)).
    + by destruct (truthy_opt (roomId c)), (truthy_opt (userId c)).
    + by destruct (truthy_opt (roomId c)), (truthy_opt (userId c)).
    + apply Forall_cons. split; [|done].
      destruct (truthy_opt (roomId c)), (truthy_opt (userId c)); done.
Qed.

Lemma emitted_app user effs1 effs2 :
  emitted user (effs1 ++ effs2) = emitted user effs1 ++ emitted user effs2.
Proof. unfold emitted. apply omap_app. Qed.

Lemma gathered_app user ev1 ev2 :
  gathered user (ev1 ++ ev2) = gathered user ev1 ++ gathered user ev2.
Proof. unfold gathered. apply omap_app. Qed.

Lemma recipient_inj user1 user2 : recipient user1 = recipient user2 → user1 = user2.
Proof. unfold recipient. repeat case_decide; congruence. Qed.

Lemma emitted_batch user user' (sent : list SignalingMessage) candidates :
  msg_to <$> sent = msg_to <$> (candidateMessage user' <$> candidates) →
  msg_candidate <$> sent
  = msg_candidate <$> (candidateMessage user' <$> candidates) →
  emitted user (SocketEmit <$> sent)
  = if decide (user' = user) then candidates else [].
Proof.
  revert sent. induction candidates as [|x candidates IH]; intros sent Hto Hc.
  - destruct sent; [|done]. simpl. by case_decide.
  - destruct sent as [|m sent]; [done|]. rewrite !fmap_cons in *.
    injection Hto as Hto1 Hto. injection Hc as Hc1 Hc.
    specialize (IH sent Hto Hc).
    change (SocketEmit m :: (SocketEmit <$> sent))
      with ([SocketEmit m] ++ (SocketEmit <$> sent)).
    rewrite emitted_app, IH. unfold emitted. simpl. rewrite Hto1, Hc1.
    destruct (decide (user' = user)) as [->|Hne].
    + by rewrite decide_True.
    + rewrite decide_False; [done|]. intros H%recipient_inj. done.
Qed.

Lemma sentMessages_app effs1 effs2 :
  sentMessages (effs1 ++ effs2) = sentMessages effs1 ++ sentMessages effs2.
Proof. unfold sentMessages. apply omap_app. Qed.

Lemma sentMessages_emits sent : sentMessages (SocketEmit <$> sent) = sent.
Proof.
  induction sent as [|m sent IH]; [done|].
  rewrite fmap_cons. change (sentMessages (SocketEmit m :: (SocketEmit <$> sent)))
    with (m :: sentMessages (SocketEmit <$> sent)). by rewrite IH.
Qed.

Lemma batch_ok_handle events c effs e :
  batch_ok events c effs →
  batch_ok (events ++ [e]) (fst (handle (c, effs) e)) (snd (handle (c, effs) e))
  ∧ roomId (fst (handle (c, effs) e)) = roomId c
  ∧ userId (fst (handle (c, effs) e)) = userId c.
Proof.
  intros [Hcons Htimer Hne Hsent Hst]. destruct e as [u x|u]; simpl.
  - unfold collectIceCandidate, scheduleIceCandidateSend. simpl.
    assert (∀ extra, sentMessages extra = [] → emitted u extra = [] →
              (∀ user, emitted user extra = []) →
              ∀ timers',
                (∀ user, user ∈ timers' ↔ user = u ∨ user ∈ iceCandidateTimers c) →
                batch_ok (events ++ [Candidate u x])
                  (mkClient (<[u := default [] (iceCandidates c !! u) ++ [x]]>
                               (iceCandidates c)) timers' (roomId c) (userId c)
                     (stats_messagesSent c))
                  (effs ++ extra)) as Hgen.
    { intros extra Hs _ He timers' Ht. split; simpl.
      - intros user. rewrite emitted_app, He, app_nil_r, gathered_app.
        unfold gathered at 2. simpl.
        destruct (decide (u = user)) as [->|Hneq].
        + rewrite lookup_insert_eq. simpl. by rewrite app_assoc, Hcons.
        + rewrite lookup_insert_ne by done. by rewrite app_nil_r.
      - intros user. rewrite Ht, Htimer.
        destruct (decide (u = user)) as [->|Hneq].
        + rewrite lookup_insert_eq. split; [done|by left].
        + rewrite lookup_insert_ne by done. split; [by intros [?|?]|by right].
      - intros user. destruct (decide (u = user)) as [->|Hneq].
        + rewrite lookup_insert_eq. intros [= H]. by destruct (default [] _).
        + rewrite lookup_insert_ne by done. apply Hne.
      - by rewrite sentMessages_app, Hs, app_nil_r.
      - by rewrite sentMessages_app, Hs, app_nil_r. }
    case_decide as Hin; simpl.
    + split; [|done]. apply Hgen; try done. intros user. split; [by right|].
      by intros [->|?].
    + split; [|done]. apply Hgen; try done. intros user. set_solver.
  - unfold sendBatch.
    destruct (iceCandidates c !! u) as [[|x rest]|] eqn:Eu.
    + by destruct (Hne u).
    + pose proof (sendSignaling_fold (candidateMessage u <$> x :: rest) c [])
        as (H1 & H2 & H3 & H4 & H5 & sent & H6 & H7 & H8 & H9 & H10).
      destruct (fold_left sendSignaling (candidateMessage u <$> x :: rest) (c, []))
        as [c0 e0].
      simpl in H1, H2, H3, H4, H5, H6. subst e0. simpl.
      rewrite H1, H2, H3, H4, H5. split; [|done]. split; simpl.
      * intros user. rewrite emitted_app, gathered_app.
        unfold gathered at 2. simpl. rewrite app_nil_r.
        rewrite (emitted_batch user u sent (x :: rest) H7 H8).
        rewrite <- Hcons.
        destruct (decide (u = user)) as [->|Hneq].
        -- rewrite lookup_delete_eq, Eu. simpl. by rewrite app_nil_r.
        -- rewrite lookup_delete_ne by done. by rewrite app_nil_r.
      * intros user. rewrite elem_of_difference, elem_of_singleton, Htimer.
        destruct (decide (u = user)) as [->|Hneq].
        -- rewrite lookup_delete_eq. split; [by intros [_ ?]|by intros [? ?]].
        -- rewrite lookup_delete_ne by done. split; [by intros [? _]|done].
      * intros user. destruct (decide (u = user)) as [->|Hneq].
        -- by rewrite lookup_delete_eq.
        -- rewrite lookup_delete_ne by done. apply Hne.
      * rewrite sentMessages_app, sentMessages_emits, length_app, Hsent.
        rewrite <- (length_fmap msg_to sent), H7, !length_fmap. simpl. lia.
      * rewrite sentMessages_app, sentMessages_emits. apply Forall_app.
        split; [done|]. apply Forall_forall. intros m Hm.
        rewrite Forall_forall in H10. destruct (H10 m Hm) as [Hr Hf].
        split_and!; try done.
        assert (Forall (λ ty, ty = Some "ice-candidate") (msg_type <$> sent))
          as Hty.
        { rewrite H9. apply Forall_fmap, Forall_fmap, Forall_forall. done. }
        rewrite Forall_fmap, Forall_forall in Hty. by apply Hty.
    + simpl. split; [|done]. split; simpl.
      * intros user. rewrite app_nil_r, gathered_app. unfold gathered at 2.
        simpl. by rewrite app_nil_r.
      * intros user. rewrite elem_of_difference, elem_of_singleton, Htimer.
        split; [by intros [? _]|]. intros Hs. split; [done|]. intros ->.
        rewrite Eu in Hs. by destruct Hs.
      * done.
      * by rewrite app_nil_r.
      * by rewrite app_nil_r.
Qed.

(** X23.  Whatever candidates are collected and whatever timers fire, for every
    peer the candidates already put on the socket followed by those still
    held are exactly the candidates collected for that peer, in order: none
    is lost, repeated or reordered.  Held candidates always have a timer
    pending, every emitted message is an ice-candidate stamped with the
    room and user ids when set, and [messagesSent] counts them. *)
Theorem candidates_are_sent_once_in_order room user events :
  let c := fst (run room user events) in
  let effs := snd (run room user events) in
  (∀ peer,
     emitted peer effs ++ default [] (iceCandidates c !! peer)
     = gathered peer events)
  ∧ (∀ peer, is_Some (iceCandidates c !! peer) → peer ∈ iceCandidateTimers c)
  ∧ stats_messagesSent c = Z.of_nat (length (sentMessages effs))
  ∧ Forall (λ m,
      msg_type m = Some "ice-candidate"
      ∧ (truthy_opt room = true → msg_roomId m = room)
      ∧ (truthy_opt user = true → msg_from m = user))
    (sentMessages effs).
Proof.
  intros c effs. subst c effs. unfold run.
  assert (∀ done c effs,
            batch_ok done c effs → roomId c = room → userId c = user →
            batch_ok (done ++ events) (fst (fold_left handle events (c, effs)))
              (snd (fold_left handle events (c, effs)))
            ∧ roomId (fst (fold_left handle events (c, effs))) = room
            ∧ userId (fst (fold_left handle events (c, effs))) = user) as H.
  { induction events as [|e events IH]; intros done c effs Hok Hr Hu.
    - simpl. by rewrite app_nil_r.
    - cbn [fold_left].
      destruct (batch_ok_handle done c effs e Hok) as (Hok' & Hr' & Hu').
      destruct (handle (c, effs) e) as [c1 e1]. cbn [fst snd] in *.
      replace (done ++ e :: events) with ((done ++ [e]) ++ events)
        by (by rewrite <- app_assoc).
      apply IH; [done|congruence|congruence]. }
  destruct (H [] (joined room user) []) as ([H1 H2 H3 H4 H5] & Hr & Hu);
    [|done|done|].
  { split; simpl; try done.
    - intros peer. rewrite lookup_empty. split; [set_solver|by intros [? ?]]. }
  simpl in *. rewrite Hr, Hu in H5. split_and!; try done.
  intros peer. apply H2.
Qed.
End IceBatching.

(** ** The first network measurement *)

Section FirstMeasurement.
Import Client.

Lemma targetQuality_low_bandwidth n :
  (bandwidth n < inject_Z 500000)%Q → targetQuality n = low.
Proof.
  intros Hb. unfold targetQuality.
  assert (Qltb (bandwidth n) (inject_Z 500000) = true) as ->
    by by apply Qltb_lt.
  repeat case_match; done.
Qed.

(** X24.  The first network check of a client that publishes a local stream
    always selects the low tier, whatever the reports say: the bandwidth
    estimate is only updated from the second check on, so the first check
    still sees the initial estimate of 0. *)
Theorem first_quality_check_selects_low timestamp reports c :
  hasMeasuredConnection c = true →
  localStream c = true →
  lastUpdate (networkStats c) ≤ 0 →
  (bandwidth (networkStats c) < inject_Z 500000)%Q →
  let c' := fst (checkNetworkQuality timestamp (Some reports) c) in
  currentQuality c' = low
  ∧ snd (checkNetworkQuality timestamp (Some reports) c)
    = (if decide (currentQuality c = low) then []
       else [ApplyQualitySettings low])
  ∧ bandwidth (networkStats c') = bandwidth (networkStats c)
  ∧ lastUpdate (networkStats c') = timestamp.
Proof.
  intros Hpc Hstream Hlast Hbw c'. subst c'. unfold checkNetworkQuality.
  rewrite Hpc. cbn [negb].
  assert ((0 <? lastUpdate (networkStats c)) = false) as ->
    by (apply Z.ltb_ge; lia).
  rewrite andb_false_r.
  set (n := mkNetworkStats _ _ _ _).
  unfold adjustMediaQuality. cbn [localStream set_networkStats networkStats].
  rewrite Hstream. cbn [negb].
  rewrite (targetQuality_low_bandwidth n) by done.
  cbn [currentQuality set_networkStats].
  destruct (decide (low = currentQuality c)) as [Hq|Hq].
  - rewrite decide_True by done. simpl. by rewrite <- Hq.
  - rewrite decide_False by done. done.
Qed.

Lemma first_quality_check_selects_low_witness :
  let c := mkClient auto 10 false mesh 2 (Some "r") (Some "me") false
             (Some 0%nat) ∅ true 1%nat ∅ 0 0 high
             (mkNetworkStats 0%Q 0%Q 0%Q 0) in
  let reports := [InboundRtp (Some (inject_Z 9000000)) (Some 0%Q)
                    (Some (inject_Z 7000));
                  CandidatePair true (Some 0%Q)] in
  currentQuality (fst (checkNetworkQuality 1700000000000 (Some reports) c))
  = low.
Proof.
  intros c reports.
  refine (proj1 (first_quality_check_selects_low 1700000000000 reports c
                   _ _ _ _)).
  - reflexivity.
  - reflexivity.
  - simpl. lia.
  - reflexivity.
Defined.
End FirstMeasurement.

(** ** Event listeners *)

Section ListenerProperties.
Import Events.

(** X25.  [off] with a callback removes every registration of that callback for
    the event, keeps the other callbacks in their order, forgets the event
    when none is left and leaves other events alone; [off] without a
    callback silences the event; [on] appends, so a callback registered
    twice is invoked twice. *)
Theorem off_removes_every_registration event callback l :
  emit event (off event (Some callback) l)
  = filter (λ cb, cb ≠ callback) (emit event l)
  ∧ (callback ∉ emit event (off event (Some callback) l))
  ∧ (filter (λ cb, cb ≠ callback) (emit event l) = [] →
     off event (Some callback) l !! event = None)
  ∧ (∀ other, other ≠ event →
       off event (Some callback) l !! other = l !! other)
  ∧ emit event (off event None l) = []
  ∧ emit event (on event callback l) = emit event l ++ [callback].
Proof.
  assert (emit event (off event (Some callback) l)
          = filter (λ cb, cb ≠ callback) (emit event l)) as Hemit.
  { unfold emit, off. cbv zeta.
    match goal with
    | |- context [(length ?f =? 0)%nat] => destruct (length f =? 0)%nat eqn:E
    end.
    - apply Nat.eqb_eq in E. apply nil_length_inv in E. rewrite E.
      by rewrite lookup_delete_eq.
    - by rewrite lookup_insert_eq. }
  split_and!.
  - done.
  - rewrite Hemit. intros Hin%list_elem_of_filter. by destruct Hin.
  - intros Hnil. unfold off, emit in *. cbv zeta. rewrite Hnil. simpl.
    by rewrite lookup_delete_eq.
  - intros other Hne. unfold off. cbv zeta. case_match.
    + by rewrite lookup_delete_ne.
    + by rewrite lookup_insert_ne.
  - unfold emit, off. by rewrite lookup_delete_eq.
  - unfold emit, on. cbv zeta. by rewrite lookup_insert_eq.
Qed.

Lemma listeners_nonempty calls event :
  run calls !! event ≠ Some [].
Proof.
  unfold run.
  assert (∀ l : gmap string (list nat), (∀ e, l !! e ≠ Some []) →
               ∀ e, fold_left call calls l !! e ≠ Some []) as H.
  { induction calls as [|c calls IH]; intros l Hl; simpl; [done|].
    apply IH. intros e. destruct c as [ev cb|ev [cb|]]; simpl.
    - unfold on. cbv zeta. destruct (decide (ev = e)) as [->|Hne].
      + rewrite lookup_insert_eq. intros [= H]. by destruct (default [] _).
      + rewrite lookup_insert_ne by done. apply Hl.
    - unfold off. cbv zeta.
      match goal with
      | |- context [(length ?f =? 0)%nat] => destruct (length f =? 0)%nat eqn:E
      end.
      + destruct (decide (ev = e)) as [->|Hne].
        * by rewrite lookup_delete_eq.
        * rewrite lookup_delete_ne by done. apply Hl.
      + destruct (decide (ev = e)) as [->|Hne].
        * rewrite lookup_insert_eq. intros [= H]. rewrite H in E. done.
        * rewrite lookup_insert_ne by done. apply Hl.
    - destruct (decide (ev = e)) as [->|Hne].
      + by rewrite lookup_delete_eq.
      + rewrite lookup_delete_ne by done. apply Hl. }
  apply H. intros e. by rewrite lookup_empty.
Qed.

(** X26.  After any sequence of [on] and [off] calls, registering a callback that
    is not yet registered for the event and removing it again gives back
    exactly the listeners there were. *)
Theorem on_then_off_restores calls event callback :
  callback ∉ emit event (run calls) →
  off event (Some callback) (on event callback (run calls)) = run calls.
Proof.
  intros Hnot. pose proof (listeners_nonempty calls event) as Hne.
  set (l := run calls) in *. clearbody l. unfold emit in Hnot.
  unfold off, on. cbv zeta.
  assert (∃ xs, xs = default [] (l !! event)) as (xs & Exs) by by eexists.
  rewrite <- Exs in *. rewrite lookup_insert_eq.
  change (default [] (Some (xs ++ [callback]))) with (xs ++ [callback]).
  match goal with
  | |- context [@filter _ _ _ ?P ?D (xs ++ [callback])] =>
    assert (@filter _ _ _ P D (xs ++ [callback]) = xs) as ->
  end.
  { rewrite filter_app, filter_cons_False, filter_nil, app_nil_r by naive_solver.
    clear Exs Hne. induction xs as [|x xs IH]; [done|].
    rewrite filter_cons_True.
    - f_equal. apply IH. intros Hin. apply Hnot. by apply list_elem_of_further.
    - intros ->. apply Hnot. apply list_elem_of_here. }
  destruct (l !! event) as [[|x ys]|] eqn:El; simpl in Exs; subst xs; simpl.
  - done.
  - rewrite insert_insert_eq. by apply insert_id.
  - rewrite delete_insert_eq. by apply delete_id.
Qed.

Lemma on_then_off_restores_witness :
  let calls := [On "track" 1%nat; On "stream" 2%nat; Off "track" None] in
  off "stream" (Some 7%nat) (on "stream" 7%nat (run calls)) = run calls.
Proof.
  intros calls. apply on_then_off_restores.
  vm_compute. intros Hin. apply list_elem_of_singleton in Hin. discriminate.
Defined.
End ListenerProperties.

(** ** The SFU adapter *)

Section SfuProperties.
Import Sfu.

Lemma adapter_ok_call a c : adapter_ok a → adapter_ok (fst (call a c)).
Proof.
  intros Hok. pose proof Hok as [Hc Hl Hf].
  assert (∀ u, adapter_ok (fst (unsubscribe u a))) as Hun.
  { intros u. unfold unsubscribe. destruct (connected a) eqn:Ec; simpl; [|done].
    destruct (remoteStreams a !! u); simpl; split; simpl; done. }
  destruct c as [|hasRTC| |stream n|u|u stream|u|m|ev cb|ev cb]; simpl.
  - by split.
  - unfold connect. destruct (connected a) eqn:Ec; simpl; [done|].
    destruct hasRTC; simpl; [|done].
    split; simpl.
    + split; [intros _; by eexists|done].
    + intros Hs. apply Hl in Hs. congruence.
    + intros pc [= <-]. lia.
  - unfold disconnect. destruct (connected a) eqn:Ec; simpl; [|done].
    split; simpl.
    + split; [done|by intros [? ?]].
    + by intros [? ?].
    + done.
  - unfold publish. destruct (peerConnection a) as [pc|] eqn:Ep; simpl; [|done].
    destruct (connected a) eqn:Ec; simpl; [|done].
    destruct n; simpl; split; simpl; rewrite ?Ep; try done.
  - unfold subscribe. destruct (peerConnection a) as [pc|] eqn:Ep; simpl; [|done].
    by destruct (connected a) eqn:Ec.
  - by split.
  - apply Hun.
  - unfold handleSignaling.
    destruct (peerConnection a) as [pc|] eqn:Ep; simpl; [|done].
    destruct (connected a) eqn:Ec; simpl; [|done].
    destruct (msg_type m) as [ty|]; [|done].
    destruct (String.eqb ty "sfu-stream-published"); [done|].
    destruct (String.eqb ty "sfu-stream-unpublished"); [apply Hun|].
    destruct (String.eqb ty "answer"); [done|].
    by destruct (String.eqb ty "ice-candidate").
  - by split.
  - unfold off. destruct (eventListeners a !! ev); simpl; [by split|done].
Qed.

Lemma adapter_ok_run url calls : adapter_ok (run url calls).
Proof.
  unfold run.
  assert (∀ a, adapter_ok a →
               adapter_ok (fold_left (λ a c, fst (call a c)) calls a)) as H.
  { induction calls as [|c calls IH]; intros a Ha; simpl; [done|].
    by apply IH, adapter_ok_call. }
  apply H. split; simpl; [split; [done|by intros [? ?]]|by intros [? ?]|done].
Qed.

(** X27.  After any sequence of calls the adapter is marked connected exactly
    when it holds a connection, and it holds a local stream only while
    connected; so [subscribe] and [publish] are refused exactly when the
    adapter is not connected, and a signaling message handed to an adapter
    that is not connected has no effect. *)
Theorem adapter_connected_iff_has_connection url calls :
  let a := run url calls in
  (connected a = true ↔ is_Some (peerConnection a))
  ∧ (is_Some (localStream a) → connected a = true)
  ∧ (∀ userId, snd (subscribe userId a) = Threw ↔ connected a = false)
  ∧ (∀ stream sdp,
       snd (publish stream (Negotiated sdp) a) = Threw ↔ connected a = false)
  ∧ (∀ message, connected a = false → handleSignaling message a = (a, [])).
Proof.
  intros a. destruct (adapter_ok_run url calls) as [Hc Hl _]. fold a in Hc, Hl.
  split_and!; try done.
  - intros u. unfold subscribe.
    destruct (peerConnection a) as [pc|] eqn:Ep.
    + destruct (connected a); simpl; split; done.
    + destruct (connected a) eqn:Ec; [|done].
      destruct (proj1 Hc eq_refl) as [? ?]. done.
  - intros stream sdp. unfold publish.
    destruct (peerConnection a) as [pc|] eqn:Ep.
    + destruct (connected a); simpl; split; done.
    + destruct (connected a) eqn:Ec; [|done].
      destruct (proj1 Hc eq_refl) as [? ?]. done.
  - intros m Hnc. unfold handleSignaling.
    destruct (peerConnection a); [|done]. by rewrite Hnc.
Qed.

Lemma signal_elem a request e :
  e ∈ signal a request ↔ signalingHandler a = true ∧ e = Signal request.
Proof.
  unfold signal. destruct (signalingHandler a).
  - rewrite list_elem_of_singleton. naive_solver.
  - split; [by intros ?%elem_of_nil|by intros [? _]].
Qed.

(** X28.  Connecting an adapter that is not connected takes a new connection and
    announces it; connecting again does nothing.  Disconnecting then closes
    that connection, announces the disconnect when a handler is set, drops
    every stream and keeps the listeners; disconnecting again does nothing.
    Without [RTCPeerConnection] the connect throws and changes nothing. *)
Theorem connect_then_disconnect_round_trip a :
  connected a = false →
  let a1 := fst (fst (connect true a)) in
  let a2 := fst (disconnect a1) in
  connect true a = (a1, signal a (SfuConnect (sfuOptions_url a)), Returned)
  ∧ connected a1 = true ∧ peerConnection a1 = Some (nextConnection a)
  ∧ (∀ hasRTC, connect hasRTC a1 = (a1, [], Returned))
  ∧ ClosePeerConnection (nextConnection a) ∈ snd (disconnect a1)
  ∧ (Signal SfuDisconnect ∈ snd (disconnect a1) ↔ signalingHandler a = true)
  ∧ connected a2 = false ∧ peerConnection a2 = None
  ∧ localStream a2 = None ∧ remoteStreams a2 = ∅
  ∧ eventListeners a2 = eventListeners a
  ∧ disconnect a2 = (a2, [])
  ∧ connect false a = (a, [], Threw).
Proof.
  intros Hnc a1 a2. subst a1 a2. unfold connect. rewrite Hnc. simpl.
  split_and!; try done.
  - rewrite !elem_of_app. right. right. apply list_elem_of_here.
  - rewrite !elem_of_app, elem_of_cons, signal_elem. simpl. split.
    + intros [Hin|[Hin|[Hin|[Hin _]]]]; [| |done|done].
      * apply list_elem_of_fmap in Hin as (? & ? & _). done.
      * destruct (localStream a); [apply list_elem_of_singleton in Hin; done|].
        by apply elem_of_nil in Hin.
    + intros Hh. right. right. right. done.
Qed.

Lemma connect_then_disconnect_round_trip_witness :
  let a := run "wss://sfu.example.com" [SetSignalingHandler; On "stream" 1%nat] in
  ClosePeerConnection (nextConnection a)
  ∈ snd (disconnect (fst (fst (connect true a)))).
Proof.
  intros a.
  refine (proj1 (proj2 (proj2 (proj2 (proj2
            (connect_then_disconnect_round_trip a _)))))).
  reflexivity.
Defined.

(** X29.  A notice that a user's stream was unpublished, received while
    connected, is handled as [unsubscribe] of that user (of the empty id
    when the notice names none): the user's remote stream, if held, is
    stopped and dropped, and an unsubscribe request is sent whenever a
    handler is set, even if no stream of that user was held. *)
Theorem unpublished_stream_is_unsubscribed message a pc :
  connected a = true → peerConnection a = Some pc →
  msg_type message = Some "sfu-stream-unpublished" →
  let userId := userIdOrEmpty message in
  handleSignaling message a = unsubscribe userId a
  ∧ remoteStreams (fst (handleSignaling message a))
    = delete userId (remoteStreams a)
  ∧ (∀ stream, StopTracks stream ∈ snd (handleSignaling message a)
               ↔ remoteStreams a !! userId = Some stream)
  ∧ (Signal (SfuUnsubscribe userId) ∈ snd (handleSignaling message a)
     ↔ signalingHandler a = true)
  ∧ connected (fst (handleSignaling message a)) = true
  ∧ peerConnection (fst (handleSignaling message a)) = Some pc.
Proof.
  intros Hc Hp Hty userId.
  assert (handleSignaling message a = unsubscribe userId a) as ->.
  { unfold handleSignaling. by rewrite Hp, Hc, Hty. }
  unfold unsubscribe. rewrite Hc. simpl.
  destruct (remoteStreams a !! userId) as [stream|] eqn:Es; simpl.
  - split_and!; try done.
    + intros stream'. rewrite elem_of_cons, signal_elem. split.
      * intros [[= ->]|[_ ?]]; done.
      * intros [= ->]. by left.
    + rewrite elem_of_cons, signal_elem. split.
      * intros [?|[? _]]; done.
      * intros Hh. by right.
  - split_and!; try done.
    + by rewrite delete_id.
    + intros stream'. rewrite signal_elem. split; [by intros [_ ?]|done].
    + rewrite signal_elem. split; [by intros [? _]|done].
Qed.

Lemma unpublished_stream_is_unsubscribed_witness :
  let a := run "wss://sfu.example.com" [SetSignalingHandler; Connect true] in
  let message :=
    mkMessage (Some "sfu-stream-unpublished") None None None None in
  Signal (SfuUnsubscribe "") ∈ snd (handleSignaling message a)
  ↔ signalingHandler a = true.
Proof.
  intros a message.
  refine (proj1 (proj2 (proj2 (proj2
            (unpublished_stream_is_unsubscribed message a 0%nat _ _ _))))).
  - reflexivity.
  - reflexivity.
  - reflexivity.
Defined.

Lemma removeFirst_Permutation callback listeners :
  callback ∈ listeners → listeners ≡ₚ callback :: removeFirst callback listeners.
Proof.
  induction listeners as [|cb rest IH]; intros Hin; [by apply elem_of_nil in Hin|].
  simpl. case_decide as Heq; [by subst|].
  apply elem_of_cons in Hin as [?|Hin]; [done|].
  rewrite (IH Hin) at 1. apply Permutation_swap.
Qed.

Lemma removeFirst_absent callback listeners :
  callback ∉ listeners → removeFirst callback listeners = listeners.
Proof.
  induction listeners as [|cb rest IH]; intros Hin; [done|].
  simpl. case_decide as Heq.
  - subst. exfalso. apply Hin. apply list_elem_of_here.
  - f_equal. apply IH. intros H. apply Hin. by apply list_elem_of_further.
Qed.

(** X30.  The adapter's [off] removes one registration of the callback, the
    earliest, and keeps the rest in order: a callback registered twice is
    still invoked after one [off].  Removing a callback that is not
    registered changes nothing. *)
Theorem adapter_off_removes_one_registration event callback a :
  let before := default [] (eventListeners a !! event) in
  let after := default [] (eventListeners (off event callback a) !! event) in
  after = removeFirst callback before
  ∧ (callback ∈ before → before ≡ₚ callback :: after)
  ∧ (callback ∉ before → off event callback a = a)
  ∧ callback
    ∈ default []
        (eventListeners (off event callback (on event callback
                                               (on event callback a)))
         !! event)
  ∧ (∀ other, other ≠ event →
       eventListeners (off event callback a) !! other
       = eventListeners a !! other).
Proof.
  intros before after. subst before after.
  assert (default [] (eventListeners (off event callback a) !! event)
          = removeFirst callback (default [] (eventListeners a !! event))) as Hoff.
  { unfold off. destruct (eventListeners a !! event) as [ls|] eqn:E; simpl.
    - by rewrite lookup_insert_eq.
    - by rewrite E. }
  split_and!.
  - done.
  - intros Hin. rewrite Hoff. by apply removeFirst_Permutation.
  - intros Hnot. unfold off.
    destruct (eventListeners a !! event) as [ls|] eqn:E; [|done].
    simpl in Hnot. rewrite removeFirst_absent by done.
    rewrite insert_id by done. by destruct a.
  - unfold off, on. simpl. rewrite !lookup_insert_eq. simpl.
    rewrite lookup_insert_eq. simpl.
    set (ls := default [] (eventListeners a !! event)).
    assert (callback ∈ removeFirst callback ((ls ++ [callback]) ++ [callback]))
      as Hin.
    { induction ls as [|x ls IH]; simpl.
      - rewrite decide_True by done. apply list_elem_of_here.
      - case_decide as Heq.
        + apply elem_of_app. right. apply list_elem_of_here.
        + by apply list_elem_of_further. }
    done.
  - intros other Hne. unfold off.
    destruct (eventListeners a !! event) as [ls|]; [|done].
    simpl. by rewrite lookup_insert_ne.
Qed.
End SfuProperties.
